(** * story-mode: the video generation service

    A shallow embedding of [src/services/geminiService.ts]: the payload that
    [performGeneration] builds for the remote video API, its submit / poll /
    fetch cycle, and the story-mode chaining of [generateVideo].

    Conventions.
    - An optional field or parameter ([x?: T], [T | null]) is an [option].
    - JavaScript truthiness is written out where the source tests a value:
      a string is truthy when it is not empty, an object always.
    - [console.log] and [console.error] calls are not modelled, and
      [new GoogleGenAI(...)] is taken to succeed: its [ai] handle is the
      world.
    - The remote service, [fetch] and the timer are the only effects; they
      are modelled by a [World] that holds the replies still to come and the
      trace of the calls made so far. *)

From Stdlib Require Import Ascii String List Bool Arith NArith Lia.
From Stdlib Require Import DecimalString.
Import ListNotations.
Local Open Scope list_scope.
Local Open Scope string_scope.

(** ** Data model *)

(** Modelled from the spec: [src/types.ts] is not among the sources; the
    five modes are the members of [GenerationMode] that the service and the
    form name (spec section 3: TextToVideo, FramesToVideo, ReferencesToVideo,
    ExtendVideo, StorySequence). *)
Inductive GenerationMode : Type :=
| TEXT_TO_VIDEO
| FRAMES_TO_VIDEO
| REFERENCES_TO_VIDEO
| EXTEND_VIDEO
| STORY_MODE.

Definition mode_eqb (a b : GenerationMode) : bool :=
  match a, b with
  | TEXT_TO_VIDEO, TEXT_TO_VIDEO
  | FRAMES_TO_VIDEO, FRAMES_TO_VIDEO
  | REFERENCES_TO_VIDEO, REFERENCES_TO_VIDEO
  | EXTEND_VIDEO, EXTEND_VIDEO
  | STORY_MODE, STORY_MODE => true
  | _, _ => false
  end.

(** The part of a browser [File] that the service reads. *)
Record File : Type := mkFile {
  file_name : string;
  file_type : string
}.

(** Modelled from the spec: [ImageFile] of [src/types.ts] (an encoded image
    with an optional text label), with the fields the service reads:
    [file], [base64], [description]. *)
Record ImageFile : Type := mkImageFile {
  file : File;
  base64 : string;
  description : option string
}.

(** [Video] of the SDK: an opaque handle; the service reads [uri] only. *)
Record Video : Type := mkVideo {
  video_uri : option string;
  videoBytes : option string;
  video_mimeType : option string
}.

(** Modelled from the spec: [GenerateVideoParams] of [src/types.ts]
    (spec section 3, GenerationRequest), with the fields the service reads.
    The enumerated [model], [aspectRatio] and [resolution] are string enums
    and are carried as their string values. *)
Record GenerateVideoParams : Type := mkParams {
  prompt : string;
  model : string;
  aspectRatio : string;
  resolution : string;
  mode : GenerationMode;
  startFrame : option ImageFile;
  endFrame : option ImageFile;
  referenceImages : option (list ImageFile);
  styleImage : option ImageFile;
  inputVideoObject : option Video;
  isLooping : option bool;
  storyPrompts : option (list string)
}.

(** [{imageBytes, mimeType}] *)
Record Image : Type := mkImage {
  imageBytes : string;
  mimeType : string
}.

Inductive VideoGenerationReferenceType : Type := ASSET | STYLE.

Record VideoGenerationReferenceImage : Type := mkReferenceImage {
  image : Image;
  referenceType : VideoGenerationReferenceType
}.

(** The [config] object of the payload; a field that the code does not set
    is [None]. *)
Record Config : Type := mkConfig {
  numberOfVideos : nat;
  config_resolution : string;
  config_aspectRatio : option string;
  lastFrame : option Image;
  config_referenceImages : option (list VideoGenerationReferenceImage)
}.

(** [generateVideoPayload] *)
Record Payload : Type := mkPayload {
  payload_model : string;
  payload_config : Config;
  payload_prompt : option string;
  payload_image : option Image;
  payload_video : option Video
}.

(** Exceptions.  [Error msg] is [new Error(msg)], which only this module
    constructs; [URIError] is what [decodeURIComponent] throws; a failure of
    the remote service, of [fetch] or of reading a body is a
    [RemoteFailure], kept apart so that a statement about an [Error] is a
    statement about a [throw] of this module. *)
Inductive Exn : Type :=
| Error (message : string)
| URIError
| RemoteFailure (reason : string).

(** The errors of the spec's taxonomy (section 7), by the message the code
    throws. *)
Definition MissingExtensionSource : Exn :=
  Error "An input video object is required to extend a video.".
Definition NoAssetsProduced : Exn := Error "No videos were generated.".
Definition MissingAssetLocator : Exn := Error "Generated video is missing a URI.".
Definition GenerationFailed : Exn := Error "No videos generated.".
Definition ChainBroken : Exn := Error "Previous step failed to produce a result.".
Definition StoryModeFailed : Exn := Error "Story Mode failed to generate any video.".

(** The completion of synchronous code. *)
Inductive Completion (A : Type) : Type :=
| Return (a : A)
| Throw (e : Exn).
Arguments Return {A} a.
Arguments Throw {A} e.

(** ** JavaScript helpers *)

(** Truthiness of a string. *)
Definition truthy (s : string) : bool := negb (s =? "").

(** Truthiness of [x?: boolean]. *)
Definition truthy_flag (b : option bool) : bool :=
  match b with Some true => true | _ => false end.

Definition is_some {A : Type} (o : option A) : bool :=
  match o with Some _ => true | None => false end.

(** [a || b] on an optional string and a string. *)
Definition or_else (a : option string) (b : string) : string :=
  match a with
  | Some s => if truthy s then s else b
  | None => b
  end.

(** [`${n}`] for a non-negative integer. *)
Definition string_of_nat (n : nat) : string :=
  NilEmpty.string_of_uint (Nat.to_uint n).

(** [arr.map((x, idx) => f x idx)], counting from [idx]. *)
Fixpoint mapi_from {A B : Type} (f : A -> nat -> B) (idx : nat) (arr : list A)
  : list B :=
  match arr with
  | [] => []
  | x :: rest => f x idx :: mapi_from f (S idx) rest
  end.

(** [arr.filter(Boolean)] on an array of strings and [null]s; the strings
    here are never empty (see [refDescription]). *)
Fixpoint filter_Boolean (arr : list (option string)) : list string :=
  match arr with
  | [] => []
  | Some s :: rest => if truthy s then s :: filter_Boolean rest
                      else filter_Boolean rest
  | None :: rest => filter_Boolean rest
  end.

(** [arr.join(sep)] *)
Definition join (sep : string) (arr : list string) : string :=
  String.concat sep arr.

(** [params.referenceImages?.length], as a number (0 when absent). *)
Definition referenceImages_length (params : GenerateVideoParams) : nat :=
  match referenceImages params with
  | Some imgs => length imgs
  | None => 0
  end.

(** ** The payload of [performGeneration] (lines 29-131) *)

(** Line 38. *)
Definition isExtensionOperation (params : GenerateVideoParams)
    (overrideVideoInput : option Video) : bool :=
  mode_eqb (mode params) EXTEND_VIDEO || is_some overrideVideoInput.

(** Line 59, the callback of [map]. *)
Definition refDescription (img : ImageFile) (idx : nat) : option string :=
  match description img with
  | Some d =>
      if truthy d
      then Some ("(Reference " ++ string_of_nat (idx + 1) ++ ": " ++ d ++ ")")
      else None
  | None => None
  end.

(** Lines 58-61. *)
Definition refDescriptions (imgs : list ImageFile) : string :=
  join " " (filter_Boolean (mapi_from refDescription 0 imgs)).

(** Line 53: [overridePrompt || params.prompt]. *)
Definition basePrompt (params : GenerateVideoParams)
    (overridePrompt : option string) : string :=
  or_else overridePrompt (prompt params).

(** Lines 53-66: the final value of [activePrompt]. *)
Definition activePrompt (params : GenerateVideoParams)
    (overridePrompt : option string) (overrideVideoInput : option Video)
  : string :=
  let activePrompt := basePrompt params overridePrompt in
  if negb (isExtensionOperation params overrideVideoInput)
     && negb (Nat.eqb (referenceImages_length params) 0)
  then
    match referenceImages params with
    | Some imgs =>
        let refDescriptions := refDescriptions imgs in
        if truthy refDescriptions
        then (if truthy activePrompt
              then activePrompt ++ " " ++ refDescriptions
              else refDescriptions)
        else activePrompt
    | None => activePrompt
    end
  else activePrompt.

Definition image_of (f : ImageFile) : Image :=
  {| imageBytes := base64 f; mimeType := file_type (file f) |}.

(** Lines 99-119: [referenceImagesPayload]. *)
Definition referenceImagesPayload (params : GenerateVideoParams)
  : list VideoGenerationReferenceImage :=
  ((match referenceImages params with
    | Some imgs =>
        map (fun img => {| image := image_of img; referenceType := ASSET |}) imgs
    | None => []
    end)
   ++
   (match styleImage params with
    | Some s => [{| image := image_of s; referenceType := STYLE |}]
    | None => []
    end))%list.

(** Lines 29-131.  The object is built field by field in the source; here
    the fields are computed and assembled at the end.  The only [throw] is
    that of line 129. *)
Definition buildPayload (params : GenerateVideoParams)
    (overridePrompt : option string) (overrideVideoInput : option Video)
  : Completion Payload :=
  let isExt := isExtensionOperation params overrideVideoInput in
  let config0 :=
    {| numberOfVideos := 1;
       config_resolution := resolution params;
       config_aspectRatio := if isExt then None else Some (aspectRatio params);
       lastFrame := None;
       config_referenceImages := None |} in
  let activePrompt := activePrompt params overridePrompt overrideVideoInput in
  let payload0 :=
    {| payload_model := model params;
       payload_config := config0;
       payload_prompt := if truthy activePrompt then Some activePrompt else None;
       payload_image := None;
       payload_video := None |} in
  match overrideVideoInput with
  | Some v =>
      Return {| payload_model := payload_model payload0;
                payload_config := config0;
                payload_prompt := payload_prompt payload0;
                payload_image := None;
                payload_video := Some v |}
  | None =>
      if mode_eqb (mode params) FRAMES_TO_VIDEO then
        let finalEndFrame :=
          if truthy_flag (isLooping params) then startFrame params
          else endFrame params in
        Return {| payload_model := payload_model payload0;
                  payload_config :=
                    {| numberOfVideos := numberOfVideos config0;
                       config_resolution := config_resolution config0;
                       config_aspectRatio := config_aspectRatio config0;
                       lastFrame := option_map image_of finalEndFrame;
                       config_referenceImages := None |};
                  payload_prompt := payload_prompt payload0;
                  payload_image := option_map image_of (startFrame params);
                  payload_video := None |}
      else if mode_eqb (mode params) REFERENCES_TO_VIDEO
              || (mode_eqb (mode params) STORY_MODE
                  && negb (Nat.eqb (referenceImages_length params) 0)) then
        if negb isExt then
          let refs := referenceImagesPayload params in
          Return {| payload_model := payload_model payload0;
                    payload_config :=
                      {| numberOfVideos := numberOfVideos config0;
                         config_resolution := config_resolution config0;
                         config_aspectRatio := config_aspectRatio config0;
                         lastFrame := None;
                         config_referenceImages :=
                           if Nat.ltb 0 (length refs) then Some refs else None |};
                    payload_prompt := payload_prompt payload0;
                    payload_image := None;
                    payload_video := None |}
        else Return payload0
      else if mode_eqb (mode params) EXTEND_VIDEO then
        match inputVideoObject params with
        | Some v =>
            Return {| payload_model := payload_model payload0;
                      payload_config := config0;
                      payload_prompt := payload_prompt payload0;
                      payload_image := None;
                      payload_video := Some v |}
        | None => Throw MissingExtensionSource
        end
      else Return payload0
  end.

(** ** The remote service, [fetch] and the timer *)

(** [GeneratedVideo], [GenerateVideosResponse] and the operation handle of
    the SDK, with the fields the service reads. *)
Record GeneratedVideo : Type := mkGeneratedVideo {
  gv_video : option Video
}.

Record GenerateVideosResponse : Type := mkResponse {
  generatedVideos : option (list GeneratedVideo)
}.

Record Operation : Type := mkOperation {
  operation_name : string;
  done : option bool;
  response : option GenerateVideosResponse
}.

(** What an awaited call of the environment settles to. *)
Inductive Reply (A : Type) : Type :=
| Resolve (a : A)
| Reject (reason : string).
Arguments Resolve {A} a.
Arguments Reject {A} reason.

Definition Blob : Type := string.

(** The [Response] of [fetch]: [ok], [status], [statusText] and what
    [blob()] settles to. *)
Record FetchResponse : Type := mkFetchResponse {
  ok : bool;
  status : nat;
  statusText : string;
  body : Reply Blob
}.

(** The calls that leave the module, in the order they are made. *)
Inductive Event : Type :=
| EvSubmit (payload : Payload)      (* ai.models.generateVideos(payload) *)
| EvSleep (ms : N)                  (* setTimeout(resolve, ms) *)
| EvPoll (operation : Operation)    (* ai.operations.getVideosOperation *)
| EvFetch (url : string).           (* fetch(url) *)

(** The environment: the replies that the successive calls of each kind
    will receive, the calls made so far, and the number of object URLs
    handed out.  A call that finds no reply left never settles. *)
Record World : Type := mkWorld {
  submits : list (Reply Operation);
  polls : list (Reply Operation);
  fetches : list (Reply FetchResponse);
  trace : list Event;
  objectUrls : nat
}.

(** The state of an awaited promise: fulfilled, rejected, or never settled. *)
Inductive Promise (A : Type) : Type :=
| Fulfilled (a : A)
| Rejected (e : Exn)
| PendingForever.
Arguments Fulfilled {A} a.
Arguments Rejected {A} e.
Arguments PendingForever {A}.

(** An [async] computation. *)
Definition Async (A : Type) : Type := World -> Promise A * World.

Definition ret {A : Type} (a : A) : Async A := fun w => (Fulfilled a, w).

Definition throw {A : Type} (e : Exn) : Async A := fun w => (Rejected e, w).

Definition bind {A B : Type} (m : Async A) (k : A -> Async B) : Async B :=
  fun w =>
    match m w with
    | (Fulfilled a, w') => k a w'
    | (Rejected e, w') => (Rejected e, w')
    | (PendingForever, w') => (PendingForever, w')
    end.

Declare Scope async_scope.
Delimit Scope async_scope with async.
Notation "x <- m ;; k" := (bind m (fun x => k))
  (at level 61, m at next level, right associativity) : async_scope.
Notation "m ;;; k" := (bind m (fun _ => k))
  (at level 61, right associativity) : async_scope.
Local Open Scope async_scope.

Definition of_completion {A : Type} (c : Completion A) : Async A :=
  match c with
  | Return a => ret a
  | Throw e => throw e
  end.

Definition settle {A : Type} (r : Reply A) : Promise A :=
  match r with
  | Resolve a => Fulfilled a
  | Reject reason => Rejected (RemoteFailure reason)
  end.

Definition emit (evs : list Event) (w : World) : World :=
  {| submits := submits w; polls := polls w; fetches := fetches w;
     trace := (trace w ++ evs)%list; objectUrls := objectUrls w |}.

Definition set_submits (l : list (Reply Operation)) (w : World) : World :=
  {| submits := l; polls := polls w; fetches := fetches w;
     trace := trace w; objectUrls := objectUrls w |}.

Definition set_polls (l : list (Reply Operation)) (w : World) : World :=
  {| submits := submits w; polls := l; fetches := fetches w;
     trace := trace w; objectUrls := objectUrls w |}.

Definition set_fetches (l : list (Reply FetchResponse)) (w : World) : World :=
  {| submits := submits w; polls := polls w; fetches := l;
     trace := trace w; objectUrls := objectUrls w |}.

(** [await ai.models.generateVideos(payload)] *)
Definition generateVideos (payload : Payload) : Async Operation :=
  fun w =>
    let w' := emit [EvSubmit payload] w in
    match submits w' with
    | [] => (PendingForever, w')
    | r :: rest => (settle r, set_submits rest w')
    end.

(** [await new Promise((resolve) => setTimeout(resolve, ms))] *)
Definition sleep (ms : N) : Async unit :=
  fun w => (Fulfilled tt, emit [EvSleep ms] w).

(** [await ai.operations.getVideosOperation({operation})] *)
Definition getVideosOperation (operation : Operation) : Async Operation :=
  fun w =>
    let w' := emit [EvPoll operation] w in
    match polls w' with
    | [] => (PendingForever, w')
    | r :: rest => (settle r, set_polls rest w')
    end.

(** [await fetch(url)] *)
Definition fetch (url : string) : Async FetchResponse :=
  fun w =>
    let w' := emit [EvFetch url] w in
    match fetches w' with
    | [] => (PendingForever, w')
    | r :: rest => (settle r, set_fetches rest w')
    end.

(** [await res.blob()] *)
Definition blob_of (res : FetchResponse) : Async Blob :=
  fun w => (settle (body res), w).

(** [URL.createObjectURL(blob)]: a fresh URL at each call. *)
Definition createObjectURL (b : Blob) : Async string :=
  fun w =>
    (Fulfilled ("blob:" ++ string_of_nat (objectUrls w)),
     {| submits := submits w; polls := polls w; fetches := fetches w;
        trace := trace w; objectUrls := S (objectUrls w) |}).

(** [!operation.done] is false *)
Definition is_done (operation : Operation) : bool := truthy_flag (done operation).

(** Lines 137-141, [while (!operation.done) { sleep; poll }], by recursion
    on the replies that the polls will receive: the operation the loop ends
    with, the replies left, and the calls made.  The loop has no bound of its
    own: it ends when a reply is done, when a poll is rejected, or never. *)
Fixpoint whileNotDone (script : list (Reply Operation)) (operation : Operation)
  : Promise Operation * list (Reply Operation) * list Event :=
  if is_done operation then (Fulfilled operation, script, [])
  else
    match script with
    | [] => (PendingForever, [], [EvSleep 10000%N; EvPoll operation])
    | Reject reason :: rest =>
        (Rejected (RemoteFailure reason), rest,
         [EvSleep 10000%N; EvPoll operation])
    | Resolve next :: rest =>
        let '(p, unread, evs) := whileNotDone rest next in
        (p, unread, EvSleep 10000%N :: EvPoll operation :: evs)
    end.

Definition pollUntilDone (operation : Operation) : Async Operation :=
  fun w =>
    let '(p, unread, evs) := whileNotDone (polls w) operation in
    (p, set_polls unread (emit evs w)).

(** The result of a generation. *)
Record GenerationResult : Type := mkResult {
  objectUrl : string;
  blob : Blob;
  uri : string;
  video : Video
}.

(** [firstVideo?.video?.uri], when truthy, with the video that carries it. *)
Definition video_with_uri (firstVideo : GeneratedVideo) : option (Video * string) :=
  match gv_video firstVideo with
  | Some v =>
      match video_uri v with
      | Some u => if truthy u then Some (v, u) else None
      | None => None
      end
  | None => None
  end.


(** [{...params, mode: GenerationMode.STORY_MODE, prompt: currentPrompt}] *)
Definition first_step_params (params : GenerateVideoParams)
    (currentPrompt : string) : GenerateVideoParams :=
  {| prompt := currentPrompt;
     model := model params;
     aspectRatio := aspectRatio params;
     resolution := resolution params;
     mode := STORY_MODE;
     startFrame := startFrame params;
     endFrame := endFrame params;
     referenceImages := referenceImages params;
     styleImage := styleImage params;
     inputVideoObject := inputVideoObject params;
     isLooping := isLooping params;
     storyPrompts := storyPrompts params |}.

(** * The form ([src/components/PromptForm.tsx])

    The component keeps its inputs in state variables; a handler is modelled
    as the function from the state of the render it was created in to the
    state that its [set...] calls ask for. *)

(** Modelled from the spec: [VideoFile] of [src/types.ts], an encoded file
    as [fileToBase64] builds it: [{file, base64}]. *)
Record VideoFile : Type := mkVideoFile {
  video_file : File;
  video_base64 : string
}.

(** [s.split(sep)] for a separator of one character: the first piece and
    the pieces after it. *)
Fixpoint split_pieces (sep : ascii) (s : string) : string * list string :=
  match s with
  | EmptyString => (EmptyString, [])
  | String c rest =>
      let '(piece, pieces) := split_pieces sep rest in
      if Ascii.eqb c sep then (EmptyString, piece :: pieces)
      else (String c piece, pieces)
  end.

Definition split (sep : ascii) (s : string) : list string :=
  let '(piece, pieces) := split_pieces sep s in piece :: pieces.

Definition comma : ascii := ","%char.

(** [fileToBase64] (lines 48-64).  [read] is how the [FileReader] ends:
    [onload] with its [result], or [onerror]. *)
Definition fileToBase64 (file : File) (read : Reply string)
  : Promise (File * string) :=
  match read with
  | Resolve result =>
      match nth_error (split comma result) 1 with
      | Some base64 =>
          if truthy base64 then Fulfilled (file, base64)
          else Rejected (Error "Failed to read file as base64.")
      | None => Rejected (Error "Failed to read file as base64.")
      end
  | Reject reason => Rejected (RemoteFailure reason)
  end.

(** Lines 65-68. *)
Definition fileToImageFile (file : File) (read : Reply string)
  : Promise ImageFile :=
  match fileToBase64 file read with
  | Fulfilled (f, b) =>
      Fulfilled {| file := f; base64 := b; description := None |}
  | Rejected e => Rejected e
  | PendingForever => PendingForever
  end.

Definition fileToVideoFile (file : File) (read : Reply string)
  : Promise VideoFile :=
  match fileToBase64 file read with
  | Fulfilled (f, b) => Fulfilled {| video_file := f; video_base64 := b |}
  | Rejected e => Rejected e
  | PendingForever => PendingForever
  end.

(** The state variables of [PromptForm] (lines 255-294). *)
Record FormState : Type := mkFormState {
  form_prompt : string;
  form_storyPrompts : list string;
  form_model : string;
  form_aspectRatio : string;
  form_resolution : string;
  generationMode : GenerationMode;
  form_startFrame : option ImageFile;
  form_endFrame : option ImageFile;
  form_referenceImages : list ImageFile;
  form_styleImage : option ImageFile;
  inputVideo : option VideoFile;
  form_inputVideoObject : option Video;
  form_isLooping : bool;
  isSettingsOpen : bool;
  isModeSelectorOpen : bool
}.

(** The argument of [onGenerate] in [handleSubmit] (lines 358-376).
    [inputVideo] is passed too; the service does not read it. *)
Definition handleSubmit (s : FormState) : GenerateVideoParams :=
  {| prompt := form_prompt s;
     model := form_model s;
     aspectRatio := form_aspectRatio s;
     resolution := form_resolution s;
     mode := generationMode s;
     startFrame := form_startFrame s;
     endFrame := form_endFrame s;
     referenceImages := Some (form_referenceImages s);
     styleImage := form_styleImage s;
     inputVideoObject := form_inputVideoObject s;
     isLooping := Some (form_isLooping s);
     storyPrompts := Some (form_storyPrompts s) |}.

Definition set_storyPrompts (l : list string) (s : FormState) : FormState :=
  {| form_prompt := form_prompt s;
     form_storyPrompts := l;
     form_model := form_model s;
     form_aspectRatio := form_aspectRatio s;
     form_resolution := form_resolution s;
     generationMode := generationMode s;
     form_startFrame := form_startFrame s;
     form_endFrame := form_endFrame s;
     form_referenceImages := form_referenceImages s;
     form_styleImage := form_styleImage s;
     inputVideo := inputVideo s;
     form_inputVideoObject := form_inputVideoObject s;
     form_isLooping := form_isLooping s;
     isSettingsOpen := isSettingsOpen s;
     isModeSelectorOpen := isModeSelectorOpen s |}.

Definition set_referenceImages (l : list ImageFile) (s : FormState)
  : FormState :=
  {| form_prompt := form_prompt s;
     form_storyPrompts := form_storyPrompts s;
     form_model := form_model s;
     form_aspectRatio := form_aspectRatio s;
     form_resolution := form_resolution s;
     generationMode := generationMode s;
     form_startFrame := form_startFrame s;
     form_endFrame := form_endFrame s;
     form_referenceImages := l;
     form_styleImage := form_styleImage s;
     inputVideo := inputVideo s;
     form_inputVideoObject := form_inputVideoObject s;
     form_isLooping := form_isLooping s;
     isSettingsOpen := isSettingsOpen s;
     isModeSelectorOpen := isModeSelectorOpen s |}.

(** [handleSelectMode] (lines 395-412). *)
Definition handleSelectMode (mode : GenerationMode) (s : FormState)
  : FormState :=
  {| form_prompt := form_prompt s;
     form_storyPrompts :=
       if mode_eqb mode STORY_MODE && Nat.ltb (length (form_storyPrompts s)) 2
       then [""; ""]
       else form_storyPrompts s;
     form_model := form_model s;
     form_aspectRatio := form_aspectRatio s;
     form_resolution := form_resolution s;
     generationMode := mode;
     form_startFrame := None;
     form_endFrame := None;
     form_referenceImages := [];
     form_styleImage := None;
     inputVideo := None;
     form_inputVideoObject := None;
     form_isLooping := false;
     isSettingsOpen := isSettingsOpen s;
     isModeSelectorOpen := false |}.

(** [addStorySegment] (lines 420-424). *)
Definition addStorySegment (s : FormState) : FormState :=
  if Nat.ltb (length (form_storyPrompts s)) 20
  then set_storyPrompts (form_storyPrompts s ++ [""])%list s
  else s.

(** [arr.filter((_, i) => i !== index)], counting from [i]. *)
Fixpoint filter_not_index {A : Type} (index : nat) (i : nat) (arr : list A)
  : list A :=
  match arr with
  | [] => []
  | x :: rest =>
      if Nat.eqb i index then filter_not_index index (S i) rest
      else x :: filter_not_index index (S i) rest
  end.

(** [removeStorySegment] (lines 426-431). *)
Definition removeStorySegment (index : nat) (s : FormState) : FormState :=
  if Nat.ltb 2 (length (form_storyPrompts s))
  then set_storyPrompts (filter_not_index index 0 (form_storyPrompts s)) s
  else s.

(** [{ ...img, description }] *)
Definition with_description (img : ImageFile) (d : string) : ImageFile :=
  {| file := file img; base64 := base64 img; description := Some d |}.

(** The update function of lines 434-440, on the previous array. *)
Fixpoint update_description (index : nat) (d : string) (prev : list ImageFile)
  : list ImageFile :=
  match prev, index with
  | [], _ => []
  | img :: rest, 0 => with_description img d :: rest
  | img :: rest, S index' => img :: update_description index' d rest
  end.

(** [updateReferenceDescription] (lines 433-441). *)
Definition updateReferenceDescription (index : nat) (d : string)
    (s : FormState) : FormState :=
  set_referenceImages (update_description index d (form_referenceImages s)) s.

(** Line 460. *)
Definition totalReferences (s : FormState) : nat :=
  length (form_referenceImages s)
  + (if is_some (form_styleImage s) then 1 else 0).


(** * Specification side *)

(** What the spec says of the prompt: the texts
    [(Reference <1-based-index>: <label>)] of the references that have a
    non-empty label, in input order. *)
Definition label_of (img : ImageFile) : string :=
  match description img with
  | Some d => d
  | None => ""
  end.

Definition spec_label_texts (imgs : list ImageFile) : list string :=
  map (fun entry => "(Reference " ++ string_of_nat (fst entry) ++ ": "
                    ++ snd entry ++ ")")
      (filter (fun entry => negb (snd entry =? ""))
              (combine (seq 1 (length imgs)) (map label_of imgs))).

(** The base prompt followed by the texts, joined by single spaces; the
    texts alone when the base prompt is empty. *)
Definition spec_effective_prompt (base : string) (imgs : list ImageFile) : string :=
  String.concat " "
    (if base =? "" then spec_label_texts imgs
     else base :: spec_label_texts imgs).

(** The [prompt] field of a submission that is to carry [s]: absent when
    [s] is empty. *)
Definition prompt_field (s : string) : option string :=
  if s =? "" then None else Some s.

(** The reference images of a request, none when the field is absent. *)
Definition references_of (params : GenerateVideoParams) : list ImageFile :=
  match referenceImages params with
  | Some imgs => imgs
  | None => []
  end.

(** The effective end frame of a frames request, in the spec's words. *)
Definition spec_effective_end_frame (params : GenerateVideoParams)
  : option ImageFile :=
  match isLooping params with
  | Some true => startFrame params
  | _ => endFrame params
  end.

(** The calls of each kind in a trace. *)
Definition submitted (tr : list Event) : list Payload :=
  flat_map (fun e => match e with EvSubmit p => [p] | _ => [] end) tr.

Definition polled (tr : list Event) : list Operation :=
  flat_map (fun e => match e with EvPoll o => [o] | _ => [] end) tr.

Definition fetched (tr : list Event) : list string :=
  flat_map (fun e => match e with EvFetch u => [u] | _ => [] end) tr.

(** The calls of one round of the loop for each operation of [ops]. *)
Definition rounds (ops : list Operation) : list Event :=
  flat_map (fun o => [EvSleep 10000%N; EvPoll o]) ops.

(** A descriptor has a retrievable location when it holds a video whose
    [uri] is a non-empty string. *)
Definition has_location (d : GeneratedVideo) : Prop :=
  exists v u, gv_video d = Some v /\ video_uri v = Some u /\ u <> "".

(** The value of [currentResult] after steps that yielded [results]. *)
Definition current_after (currentResult : option GenerationResult)
    (results : list GenerationResult) : option GenerationResult :=
  fold_left (fun _ result => Some result) results currentResult.

(** The payload that the step at index [i] builds. *)
Definition step_submission (params : GenerateVideoParams) (i : nat)
    (currentPrompt : string) (currentResult : option GenerationResult)
  : Completion Payload :=
  if Nat.eqb i 0 then
    buildPayload (first_step_params params currentPrompt) None None
  else
    match currentResult with
    | None => Throw ChainBroken
    | Some previous =>
        buildPayload params (Some currentPrompt) (Some (video previous))
    end.

(** The style image of a request, as a list of zero or one image. *)
Definition style_of (params : GenerateVideoParams) : list ImageFile :=
  match styleImage params with
  | Some s => [s]
  | None => []
  end.


(** The number of cycles that [generateVideo] may run on a request: one
    for each story prompt on the story path, one otherwise. *)
Definition steps_of (params : GenerateVideoParams) : nat :=
  match mode params, storyPrompts params with
  | STORY_MODE, Some (first :: others) => length (first :: others)
  | _, _ => 1
  end.


(** The replies that one cycle consumes when all goes well: the operation
    that the submission returns, the operations that the polls return while
    the job runs, the operation that ends the loop and the response of the
    fetch; with the video, the decoded location and the bytes they hold. *)
Record Job : Type := mkJob {
  job_started : Operation;
  job_running : list Operation;
  job_final : Operation;
  job_video : Video;
  job_url : string;
  job_fetched : FetchResponse;
  job_bytes : Blob
}.

(** The failures that one submit, poll and fetch cycle can end with. *)
Definition cycle_error (e : Exn) : Prop :=
  e = GenerationFailed
  \/ e = NoAssetsProduced
  \/ e = MissingAssetLocator
  \/ e = URIError
  \/ (exists reason, e = RemoteFailure reason)
  \/ (exists st tx,
         e = Error ("Failed to fetch video: " ++ string_of_nat st ++ " " ++ tx)).

(** Whether [c] occurs in [s]. *)
Fixpoint has_char (c : ascii) (s : string) : bool :=
  match s with
  | EmptyString => false
  | String c' rest => Ascii.eqb c' c || has_char c rest
  end.


(** * Sample inputs *)

Definition png (n : string) : File := {| file_name := n; file_type := "image/png" |}.

Definition img1 : ImageFile :=
  {| file := png "hero.png"; base64 := "aGVybw=="; description := Some "Hero" |}.
Definition img2 : ImageFile :=
  {| file := png "city.png"; base64 := "Y2l0eQ=="; description := Some "" |}.
Definition img3 : ImageFile :=
  {| file := png "style.png"; base64 := "c3R5bGU="; description := None |}.

Definition sample_params (m : GenerationMode) : GenerateVideoParams :=
  {| prompt := "A chase";
     model := "veo-3.1-fast-generate-preview";
     aspectRatio := "16:9";
     resolution := "720p";
     mode := m;
     startFrame := None;
     endFrame := None;
     referenceImages := Some [img1; img2];
     styleImage := Some img3;
     inputVideoObject := None;
     isLooping := None;
     storyPrompts := None |}.

Definition sample_video (u : string) : Video :=
  {| video_uri := Some u; videoBytes := None; video_mimeType := Some "video/mp4" |}.

Definition looping_params : GenerateVideoParams :=
  {| prompt := "A loop";
     model := "veo-3.1-fast-generate-preview";
     aspectRatio := "16:9";
     resolution := "720p";
     mode := FRAMES_TO_VIDEO;
     startFrame := Some img1;
     endFrame := Some img2;
     referenceImages := None;
     styleImage := None;
     inputVideoObject := None;
     isLooping := Some true;
     storyPrompts := None |}.

(** A host whose [decodeURIComponent] leaves a URI without escapes as it
    is; the sample URIs have none. *)
Definition sample_decode (u : string) : option string := Some u.

Definition sample_key : string := "KEY".

Definition op_running : Operation :=
  {| operation_name := "operations/1"; done := None; response := None |}.

(** A reply to a poll that says [done: false]. *)
Definition op_not_done : Operation :=
  {| operation_name := "operations/1"; done := Some false; response := None |}.

Definition op_done (videos : list GeneratedVideo) : Operation :=
  {| operation_name := "operations/1";
     done := Some true;
     response := Some {| generatedVideos := Some videos |} |}.

Definition generated (u : string) : GeneratedVideo :=
  {| gv_video := Some (sample_video u) |}.

Definition ok_response (bytes : Blob) : FetchResponse :=
  {| ok := true; status := 200; statusText := "OK"; body := Resolve bytes |}.

(** One job that is polled four times before its video can be fetched. *)
Definition world_four_polls : World :=
  {| submits := [Resolve op_running];
     polls := [Resolve op_not_done; Resolve op_not_done; Resolve op_not_done;
               Resolve (op_done [generated "https://v/1?alt=media"])];
     fetches := [Resolve (ok_response "bytes-1")];
     trace := [];
     objectUrls := 0 |}.

(** One job that ends with an empty list of videos. *)
Definition world_no_assets : World :=
  {| submits := [Resolve op_running];
     polls := [Resolve (op_done [])];
     fetches := [Resolve (ok_response "bytes-1")];
     trace := [];
     objectUrls := 0 |}.

(** Two jobs, each done at its first poll. *)
Definition world_two_jobs : World :=
  {| submits := [Resolve op_running; Resolve op_running];
     polls := [Resolve (op_done [generated "https://v/1?alt=media"]);
               Resolve (op_done [generated "https://v/2?alt=media"])];
     fetches := [Resolve (ok_response "bytes-1");
                 Resolve (ok_response "bytes-2")];
     trace := [];
     objectUrls := 0 |}.

Definition story_params : GenerateVideoParams :=
  {| prompt := "";
     model := "veo-3.1-fast-generate-preview";
     aspectRatio := "16:9";
     resolution := "720p";
     mode := STORY_MODE;
     startFrame := None;
     endFrame := None;
     referenceImages := None;
     styleImage := None;
     inputVideoObject := None;
     isLooping := None;
     storyPrompts := Some ["open"; "continue"] |}.

(** A story of three parts. *)
Definition saga_params : GenerateVideoParams :=
  {| prompt := "";
     model := "veo-3.1-fast-generate-preview";
     aspectRatio := "16:9";
     resolution := "720p";
     mode := STORY_MODE;
     startFrame := None;
     endFrame := None;
     referenceImages := None;
     styleImage := None;
     inputVideoObject := None;
     isLooping := None;
     storyPrompts := Some ["open"; "continue"; "close"] |}.

(** The job numbered [n], which is polled [length running] times before
    the poll that finds it done. *)
Definition sample_job (running : list Operation) (n : string) : Job :=
  {| job_started := op_running;
     job_running := running;
     job_final := op_done [generated ("https://v/" ++ n ++ "?alt=media")];
     job_video := sample_video ("https://v/" ++ n ++ "?alt=media");
     job_url := "https://v/" ++ n ++ "?alt=media";
     job_fetched := ok_response ("bytes-" ++ n);
     job_bytes := "bytes-" ++ n |}.

Definition sample_jobs : list Job :=
  [sample_job [op_not_done] "1"; sample_job [] "2";
   sample_job [op_not_done; op_not_done] "3"].

(** Three jobs, done at their second, first and third poll. *)
Definition world_three_jobs : World :=
  {| submits := [Resolve op_running; Resolve op_running; Resolve op_running];
     polls := [Resolve op_not_done;
               Resolve (op_done [generated "https://v/1?alt=media"]);
               Resolve (op_done [generated "https://v/2?alt=media"]);
               Resolve op_not_done; Resolve op_not_done;
               Resolve (op_done [generated "https://v/3?alt=media"])];
     fetches := [Resolve (ok_response "bytes-1");
                 Resolve (ok_response "bytes-2");
                 Resolve (ok_response "bytes-3")];
     trace := [];
     objectUrls := 0 |}.

(** A host whose [trim] strips the ASCII white space at both ends; the
    sample prompts hold no other white space. *)
Definition is_space (c : ascii) : bool :=
  match nat_of_ascii c with
  | 9 | 10 | 11 | 12 | 13 | 32 => true
  | _ => false
  end.

Fixpoint drop_spaces (l : list ascii) : list ascii :=
  match l with
  | [] => []
  | c :: rest => if is_space c then drop_spaces rest else l
  end.

Definition sample_trim (s : string) : string :=
  string_of_list_ascii
    (rev (drop_spaces (rev (drop_spaces (list_ascii_of_string s))))).

(** A host whose [decodeURIComponent] throws on every escape. *)
Definition strict_decode (u : string) : option string :=
  if has_char "%"%char u then None else Some u.

(** A form that is filled in for every mode. *)
Definition sample_form (m : GenerationMode) : FormState :=
  {| form_prompt := "A chase";
     form_storyPrompts := ["open"; "continue"];
     form_model := "veo-3.1-generate-preview";
     form_aspectRatio := "16:9";
     form_resolution := "720p";
     generationMode := m;
     form_startFrame := Some img1;
     form_endFrame := Some img2;
     form_referenceImages := [img1; img2];
     form_styleImage := Some img3;
     inputVideo := None;
     form_inputVideoObject := Some (sample_video "https://v/0?alt=media");
     form_isLooping := false;
     isSettingsOpen := false;
     isModeSelectorOpen := true |}.

(** The same form, with an input video file chosen. *)
Definition form_with_video (m : GenerationMode) : FormState :=
  {| form_prompt := "A chase";
     form_storyPrompts := ["open"; "continue"];
     form_model := "veo-3.1-generate-preview";
     form_aspectRatio := "16:9";
     form_resolution := "720p";
     generationMode := m;
     form_startFrame := Some img1;
     form_endFrame := Some img2;
     form_referenceImages := [img1; img2];
     form_styleImage := Some img3;
     inputVideo :=
       Some {| video_file := {| file_name := "clip.mp4";
                                file_type := "video/mp4" |};
               video_base64 := "Y2xpcA==" |};
     form_inputVideoObject := Some (sample_video "https://v/0?alt=media");
     form_isLooping := true;
     isSettingsOpen := false;
     isModeSelectorOpen := true |}.

Definition op_done_without_response : Operation :=
  {| operation_name := "operations/1"; done := Some true; response := None |}.

Definition not_found_response : FetchResponse :=
  {| ok := false; status := 404; statusText := "Not Found";
     body := Resolve "" |}.

(** One job that is still running at every poll. *)
Definition world_never_done : World :=
  {| submits := [Resolve op_running];
     polls := [Resolve op_not_done; Resolve op_not_done];
     fetches := [Resolve (ok_response "bytes-1")];
     trace := [];
     objectUrls := 0 |}.

(** A submission that the remote service rejects. *)
Definition world_rejected_submit : World :=
  {| submits := [Reject "quota exceeded"];
     polls := [Resolve (op_done [generated "https://v/1?alt=media"])];
     fetches := [Resolve (ok_response "bytes-1")];
     trace := [];
     objectUrls := 0 |}.

(** A job whose second poll is rejected. *)
Definition world_rejected_poll : World :=
  {| submits := [Resolve op_running];
     polls := [Resolve op_not_done; Reject "unavailable"];
     fetches := [Resolve (ok_response "bytes-1")];
     trace := [];
     objectUrls := 0 |}.

(** A job that is done at once, and whose video cannot be fetched. *)
Definition world_not_found : World :=
  {| submits := [Resolve (op_done [generated "https://v/1?alt=media"])];
     polls := [];
     fetches := [Resolve not_found_response];
     trace := [];
     objectUrls := 0 |}.

(** A job that ends without response. *)
Definition world_no_response : World :=
  {| submits := [Resolve op_running];
     polls := [Resolve op_done_without_response];
     fetches := [Resolve (ok_response "bytes-1")];
     trace := [];
     objectUrls := 0 |}.

(** A job whose video has a location with a malformed escape. *)
Definition world_malformed : World :=
  {| submits := [Resolve op_running];
     polls := [Resolve (op_done [generated "https://v/%zz"])];
     fetches := [Resolve (ok_response "bytes-1")];
     trace := [];
     objectUrls := 0 |}.

(** Two jobs, the second of which is rejected at submission. *)
Definition world_second_rejected : World :=
  {| submits := [Resolve op_running; Reject "quota exceeded"];
     polls := [Resolve (op_done [generated "https://v/1?alt=media"])];
     fetches := [Resolve (ok_response "bytes-1")];
     trace := [];
     objectUrls := 0 |}.


(** * The service, in a host *)

Section Host.

(** The host's [decodeURIComponent] ([None] where it throws its
    [URIError], on a malformed escape) and [process.env.API_KEY], as it
    prints in a template. *)
Variable decodeURIComponent : string -> option string.
Variable API_KEY : string.

Definition decode (u : string) : Async string :=
  match decodeURIComponent u with
  | Some url => ret url
  | None => throw URIError
  end.

(** Lines 143-169: from the operation the loop ended with to the result. *)
Definition retrieve (operation : Operation) : Async GenerationResult :=
  match response operation with
  | Some resp =>
      match generatedVideos resp with
      | None | Some [] => throw NoAssetsProduced
      | Some (firstVideo :: _) =>
          match video_with_uri firstVideo with
          | None => throw MissingAssetLocator
          | Some (videoObject, u) =>
              url <- decode u ;;
              res <- fetch (url ++ "&key=" ++ API_KEY) ;;
              if negb (ok res)
              then throw (Error ("Failed to fetch video: "
                                 ++ string_of_nat (status res) ++ " "
                                 ++ statusText res))
              else
                videoBlob <- blob_of res ;;
                objectUrl <- createObjectURL videoBlob ;;
                ret {| objectUrl := objectUrl; blob := videoBlob;
                       uri := url; video := videoObject |}
          end
      end
  | None => throw GenerationFailed
  end.

(** [performGeneration] (lines 22-170); [ai] is the world. *)
Definition performGeneration (params : GenerateVideoParams)
    (overridePrompt : option string) (overrideVideoInput : option Video)
  : Async GenerationResult :=
  generateVideoPayload <-
    of_completion (buildPayload params overridePrompt overrideVideoInput) ;;
  operation <- generateVideos generateVideoPayload ;;
  operation <- pollUntilDone operation ;;
  retrieve operation.

(** Lines 189-209: the body of the loop at index [i], which yields the new
    value of [currentResult]. *)
Definition storyStep (params : GenerateVideoParams) (i : nat)
    (currentPrompt : string) (currentResult : option GenerationResult)
  : Async GenerationResult :=
  if Nat.eqb i 0 then
    performGeneration (first_step_params params currentPrompt) None None
  else
    match currentResult with
    | None => throw ChainBroken
    | Some previous =>
        performGeneration params (Some currentPrompt) (Some (video previous))
    end.

(** Lines 185-211: the loop from index [i] over the prompts
    [storyPrompts[i..]], which yields the last value of [currentResult]. *)
Fixpoint storyLoop (params : GenerateVideoParams) (i : nat)
    (remaining : list string) (currentResult : option GenerationResult)
  : Async (option GenerationResult) :=
  match remaining with
  | [] => ret currentResult
  | currentPrompt :: rest =>
      result <- storyStep params i currentPrompt currentResult ;;
      storyLoop params (S i) rest (Some result)
  end.

(** [generateVideo] (lines 172-224). *)
Definition generateVideo (params : GenerateVideoParams)
  : Async GenerationResult :=
  match mode params, storyPrompts params with
  | STORY_MODE, Some (first :: others) =>
      currentResult <- storyLoop params 0 (first :: others) None ;;
      match currentResult with
      | None => throw StoryModeFailed
      | Some result => ret result
      end
  | _, _ => performGeneration params None None
  end.

(** A run of successive steps of the loop that are all fulfilled: from
    index [i] with [currentResult] in world [w], the prompts have been
    consumed in order, each step yielding the result that the next step
    reads, up to world [w']. *)
Inductive StorySteps (params : GenerateVideoParams)
  : nat -> option GenerationResult -> list string -> World
    -> list GenerationResult -> World -> Prop :=
| steps_none (i : nat) (currentResult : option GenerationResult) (w : World) :
    StorySteps params i currentResult [] w [] w
| steps_next (i : nat) (currentResult : option GenerationResult)
    (currentPrompt : string) (rest : list string) (w w1 w2 : World)
    (result : GenerationResult) (results : list GenerationResult) :
    storyStep params i currentPrompt currentResult w = (Fulfilled result, w1) ->
    StorySteps params (S i) (Some result) rest w1 results w2 ->
    StorySteps params i currentResult (currentPrompt :: rest) w
               (result :: results) w2.

(** The replies of a job are accepting when the operation returned by the
    submission and those returned by the polls of the running job do not
    have [done: true], the last operation has it, with a response whose first
    generated video has a non-empty [uri] that decodes to the job's
    location, and the fetch answers [ok] with the bytes. *)
Definition accepting (j : Job) : Prop :=
  done (job_started j) <> Some true
  /\ Forall (fun o => done o <> Some true) (job_running j)
  /\ done (job_final j) = Some true
  /\ (exists resp others u,
         response (job_final j) = Some resp
         /\ generatedVideos resp
            = Some ({| gv_video := Some (job_video j) |} :: others)
         /\ video_uri (job_video j) = Some u /\ u <> ""
         /\ decodeURIComponent u = Some (job_url j))
  /\ ok (job_fetched j) = true
  /\ body (job_fetched j) = Resolve (job_bytes j).

(** The calls of one cycle on an accepting job, in order: the submission,
    a sleep and a poll for each operation that is not done, the fetch. *)
Definition job_calls (payload : Payload) (j : Job) : list Event :=
  (EvSubmit payload :: rounds (job_started j :: job_running j)
     ++ [EvFetch (job_url j ++ "&key=" ++ API_KEY)])%list.

(** The calls of successive cycles, one for each payload and its job. *)
Definition story_calls (payloads : list Payload) (jobs : list Job)
  : list Event :=
  flat_map (fun pj => job_calls (fst pj) (snd pj)) (combine payloads jobs).


(** The host's [String.prototype.trim]. *)
Variable trim : string -> string.

(** [!s.trim()] *)
Definition blank (s : string) : bool := negb (truthy (trim s)).

(** Lines 581-623: [isSubmitDisabled]. *)
Definition isSubmitDisabled (s : FormState) : bool :=
  match generationMode s with
  | TEXT_TO_VIDEO => blank (form_prompt s)
  | STORY_MODE => existsb blank (form_storyPrompts s)
  | FRAMES_TO_VIDEO => negb (is_some (form_startFrame s))
  | REFERENCES_TO_VIDEO =>
      blank (form_prompt s) || Nat.eqb (length (form_referenceImages s)) 0
  | EXTEND_VIDEO => negb (is_some (form_inputVideoObject s))
  end.

(** Lines 581-623: [tooltipText]. *)
Definition tooltipText (s : FormState) : string :=
  match generationMode s with
  | TEXT_TO_VIDEO =>
      if blank (form_prompt s) then "Please enter a prompt." else ""
  | STORY_MODE =>
      if existsb blank (form_storyPrompts s)
      then "Please describe every scene in the story." else ""
  | FRAMES_TO_VIDEO =>
      if negb (is_some (form_startFrame s))
      then "A start frame is required." else ""
  | REFERENCES_TO_VIDEO =>
      let hasNoPrompt := blank (form_prompt s) in
      let hasNoAssets := Nat.eqb (length (form_referenceImages s)) 0 in
      if hasNoPrompt && hasNoAssets
      then "Please enter a prompt and add at least one asset."
      else if hasNoPrompt then "Please enter a prompt."
      else if hasNoAssets then "At least one reference asset is required."
      else ""
  | EXTEND_VIDEO =>
      if negb (is_some (form_inputVideoObject s))
      then "An input video from a previous generation is required to extend."
      else ""
  end.


(** * Lemmas on the payload *)

Lemma mode_eqb_eq (a b : GenerationMode) : mode_eqb a b = true <-> a = b.
Proof. destruct a, b; simpl; split; congruence. Qed.

Lemma mode_eqb_neq (a b : GenerationMode) : mode_eqb a b = false <-> a <> b.
Proof. destruct a, b; simpl; split; congruence. Qed.

Lemma truthy_eqb (s : string) : truthy s = negb (s =? "").
Proof. reflexivity. Qed.

Lemma prompt_field_truthy (s : string) :
  (if truthy s then Some s else None) = prompt_field s.
Proof. unfold prompt_field, truthy. destruct (s =? ""); reflexivity. Qed.

(** The code numbers the references while mapping and then filters; the spec
    filters the numbered references and then formats. *)
Lemma filter_Boolean_texts (imgs : list ImageFile) (idx : nat) :
  filter_Boolean (mapi_from refDescription idx imgs)
  = map (fun entry => "(Reference " ++ string_of_nat (fst entry) ++ ": "
                      ++ snd entry ++ ")")
        (filter (fun entry => negb (snd entry =? ""))
                (combine (seq (idx + 1) (length imgs)) (map label_of imgs))).
Proof.
  revert idx. induction imgs as [|img rest IH]; intro idx; [reflexivity|].
  cbn [mapi_from filter_Boolean length seq map combine filter].
  rewrite (IH (S idx)). replace (S idx + 1) with (S (idx + 1)) by lia.
  assert (Hl : label_of img = match description img with Some d => d | None => "" end)
    by reflexivity.
  unfold refDescription. cbn [snd fst].
  destruct (description img) as [d|]; rewrite Hl; [|reflexivity].
  unfold truthy at 1. destruct (d =? "") eqn:E; cbn [negb]; reflexivity.
Qed.

Lemma refDescriptions_spec (imgs : list ImageFile) :
  refDescriptions imgs = String.concat " " (spec_label_texts imgs).
Proof.
  unfold refDescriptions, join, spec_label_texts.
  rewrite (filter_Boolean_texts imgs 0). reflexivity.
Qed.

Lemma spec_label_texts_nonempty (imgs : list ImageFile) :
  Forall (fun t => t <> "") (spec_label_texts imgs).
Proof.
  unfold spec_label_texts. apply Forall_forall. intros t Ht.
  apply in_map_iff in Ht. destruct Ht as [entry [<- _]]. discriminate.
Qed.

Lemma concat_nonempty (sep : string) (ts : list string) :
  Forall (fun t => t <> "") ts -> ts <> [] -> String.concat sep ts <> "".
Proof.
  intros Hall Hne. destruct ts as [|t rest]; [congruence|].
  inversion Hall as [|? ? Ht _]; subst.
  destruct t as [|c t']; [congruence|].
  destruct rest; simpl; discriminate.
Qed.

Lemma string_eqb_empty (s : string) : (s =? "") = true <-> s = "".
Proof. apply String.eqb_eq. Qed.

(** The prompt of a build that is not an extension. *)
Lemma activePrompt_spec (params : GenerateVideoParams)
    (overridePrompt : option string) :
  mode params <> EXTEND_VIDEO ->
  activePrompt params overridePrompt None
  = spec_effective_prompt (basePrompt params overridePrompt) (references_of params).
Proof.
  intro Hmode. apply mode_eqb_neq in Hmode.
  unfold activePrompt, isExtensionOperation, referenceImages_length,
    references_of, spec_effective_prompt.
  rewrite Hmode. cbn [orb is_some negb andb].
  set (base := basePrompt params overridePrompt).
  destruct (referenceImages params) as [imgs|].
  - destruct imgs as [|img rest].
    + cbn. destruct (base =? "") eqn:E; [apply string_eqb_empty in E; auto|reflexivity].
    + cbn [length Nat.eqb negb]. rewrite refDescriptions_spec.
      set (texts := spec_label_texts (img :: rest)).
      pose proof (spec_label_texts_nonempty (img :: rest)) as Hall.
      fold texts in Hall.
      destruct texts as [|t ts] eqn:Et.
      * cbn. destruct (base =? "") eqn:E; [apply string_eqb_empty in E; auto|reflexivity].
      * assert (Hne : String.concat " " (t :: ts) <> "")
          by (apply concat_nonempty; [assumption|discriminate]).
        unfold truthy.
        destruct (String.concat " " (t :: ts) =? "") eqn:E1;
          [apply string_eqb_empty in E1; contradiction|].
        cbn [negb]. destruct (base =? "") eqn:E; reflexivity.
  - cbn. destruct (base =? "") eqn:E; [apply string_eqb_empty in E; auto|reflexivity].
Qed.

Ltac build_cases params :=
  unfold buildPayload, isExtensionOperation;
  destruct (mode params) eqn:?; cbn [mode_eqb orb andb negb is_some];
  try match goal with
      | |- context [Nat.eqb (referenceImages_length params) 0] =>
          destruct (Nat.eqb (referenceImages_length params) 0) eqn:?
      end;
  cbn [mode_eqb orb andb negb is_some].

(** The builder fails in one case only. *)
Lemma buildPayload_returns (params : GenerateVideoParams)
    (overridePrompt : option string) (overrideVideoInput : option Video) :
  (mode params = EXTEND_VIDEO /\ overrideVideoInput = None
   /\ inputVideoObject params = None
   /\ buildPayload params overridePrompt overrideVideoInput
      = Throw MissingExtensionSource)
  \/ exists payload,
      buildPayload params overridePrompt overrideVideoInput = Return payload.
Proof.
  destruct overrideVideoInput as [v|].
  - right. unfold buildPayload. eauto.
  - build_cases params; try (right; eauto; fail).
    destruct (inputVideoObject params); [right; eauto|left; repeat split].
Qed.

Lemma buildPayload_prompt (params : GenerateVideoParams)
    (overridePrompt : option string) (overrideVideoInput : option Video)
    (payload : Payload) :
  buildPayload params overridePrompt overrideVideoInput = Return payload ->
  payload_prompt payload
  = prompt_field (activePrompt params overridePrompt overrideVideoInput).
Proof.
  rewrite <- prompt_field_truthy.
  destruct overrideVideoInput as [v|].
  - unfold buildPayload. intro H. inversion H. reflexivity.
  - build_cases params; try (intro H; inversion H; reflexivity).
    destruct (inputVideoObject params); intro H; inversion H; reflexivity.
Qed.

Lemma buildPayload_override_video (params : GenerateVideoParams)
    (overridePrompt : option string) (v : Video) :
  exists payload,
    buildPayload params overridePrompt (Some v) = Return payload
    /\ payload_video payload = Some v
    /\ payload_image payload = None
    /\ config_aspectRatio (payload_config payload) = None
    /\ lastFrame (payload_config payload) = None
    /\ config_referenceImages (payload_config payload) = None.
Proof.
  unfold buildPayload, isExtensionOperation. cbn [is_some].
  rewrite orb_true_r. eexists. split; [reflexivity|]. cbn. auto.
Qed.

Lemma basePrompt_extension (params : GenerateVideoParams)
    (overridePrompt : option string) (overrideVideoInput : option Video) :
  isExtensionOperation params overrideVideoInput = true ->
  activePrompt params overridePrompt overrideVideoInput
  = basePrompt params overridePrompt.
Proof. intro H. unfold activePrompt. rewrite H. reflexivity. Qed.

(** * The claims on the payload *)

(** C2.  The built submission carries [aspectRatio] if and only if the mode
    is not [EXTEND_VIDEO] and no prior video is supplied; in that case the
    build succeeds, [aspectRatio] is the request's, and the submission has no
    prior-video field. *)
Theorem C2_aspect_ratio_iff_not_extension :
  forall (params : GenerateVideoParams) (overridePrompt : option string)
         (overrideVideoInput : option Video),
    (forall payload,
        buildPayload params overridePrompt overrideVideoInput = Return payload ->
        (config_aspectRatio (payload_config payload) <> None
         <-> (mode params <> EXTEND_VIDEO /\ overrideVideoInput = None)))
    /\ (mode params <> EXTEND_VIDEO -> overrideVideoInput = None ->
        exists payload,
          buildPayload params overridePrompt overrideVideoInput = Return payload
          /\ config_aspectRatio (payload_config payload)
             = Some (aspectRatio params)
          /\ payload_video payload = None).
Proof.
  intros params overridePrompt overrideVideoInput. split.
  - intros payload Hb. destruct overrideVideoInput as [v|].
    + destruct (buildPayload_override_video params overridePrompt v)
        as [p' [Hp' [_ [_ [Har _]]]]].
      rewrite Hp' in Hb. inversion Hb; subst p'. rewrite Har.
      split; [congruence|intros [_ H]; discriminate].
    + revert Hb. build_cases params;
        try (intro H; inversion H; cbn; split;
             [intros _; split; [discriminate|reflexivity] | discriminate]).
      destruct (inputVideoObject params); intro H; inversion H; cbn.
      split; [congruence|intros [Hm _]; congruence].
  - intros Hmode ->.
    build_cases params; try congruence;
      eexists; (split; [reflexivity|]); cbn; auto.
Qed.

Lemma C2_aspect_ratio_witness :
  exists payload,
    buildPayload (sample_params TEXT_TO_VIDEO) None None = Return payload
    /\ config_aspectRatio (payload_config payload) = Some "16:9"
    /\ payload_video payload = None.
Proof.
  apply (proj2 (C2_aspect_ratio_iff_not_extension
                  (sample_params TEXT_TO_VIDEO) None None)).
  - discriminate.
  - reflexivity.
Defined.

(** C3.  In a build that is not an extension, the prompt is the base prompt
    followed by the texts [(Reference <1-based-index>: <label>)] of the
    references with a non-empty label, in input order, joined by single
    spaces; the texts alone when the base prompt is empty.  With references
    labelled "Hero" and "" and the prompt "A chase", the prompt submitted is
    "A chase (Reference 1: Hero)". *)
Theorem C3_reference_labels_in_prompt :
  forall (params : GenerateVideoParams) (overridePrompt : option string),
    mode params <> EXTEND_VIDEO ->
    let base := basePrompt params overridePrompt in
    let texts := spec_label_texts (references_of params) in
    activePrompt params overridePrompt None
    = String.concat " " (if base =? "" then texts else base :: texts)
    /\ (base = "" ->
        activePrompt params overridePrompt None = String.concat " " texts)
    /\ (exists payload,
           buildPayload params overridePrompt None = Return payload
           /\ payload_prompt payload
              = prompt_field (activePrompt params overridePrompt None))
    /\ (forall a b,
           prompt params = "A chase" -> overridePrompt = None ->
           referenceImages params = Some [a; b] ->
           description a = Some "Hero" -> description b = Some "" ->
           activePrompt params overridePrompt None
           = "A chase (Reference 1: Hero)").
Proof.
  intros params overridePrompt Hmode base texts.
  pose proof (activePrompt_spec params overridePrompt Hmode) as Hspec.
  unfold spec_effective_prompt in Hspec. fold base texts in Hspec.
  repeat split.
  - exact Hspec.
  - intro Hb. rewrite Hspec, Hb. reflexivity.
  - destruct (buildPayload_returns params overridePrompt None)
      as [[Hm _]|[payload Hp]]; [contradiction|].
    exists payload. split; [exact Hp|]. apply buildPayload_prompt, Hp.
  - intros a b Hprompt -> Hrefs Ha Hb.
    rewrite Hspec. subst base texts. unfold basePrompt, references_of.
    rewrite Hprompt, Hrefs. unfold spec_label_texts, label_of.
    cbn [map length seq combine]. rewrite Ha, Hb. reflexivity.
Qed.

Lemma C3_reference_labels_witness :
  activePrompt (sample_params REFERENCES_TO_VIDEO) None None
  = "A chase (Reference 1: Hero)"
  /\ exists payload,
      buildPayload (sample_params REFERENCES_TO_VIDEO) None None = Return payload
      /\ payload_prompt payload
         = prompt_field (activePrompt (sample_params REFERENCES_TO_VIDEO) None None).
Proof.
  assert (Hmode : mode (sample_params REFERENCES_TO_VIDEO) <> EXTEND_VIDEO)
    by discriminate.
  destruct (C3_reference_labels_in_prompt
              (sample_params REFERENCES_TO_VIDEO) None Hmode)
    as [_ [_ [Hpayload Hexample]]].
  split.
  - apply (Hexample img1 img2); reflexivity.
  - exact Hpayload.
Defined.

(** C7.  A frames request without a prior video: the first-frame input is
    the start frame when there is one, as its encoded bytes and the MIME type
    of its file; the last-frame input is the effective end frame (the start
    frame when looping, else the end frame) when there is one, as its bytes
    and MIME type, and is absent otherwise. *)
Theorem C7_frames_first_and_last_frame :
  forall (params : GenerateVideoParams) (overridePrompt : option string),
    mode params = FRAMES_TO_VIDEO ->
    exists payload,
      buildPayload params overridePrompt None = Return payload
      /\ payload_image payload
         = match startFrame params with
           | Some f => Some {| imageBytes := base64 f;
                               mimeType := file_type (file f) |}
           | None => None
           end
      /\ lastFrame (payload_config payload)
         = match spec_effective_end_frame params with
           | Some f => Some {| imageBytes := base64 f;
                               mimeType := file_type (file f) |}
           | None => None
           end
      /\ (lastFrame (payload_config payload) <> None
          <-> spec_effective_end_frame params <> None).
Proof.
  intros params overridePrompt Hmode.
  unfold buildPayload. rewrite Hmode. cbn [mode_eqb].
  eexists. split; [reflexivity|].
  cbn [payload_image payload_config lastFrame].
  assert (He : (if truthy_flag (isLooping params) then startFrame params
                else endFrame params) = spec_effective_end_frame params).
  { unfold spec_effective_end_frame, truthy_flag.
    destruct (isLooping params) as [[|]|]; reflexivity. }
  rewrite He. split; [|split].
  - destruct (startFrame params); reflexivity.
  - destruct (spec_effective_end_frame params); reflexivity.
  - destruct (spec_effective_end_frame params); cbn; split; congruence.
Qed.

Lemma C7_frames_witness :
  exists payload,
    buildPayload looping_params None None = Return payload
    /\ payload_image payload
       = Some {| imageBytes := "aGVybw=="; mimeType := "image/png" |}
    /\ lastFrame (payload_config payload)
       = Some {| imageBytes := "aGVybw=="; mimeType := "image/png" |}
    /\ (lastFrame (payload_config payload) <> None
        <-> Some img1 <> None).
Proof.
  apply (C7_frames_first_and_last_frame looping_params None).
  reflexivity.
Defined.
(** C8, as stated, fails: an empty override is given, yet the prompt used
    is the request's own. *)
Lemma C8_empty_override_counterexample :
  basePrompt (sample_params TEXT_TO_VIDEO) (Some "") = "A chase"
  /\ basePrompt (sample_params TEXT_TO_VIDEO) (Some "") <> ""
  /\ exists payload,
      buildPayload (sample_params TEXT_TO_VIDEO) (Some "")
                   (Some (sample_video "https://v/1")) = Return payload
      /\ payload_prompt payload = Some "A chase".
Proof.
  split; [reflexivity|]. split; [discriminate|].
  eexists. split; reflexivity.
Qed.

(** C8, amended.  The prompt that the build starts from (line 53) is the
    override when a non-empty override is given, and the request's own
    prompt when no override or an empty one is given.  The prompt of the
    submission is that prompt in an extension, and that prompt followed by
    the reference labels in any other build; the field is left out when the
    text is empty. *)
Theorem C8_override_prompt_unless_empty :
  forall (params : GenerateVideoParams) (overridePrompt : option string)
         (overrideVideoInput : option Video) (payload : Payload),
    buildPayload params overridePrompt overrideVideoInput = Return payload ->
    let base := match overridePrompt with
                | Some s => if s =? "" then prompt params else s
                | None => prompt params
                end in
    basePrompt params overridePrompt = base
    /\ (forall s, overridePrompt = Some s -> s <> "" -> base = s)
    /\ (overridePrompt = None \/ overridePrompt = Some "" ->
        base = prompt params)
    /\ (mode params = EXTEND_VIDEO \/ overrideVideoInput <> None ->
        payload_prompt payload = prompt_field base)
    /\ (mode params <> EXTEND_VIDEO -> overrideVideoInput = None ->
        payload_prompt payload
        = prompt_field (spec_effective_prompt base (references_of params))).
Proof.
  intros params overridePrompt overrideVideoInput payload Hb base.
  assert (Hbase : basePrompt params overridePrompt = base).
  { unfold basePrompt, or_else, truthy. subst base.
    destruct overridePrompt as [s|]; [|reflexivity].
    destruct (s =? ""); reflexivity. }
  split; [exact Hbase|]. split; [|split; [|split]].
  - intros s -> Hs. subst base. cbn.
    destruct (s =? "") eqn:E; [apply string_eqb_empty in E; contradiction|].
    reflexivity.
  - intros [-> | ->]; reflexivity.
  - intro Hext. rewrite (buildPayload_prompt _ _ _ _ Hb).
    rewrite basePrompt_extension; [rewrite Hbase; reflexivity|].
    unfold isExtensionOperation. destruct Hext as [Hm|Hv].
    + rewrite Hm. reflexivity.
    + destruct overrideVideoInput; [apply orb_true_r|congruence].
  - intros Hm ->. rewrite (buildPayload_prompt _ _ _ _ Hb).
    rewrite (activePrompt_spec params overridePrompt Hm), Hbase. reflexivity.
Qed.

Lemma C8_override_prompt_witness :
  (exists payload,
      buildPayload (sample_params TEXT_TO_VIDEO) (Some "continue")
                   (Some (sample_video "https://v/1")) = Return payload
      /\ payload_prompt payload = Some "continue")
  /\ (exists payload,
         buildPayload (sample_params TEXT_TO_VIDEO) (Some "continue") None
         = Return payload
         /\ payload_prompt payload = Some "continue (Reference 1: Hero)")
  /\ (exists payload,
         buildPayload (sample_params TEXT_TO_VIDEO) (Some "") None
         = Return payload
         /\ payload_prompt payload = Some "A chase (Reference 1: Hero)").
Proof.
  split; [|split].
  - eexists. split; [reflexivity|].
    apply (C8_override_prompt_unless_empty
             (sample_params TEXT_TO_VIDEO) (Some "continue")
             (Some (sample_video "https://v/1")) _ eq_refl).
    right. discriminate.
  - eexists. split; [reflexivity|].
    apply (C8_override_prompt_unless_empty
             (sample_params TEXT_TO_VIDEO) (Some "continue") None _ eq_refl);
      [discriminate|reflexivity].
  - eexists. split; [reflexivity|].
    apply (C8_override_prompt_unless_empty
             (sample_params TEXT_TO_VIDEO) (Some "") None _ eq_refl);
      [discriminate|reflexivity].
Defined.

Lemma references_of_length (params : GenerateVideoParams) :
  referenceImages_length params = length (references_of params).
Proof.
  unfold referenceImages_length, references_of.
  destruct (referenceImages params); reflexivity.
Qed.

(** C10.  A build that is not an extension, in a mode other than
    [REFERENCES_TO_VIDEO] and other than [STORY_MODE] with reference images:
    whatever [referenceImages] and [styleImage] the request holds, the
    submission has no reference-image list (hence no style image), and its
    prompt still carries the labels of the reference images. *)
Theorem C10_labels_without_reference_images :
  forall (params : GenerateVideoParams) (overridePrompt : option string),
    mode params <> EXTEND_VIDEO ->
    mode params <> REFERENCES_TO_VIDEO ->
    ~ (mode params = STORY_MODE /\ references_of params <> []) ->
    exists payload,
      buildPayload params overridePrompt None = Return payload
      /\ config_referenceImages (payload_config payload) = None
      /\ payload_video payload = None
      /\ payload_prompt payload
         = prompt_field
             (spec_effective_prompt (basePrompt params overridePrompt)
                                    (references_of params)).
Proof.
  intros params overridePrompt Hext Hrefs Hstory.
  rewrite <- (activePrompt_spec params overridePrompt Hext).
  rewrite <- prompt_field_truthy.
  revert Hstory. build_cases params; try congruence; intro Hstory;
    try (eexists; split; [reflexivity|]; cbn; auto; fail).
  exfalso. apply Hstory. split; [reflexivity|].
  rewrite references_of_length in *.
  destruct (references_of params); [discriminate|discriminate].
Qed.

Lemma C10_labels_witness :
  exists payload,
    buildPayload (sample_params TEXT_TO_VIDEO) None None = Return payload
    /\ config_referenceImages (payload_config payload) = None
    /\ payload_video payload = None
    /\ payload_prompt payload = Some "A chase (Reference 1: Hero)".
Proof.
  apply (C10_labels_without_reference_images (sample_params TEXT_TO_VIDEO) None).
  - discriminate.
  - discriminate.
  - intros [H _]. discriminate.
Defined.

(** * Lemmas on the calls *)

Lemma submitted_app (a b : list Event) :
  submitted (a ++ b) = (submitted a ++ submitted b)%list.
Proof. apply flat_map_app. Qed.

Lemma polled_app (a b : list Event) :
  polled (a ++ b) = (polled a ++ polled b)%list.
Proof. apply flat_map_app. Qed.

Lemma fetched_app (a b : list Event) :
  fetched (a ++ b) = (fetched a ++ fetched b)%list.
Proof. apply flat_map_app. Qed.

Lemma rounds_no_submit_no_fetch (ops : list Operation) :
  submitted (rounds ops) = [] /\ fetched (rounds ops) = []
  /\ polled (rounds ops) = ops.
Proof.
  induction ops as [|o rest [IH1 [IH2 IH3]]]; [cbn; auto|].
  change (rounds (o :: rest))
    with ([EvSleep 10000%N; EvPoll o] ++ rounds rest)%list.
  rewrite submitted_app, fetched_app, polled_app, IH1, IH2, IH3.
  repeat split.
Qed.

(** The loop only sleeps and polls, one sleep of ten seconds before each
    poll, and ends fulfilled only on an operation that is done. *)
Lemma whileNotDone_rounds (script : list (Reply Operation)) (operation : Operation) :
  forall p unread evs,
    whileNotDone script operation = (p, unread, evs) ->
    (exists ops, evs = rounds ops)
    /\ (forall final, p = Fulfilled final -> is_done final = true).
Proof.
  revert operation.
  induction script as [|r rest IH]; intros operation p unread evs; cbn.
  - destruct (is_done operation) eqn:Hd; intro H; inversion H; subst.
    + split; [exists []; reflexivity|]. intros f Hf. inversion Hf. congruence.
    + split; [exists [operation]; reflexivity|]. discriminate.
  - destruct (is_done operation) eqn:Hd.
    + intro H; inversion H; subst.
      split; [exists []; reflexivity|]. intros f Hf. inversion Hf. congruence.
    + destruct r as [next|reason].
      * destruct (whileNotDone rest next) as [[p' unread'] evs'] eqn:E.
        intro H; inversion H; subst.
        destruct (IH next _ _ _ E) as [[ops ->] Hfin].
        split; [exists (operation :: ops); reflexivity|exact Hfin].
      * intro H; inversion H; subst.
        split; [exists [operation]; reflexivity|]. discriminate.
Qed.

(** The guard of the loop, on the [done] field. *)
Lemma is_done_true (o : Operation) : is_done o = true <-> done o = Some true.
Proof.
  unfold is_done, truthy_flag. destruct (done o) as [[|]|]; split; congruence.
Qed.

Lemma is_done_false (o : Operation) :
  is_done o = false <-> done o <> Some true.
Proof.
  unfold is_done, truthy_flag. destruct (done o) as [[|]|]; split; congruence.
Qed.

Lemma not_done_all (ops : list Operation) :
  Forall (fun o => done o <> Some true) ops ->
  Forall (fun o => is_done o = false) ops.
Proof.
  apply Forall_impl. intros o H. apply is_done_false, H.
Qed.

(** Replies that are not done keep the loop going, however many they are. *)
Lemma whileNotDone_running (running : list Operation) :
  forall (operation final : Operation) (rest : list (Reply Operation)),
    is_done operation = false ->
    Forall (fun o => is_done o = false) running ->
    is_done final = true ->
    whileNotDone (map Resolve (running ++ [final]) ++ rest) operation
    = (Fulfilled final, rest, rounds (operation :: running)).
Proof.
  induction running as [|next more IH]; intros operation final rest Hop Hrun Hfin.
  - cbn [map List.app whileNotDone]. rewrite Hop.
    destruct rest; cbn [whileNotDone]; rewrite Hfin; reflexivity.
  - inversion Hrun as [|? ? Hnext Hmore]; subst.
    cbn [map List.app whileNotDone]. rewrite Hop.
    rewrite (IH next final rest Hnext Hmore Hfin). reflexivity.
Qed.

Lemma emit_trace (evs : list Event) (w : World) :
  trace (emit evs w) = (trace w ++ evs)%list.
Proof. reflexivity. Qed.

Lemma generateVideos_trace (payload : Payload) (w w1 : World) (p : Promise Operation) :
  generateVideos payload w = (p, w1) ->
  trace w1 = (trace w ++ [EvSubmit payload])%list
  /\ polls w1 = polls w /\ fetches w1 = fetches w.
Proof.
  unfold generateVideos. cbn.
  destruct (submits w); intro H; inversion H; subst; cbn; auto.
Qed.

Lemma pollUntilDone_trace (operation : Operation) (w w1 : World)
    (p : Promise Operation) :
  pollUntilDone operation w = (p, w1) ->
  (exists ops, trace w1 = (trace w ++ rounds ops)%list)
  /\ fetches w1 = fetches w
  /\ (forall final, p = Fulfilled final -> is_done final = true).
Proof.
  unfold pollUntilDone.
  destruct (whileNotDone (polls w) operation) as [[p' unread] evs] eqn:E.
  intro H; inversion H; subst.
  destruct (whileNotDone_rounds _ _ _ _ _ E) as [[ops ->] Hfin].
  split; [exists ops; reflexivity|]. split; [reflexivity|exact Hfin].
Qed.

(** The loop of the source, one round at a time: nothing when the operation
    is done, else sleep ten seconds, poll, and go on with the reply. *)
Lemma pollUntilDone_unfold (operation : Operation) (w : World) :
  pollUntilDone operation w
  = (if is_done operation then ret operation
     else sleep 10000 ;;; (next <- getVideosOperation operation ;;
                           pollUntilDone next)) w.
Proof.
  unfold pollUntilDone at 1.
  destruct (polls w) as [|r rest] eqn:Hp; cbn [whileNotDone].
  - destruct (is_done operation).
    + unfold ret, emit, set_polls. cbn. rewrite app_nil_r, <- Hp.
      destruct w; reflexivity.
    + unfold bind, sleep, getVideosOperation, emit, set_polls. cbn.
      rewrite Hp, <- app_assoc. reflexivity.
  - destruct (is_done operation).
    + unfold ret, emit, set_polls. cbn. rewrite app_nil_r, <- Hp.
      destruct w; reflexivity.
    + unfold bind, sleep, getVideosOperation. cbn. rewrite Hp.
      destruct r as [next|reason]; cbn.
      * unfold pollUntilDone. cbn.
        destruct (whileNotDone rest next) as [[p unread] evs].
        unfold emit, set_polls. cbn. rewrite <- !app_assoc. reflexivity.
      * unfold emit, set_polls. cbn. rewrite <- app_assoc. reflexivity.
Qed.

Lemma video_with_uri_some (d : GeneratedVideo) (v : Video) (u : string) :
  video_with_uri d = Some (v, u)
  <-> gv_video d = Some v /\ video_uri v = Some u /\ u <> "".
Proof.
  unfold video_with_uri, truthy.
  destruct (gv_video d) as [v'|]; [|split; [discriminate|intros [H _]; discriminate]].
  destruct (video_uri v') as [u'|] eqn:Hu.
  - destruct (u' =? "") eqn:E; cbn [negb].
    + apply string_eqb_empty in E. subst u'.
      split; [discriminate|]. intros [H1 [H2 H3]].
      inversion H1; subst. rewrite Hu in H2. inversion H2. congruence.
    + split.
      * intro H; inversion H; subst. repeat split; auto.
        intros ->. discriminate.
      * intros [H1 [H2 H3]]. inversion H1; subst. congruence.
  - split; [discriminate|]. intros [H1 [H2 _]]. inversion H1; subst. congruence.
Qed.

Lemma video_with_uri_none (d : GeneratedVideo) :
  video_with_uri d = None <-> ~ has_location d.
Proof.
  split.
  - intros Hn [v [u H]]. apply video_with_uri_some in H. congruence.
  - intro Hn. destruct (video_with_uri d) as [[v u]|] eqn:E; [|reflexivity].
    exfalso. apply Hn. exists v, u. apply video_with_uri_some, E.
Qed.

(** From the submission on, [performGeneration] is the cycle followed by
    [retrieve]. *)
Lemma performGeneration_cycle (params : GenerateVideoParams)
    (overridePrompt : option string) (overrideVideoInput : option Video)
    (payload : Payload) (w : World) :
  buildPayload params overridePrompt overrideVideoInput = Return payload ->
  performGeneration params overridePrompt overrideVideoInput w
  = match (operation <- generateVideos payload ;; pollUntilDone operation) w with
    | (Fulfilled operation, w1) => retrieve operation w1
    | (Rejected e, w1) => (Rejected e, w1)
    | (PendingForever, w1) => (PendingForever, w1)
    end.
Proof.
  intro Hb. unfold performGeneration. rewrite Hb.
  unfold bind, of_completion, ret.
  destruct (generateVideos payload w) as [[op|e|] w0]; [|reflexivity|reflexivity].
  destruct (pollUntilDone op w0) as [[op'|e|] w1]; reflexivity.
Qed.

Lemma cycle_trace (payload : Payload) (w w1 : World) (p : Promise Operation) :
  (operation <- generateVideos payload ;; pollUntilDone operation) w = (p, w1) ->
  (exists ops, trace w1 = (trace w ++ EvSubmit payload :: rounds ops)%list)
  /\ fetches w1 = fetches w
  /\ (forall final, p = Fulfilled final -> is_done final = true).
Proof.
  unfold bind.
  destruct (generateVideos payload w) as [[op|e|] w0] eqn:Eg;
    destruct (generateVideos_trace _ _ _ _ Eg) as [Ht [_ Hf]].
  - intro Hp. destruct (pollUntilDone_trace _ _ _ _ Hp) as [[ops Hops] [Hf' Hd]].
    split; [|split; [congruence|exact Hd]].
    exists ops. rewrite Hops, Ht, <- app_assoc. reflexivity.
  - intro H; inversion H; subst.
    split; [exists []; exact Ht|]. split; [exact Hf|discriminate].
  - intro H; inversion H; subst.
    split; [exists []; exact Ht|]. split; [exact Hf|discriminate].
Qed.

(** How [retrieve] ends, by the response of the operation. *)
Lemma retrieve_no_response (operation : Operation) (w : World) :
  response operation = None ->
  retrieve operation w = (Rejected GenerationFailed, w).
Proof. intro H. unfold retrieve. rewrite H. reflexivity. Qed.

Lemma retrieve_no_videos (operation : Operation) (resp : GenerateVideosResponse)
    (w : World) :
  response operation = Some resp ->
  generatedVideos resp = None \/ generatedVideos resp = Some [] ->
  retrieve operation w = (Rejected NoAssetsProduced, w).
Proof.
  intros H [Hv|Hv]; unfold retrieve; rewrite H, Hv; reflexivity.
Qed.

Lemma retrieve_no_uri (operation : Operation) (resp : GenerateVideosResponse)
    (first : GeneratedVideo) (others : list GeneratedVideo) (w : World) :
  response operation = Some resp ->
  generatedVideos resp = Some (first :: others) ->
  video_with_uri first = None ->
  retrieve operation w = (Rejected MissingAssetLocator, w).
Proof.
  intros H Hv Hu. unfold retrieve. rewrite H, Hv, Hu. reflexivity.
Qed.

(** With a location, [retrieve] decodes it and fetches once; it ends
    fulfilled with the first video, or on an error other than the missing
    locator. *)
Lemma retrieve_with_uri (operation : Operation) (resp : GenerateVideosResponse)
    (first : GeneratedVideo) (others : list GeneratedVideo)
    (v : Video) (u : string) (w : World) :
  response operation = Some resp ->
  generatedVideos resp = Some (first :: others) ->
  video_with_uri first = Some (v, u) ->
  match decodeURIComponent u with
  | None => retrieve operation w = (Rejected URIError, w)
  | Some url =>
      exists p w1,
        retrieve operation w = (p, w1)
        /\ trace w1 = (trace w ++ [EvFetch (url ++ "&key=" ++ API_KEY)])%list
        /\ submits w1 = submits w /\ polls w1 = polls w
        /\ p <> Rejected MissingAssetLocator
        /\ (forall r, p = Fulfilled r -> video r = v /\ uri r = url)
  end.
Proof.
  intros H Hv Hu. unfold retrieve. rewrite H, Hv, Hu.
  unfold bind, decode.
  destruct (decodeURIComponent u) as [url|]; [|reflexivity].
  unfold ret at 1. unfold fetch. cbn [emit fetches].
  assert (Hend : forall (p : Promise GenerationResult) (w1 : World),
             trace w1 = (trace w ++ [EvFetch (url ++ "&key=" ++ API_KEY)])%list ->
             submits w1 = submits w -> polls w1 = polls w ->
             p <> Rejected MissingAssetLocator ->
             (forall r, p = Fulfilled r -> video r = v /\ uri r = url) ->
             exists p' w1',
               (p, w1) = (p', w1')
               /\ trace w1' = (trace w ++ [EvFetch (url ++ "&key=" ++ API_KEY)])%list
               /\ submits w1' = submits w /\ polls w1' = polls w
               /\ p' <> Rejected MissingAssetLocator
               /\ (forall r, p' = Fulfilled r -> video r = v /\ uri r = url)).
  { intros p w1 H1 H2 H3 H4 H5. exists p, w1. auto 10. }
  destruct (fetches w) as [|[res|reason] rest].
  - apply Hend; try reflexivity; discriminate.
  - cbn [settle]. destruct (ok res); cbn [negb].
    + unfold blob_of. destruct (body res) as [b|reason]; cbn [settle].
      * apply Hend; try reflexivity; [discriminate|].
        intros r0 Hr. inversion Hr. split; reflexivity.
      * apply Hend; try reflexivity; discriminate.
    + apply Hend; try reflexivity; discriminate.
  - cbn [settle]. apply Hend; try reflexivity; discriminate.
Qed.

(** Whatever the operation, [retrieve] makes no submission and no poll. *)
Lemma retrieve_trace (operation : Operation) (w : World) :
  exists tail,
    trace (snd (retrieve operation w)) = (trace w ++ tail)%list
    /\ polled tail = [] /\ submitted tail = []
    /\ polls (snd (retrieve operation w)) = polls w.
Proof.
  destruct (response operation) as [resp|] eqn:Hresp;
    [|rewrite (retrieve_no_response operation w Hresp);
      exists []; cbn; rewrite app_nil_r; auto].
  destruct (generatedVideos resp) as [[|first others]|] eqn:Hv;
    try (rewrite (retrieve_no_videos operation resp w Hresp);
         [exists []; cbn; rewrite app_nil_r; auto|solve [auto]]).
  destruct (video_with_uri first) as [[v u]|] eqn:Hu;
    [|rewrite (retrieve_no_uri operation resp first others w Hresp Hv Hu);
      exists []; cbn; rewrite app_nil_r; auto].
  pose proof (retrieve_with_uri operation resp first others v u w Hresp Hv Hu) as Hr.
  destruct (decodeURIComponent u) as [url|].
  - destruct Hr as [p [w1 [Hr [Ht [_ [Hp _]]]]]]. rewrite Hr. cbn [snd].
    exists [EvFetch (url ++ "&key=" ++ API_KEY)]. auto.
  - rewrite Hr. exists []. cbn. rewrite app_nil_r. auto.
Qed.

(** C4.  An [EXTEND_VIDEO] request without [inputVideoObject] and without
    a prior video fails with MissingExtensionSource and leaves the world as
    it was: nothing is submitted, polled or fetched, and no reply is
    consumed.  The same holds of [generateVideo] on such a request. *)
Theorem C4_extend_without_source_fails_before_any_call :
  forall (params : GenerateVideoParams) (overridePrompt : option string)
         (w : World),
    mode params = EXTEND_VIDEO ->
    inputVideoObject params = None ->
    performGeneration params overridePrompt None w
    = (Rejected MissingExtensionSource, w)
    /\ generateVideo params w = (Rejected MissingExtensionSource, w).
Proof.
  intros params overridePrompt w Hmode Hin.
  assert (Hb : forall o, buildPayload params o None = Throw MissingExtensionSource).
  { intro o. unfold buildPayload. rewrite Hmode, Hin. reflexivity. }
  split.
  - unfold performGeneration. rewrite Hb. reflexivity.
  - unfold generateVideo. rewrite Hmode.
    unfold performGeneration. rewrite Hb. reflexivity.
Qed.

(** C5.  When the cycle ends on an operation whose response has no list of
    generated videos, or an empty one, [performGeneration] fails with
    NoAssetsProduced and no fetch is made.  When the list is not empty, the
    first video is the one used: the failure is MissingAssetLocator exactly
    when that video has no retrievable location (and then no fetch is made
    either), and a result, when there is one, carries that video. *)
Theorem C5_no_assets_and_missing_locator :
  forall (params : GenerateVideoParams) (overridePrompt : option string)
         (overrideVideoInput : option Video) (payload : Payload)
         (w w1 : World) (operation : Operation) (resp : GenerateVideosResponse),
    buildPayload params overridePrompt overrideVideoInput = Return payload ->
    (started <- generateVideos payload ;; pollUntilDone started) w
    = (Fulfilled operation, w1) ->
    response operation = Some resp ->
    (generatedVideos resp = None \/ generatedVideos resp = Some [] ->
     performGeneration params overridePrompt overrideVideoInput w
     = (Rejected NoAssetsProduced, w1)
     /\ fetched (trace w1) = fetched (trace w)
     /\ fetches w1 = fetches w)
    /\ (forall first others,
           generatedVideos resp = Some (first :: others) ->
           (fst (performGeneration params overridePrompt overrideVideoInput w)
            = Rejected MissingAssetLocator
            <-> ~ has_location first)
           /\ (~ has_location first ->
               performGeneration params overridePrompt overrideVideoInput w
               = (Rejected MissingAssetLocator, w1)
               /\ fetched (trace w1) = fetched (trace w))
           /\ (forall r w2,
                  performGeneration params overridePrompt overrideVideoInput w
                  = (Fulfilled r, w2) ->
                  gv_video first = Some (video r))).
Proof.
  intros params overridePrompt overrideVideoInput payload w w1 operation resp
         Hb Hcycle Hresp.
  pose proof (performGeneration_cycle params overridePrompt overrideVideoInput payload w Hb)
    as Hperf.
  rewrite Hcycle in Hperf.
  destruct (cycle_trace _ _ _ _ Hcycle) as [[ops Htrace] [Hfetches _]].
  assert (Hfetched : fetched (trace w1) = fetched (trace w)).
  { rewrite Htrace, fetched_app.
    change (EvSubmit payload :: rounds ops)
      with ([EvSubmit payload] ++ rounds ops)%list.
    rewrite fetched_app.
    destruct (rounds_no_submit_no_fetch ops) as [_ [-> _]].
    cbn. apply app_nil_r. }
  split.
  - intro Hv. rewrite Hperf, (retrieve_no_videos operation resp w1 Hresp Hv). auto.
  - intros first others Hv.
    destruct (video_with_uri first) as [[v u]|] eqn:Hu.
    + pose proof (retrieve_with_uri operation resp first others v u w1 Hresp Hv Hu) as Hr.
      assert (Hloc : has_location first)
        by (exists v, u; apply video_with_uri_some, Hu).
      destruct (decodeURIComponent u) as [url|].
      * destruct Hr as [p [w2 [Hr [_ [_ [_ [Hp Hres]]]]]]].
        rewrite Hperf, Hr. cbn [fst]. split; [split|split].
        -- intro Hc. contradiction.
        -- intro Hn. contradiction.
        -- intro Hn. contradiction.
        -- intros r0 w3 Heq. inversion Heq; subst.
           destruct (Hres r0 eq_refl) as [Hvid _].
           apply video_with_uri_some in Hu. rewrite Hvid. apply Hu.
      * rewrite Hperf, Hr. cbn [fst]. split; [split|split].
        -- discriminate.
        -- intro Hn. contradiction.
        -- intro Hn. contradiction.
        -- intros r0 w3 Heq. discriminate.
    + assert (Hloc : ~ has_location first) by (apply video_with_uri_none, Hu).
      rewrite Hperf, (retrieve_no_uri operation resp first others w1 Hresp Hv Hu). cbn [fst].
      split; [split|split]; auto. intros r0 w3 Heq. discriminate.
Qed.

(** C6.  The submitted operation is not done (its [done] field is not
    [true]), and the polls are answered by operations whose [done] is not
    [true], such as [false] ([running], any number of them: the loop has no
    cap), and then by one whose [done] is [true].  Then every one of these
    replies is polled for, each poll after a sleep of ten seconds, and no
    other poll is made: with three replies that are not done, four polls.
    When the last reply holds one video with a location, exactly one fetch
    follows the polls. *)
Theorem C6_polls_every_ten_seconds_until_done :
  forall (params : GenerateVideoParams) (overridePrompt : option string)
         (overrideVideoInput : option Video) (payload : Payload) (w : World)
         (started final : Operation) (running : list Operation)
         (others later : list (Reply Operation)),
    buildPayload params overridePrompt overrideVideoInput = Return payload ->
    submits w = Resolve started :: others ->
    done started <> Some true ->
    polls w = (map Resolve (running ++ [final]) ++ later)%list ->
    Forall (fun o => done o <> Some true) running ->
    done final = Some true ->
    exists p w',
      performGeneration params overridePrompt overrideVideoInput w = (p, w')
      /\ polled (trace w')
         = (polled (trace w) ++ started :: running)%list
      /\ length (polled (trace w'))
         = length (polled (trace w)) + S (length running)
      /\ polls w' = later
      /\ (exists tail,
             trace w'
             = (trace w ++ EvSubmit payload :: rounds (started :: running)
                  ++ tail)%list
             /\ polled tail = [])
      /\ (forall resp d v u url,
             response final = Some resp ->
             generatedVideos resp = Some [d] ->
             gv_video d = Some v -> video_uri v = Some u -> u <> "" ->
             decodeURIComponent u = Some url ->
             trace w'
             = (trace w ++ EvSubmit payload :: rounds (started :: running)
                  ++ [EvFetch (url ++ "&key=" ++ API_KEY)])%list
             /\ length (fetched (trace w'))
                = length (fetched (trace w)) + 1).
Proof.
  intros params overridePrompt overrideVideoInput payload w started final
         running others later Hb Hsub Hstarted Hpolls Hrunning Hfinal.
  apply is_done_false in Hstarted. apply not_done_all in Hrunning.
  apply is_done_true in Hfinal.
  set (w1 := set_polls later
               (emit (rounds (started :: running))
                  (set_submits others (emit [EvSubmit payload] w)))).
  assert (Hcycle :
            (o <- generateVideos payload ;; pollUntilDone o) w
            = (Fulfilled final, w1)).
  { unfold bind, generateVideos. cbn [emit submits]. rewrite Hsub.
    cbn [settle]. unfold pollUntilDone. cbn [set_submits emit polls].
    rewrite Hpolls.
    rewrite (whileNotDone_running running started final later
               Hstarted Hrunning Hfinal). reflexivity. }
  pose proof (performGeneration_cycle params overridePrompt overrideVideoInput
                payload w Hb) as Hperf.
  rewrite Hcycle in Hperf.
  assert (Ht1 : trace w1
                = (trace w ++ EvSubmit payload :: rounds (started :: running))%list).
  { subst w1. cbn [set_polls emit set_submits trace].
    rewrite <- app_assoc. reflexivity. }
  destruct (rounds_no_submit_no_fetch (started :: running))
    as [_ [Hrf Hrp]].
  destruct (retrieve_trace final w1) as [tail [Htail [Hpt [_ Hpl]]]].
  destruct (retrieve final w1) as [p w'] eqn:Hr. cbn [snd] in Htail, Hpl.
  exists p, w'. split; [exact Hperf|].
  assert (Htrace : trace w'
                   = (trace w ++ EvSubmit payload :: rounds (started :: running)
                        ++ tail)%list).
  { rewrite Htail, Ht1, <- app_assoc. reflexivity. }
  assert (Hpolled : polled (trace w')
                    = (polled (trace w) ++ started :: running)%list).
  { rewrite Htrace, polled_app.
    change (EvSubmit payload :: rounds (started :: running) ++ tail)%list
      with ([EvSubmit payload] ++ rounds (started :: running) ++ tail)%list.
    rewrite !polled_app, Hrp, Hpt. cbn. rewrite app_nil_r. reflexivity. }
  split; [exact Hpolled|].
  split; [rewrite Hpolled, length_app; reflexivity|].
  split; [rewrite Hpl; reflexivity|].
  split; [exists tail; split; [exact Htrace|exact Hpt]|].
  intros resp d v u url Hresp Hvideos Hd Hv Hu Hdec.
  assert (Hwu : video_with_uri d = Some (v, u))
    by (apply video_with_uri_some; auto).
  pose proof (retrieve_with_uri final resp d [] v u w1 Hresp Hvideos Hwu) as Hw.
  rewrite Hdec, Hr in Hw. destruct Hw as [p' [w2 [Heq [Ht _]]]].
  inversion Heq; subst p' w2.
  assert (Htrace' : trace w'
                    = (trace w ++ EvSubmit payload :: rounds (started :: running)
                         ++ [EvFetch (url ++ "&key=" ++ API_KEY)])%list).
  { rewrite Ht, Ht1, <- app_assoc. reflexivity. }
  split; [exact Htrace'|].
  rewrite Htrace', fetched_app.
  change (EvSubmit payload :: rounds (started :: running)
            ++ [EvFetch (url ++ "&key=" ++ API_KEY)])%list
    with ([EvSubmit payload] ++ rounds (started :: running)
            ++ [EvFetch (url ++ "&key=" ++ API_KEY)])%list.
  rewrite !fetched_app, Hrf, length_app. reflexivity.
Qed.

(** ** The story loop *)

Lemma current_after_cons (cur : option GenerationResult)
    (r : GenerationResult) (rs : list GenerationResult) :
  current_after cur (r :: rs) = current_after (Some r) rs.
Proof. reflexivity. Qed.

Lemma current_after_last (cur : option GenerationResult)
    (rs : list GenerationResult) :
  current_after cur rs = last (map Some rs) cur.
Proof.
  revert cur. induction rs as [|r rest IH]; intro cur; [reflexivity|].
  rewrite current_after_cons, IH. cbn [map].
  destruct rest as [|r' rest']; [reflexivity|].
  cbn [map]. cbn [last]. clear IH.
  generalize (Some r) cur. generalize (Some r').
  induction (map Some rest') as [|a l IHl]; intros d d1 d2; [reflexivity|].
  cbn [last]. destruct l; [reflexivity|]. apply (IHl a).
Qed.

Lemma current_after_some (cur : option GenerationResult)
    (rs : list GenerationResult) :
  rs <> [] -> exists r, current_after cur rs = Some r.
Proof.
  revert cur. induction rs as [|r rest IH]; intros cur Hne; [congruence|].
  rewrite current_after_cons. destruct rest as [|r' rest'].
  - exists r. reflexivity.
  - apply IH. discriminate.
Qed.

Lemma StorySteps_length (params : GenerateVideoParams) (i : nat)
    (cur : option GenerationResult) (prompts : list string) (w w' : World)
    (rs : list GenerationResult) :
  StorySteps params i cur prompts w rs w' -> length rs = length prompts.
Proof. induction 1; cbn; congruence. Qed.

(** The loop over [before ++ rest], once the steps of [before] are
    fulfilled, goes on over [rest] from the state they left. *)
Lemma storyLoop_after_steps (params : GenerateVideoParams) (i : nat)
    (cur : option GenerationResult) (before : list string) (w w1 : World)
    (rs : list GenerationResult) (rest : list string) :
  StorySteps params i cur before w rs w1 ->
  storyLoop params i (before ++ rest) cur w
  = storyLoop params (i + length before) rest (current_after cur rs) w1.
Proof.
  induction 1 as [i cur w|i cur p ps w w1 w2 r rs Hstep Hsteps IH].
  - cbn. rewrite Nat.add_0_r. reflexivity.
  - cbn [List.app storyLoop]. unfold bind at 1. rewrite Hstep.
    rewrite IH, current_after_cons. cbn [length].
    replace (S i + length ps) with (i + S (length ps)) by lia. reflexivity.
Qed.

(** The loop is fulfilled exactly when all its steps are. *)
Lemma storyLoop_fulfilled (params : GenerateVideoParams)
    (prompts : list string) :
  forall (i : nat) (cur : option GenerationResult) (w w' : World)
         (res : option GenerationResult),
    storyLoop params i prompts cur w = (Fulfilled res, w')
    <-> exists rs, StorySteps params i cur prompts w rs w'
                   /\ res = current_after cur rs.
Proof.
  induction prompts as [|p ps IH]; intros i cur w w' res.
  - cbn. unfold ret. split.
    + intro H; inversion H; subst. exists []. split; [constructor|reflexivity].
    + intros [rs [Hs ->]]. inversion Hs; subst. reflexivity.
  - cbn [storyLoop]. unfold bind at 1. split.
    + destruct (storyStep params i p cur w) as [[r|e|] w1] eqn:Hstep;
        try discriminate.
      intro Hloop. apply IH in Hloop. destruct Hloop as [rs [Hs ->]].
      exists (r :: rs). split; [econstructor; eassumption|].
      rewrite current_after_cons. reflexivity.
    + intros [rs [Hs ->]]. inversion Hs; subst.
      match goal with
      | H : storyStep params i p cur w = _ |- _ => rewrite H
      end.
      rewrite current_after_cons. apply IH. eauto.
Qed.

(** ** What one cycle does *)

Lemma retrieve_not_ChainBroken (operation : Operation) (w : World) :
  fst (retrieve operation w) <> Rejected ChainBroken.
Proof.
  destruct (response operation) as [resp|] eqn:Hresp;
    [|rewrite (retrieve_no_response operation w Hresp); discriminate].
  destruct (generatedVideos resp) as [[|first others]|] eqn:Hv;
    try (rewrite (retrieve_no_videos operation resp w Hresp);
         [discriminate|solve [auto]]).
  destruct (video_with_uri first) as [[v u]|] eqn:Hu;
    [|rewrite (retrieve_no_uri operation resp first others w Hresp Hv Hu);
      discriminate].
  unfold retrieve. rewrite Hresp, Hv, Hu.
  unfold bind, decode.
  destruct (decodeURIComponent u) as [url|]; [|discriminate].
  unfold ret at 1. unfold fetch. cbn [emit fetches].
  destruct (fetches w) as [|[res|reason] rest]; try discriminate.
  cbn [settle]. destruct (ok res); cbn [negb]; [|cbn; discriminate].
  unfold blob_of. destruct (body res); cbn; discriminate.
Qed.

Lemma retrieve_fulfilled (operation : Operation) (w w' : World)
    (r : GenerationResult) :
  retrieve operation w = (Fulfilled r, w') ->
  exists url, trace w' = (trace w ++ [EvFetch (url ++ "&key=" ++ API_KEY)])%list
              /\ uri r = url.
Proof.
  destruct (response operation) as [resp|] eqn:Hresp;
    [|rewrite (retrieve_no_response operation w Hresp); discriminate].
  destruct (generatedVideos resp) as [[|first others]|] eqn:Hv;
    try (rewrite (retrieve_no_videos operation resp w Hresp);
         [discriminate|solve [auto]]).
  destruct (video_with_uri first) as [[v u]|] eqn:Hu;
    [|rewrite (retrieve_no_uri operation resp first others w Hresp Hv Hu);
      discriminate].
  pose proof (retrieve_with_uri operation resp first others v u w Hresp Hv Hu) as Hr.
  destruct (decodeURIComponent u) as [url|]; [|rewrite Hr; discriminate].
  destruct Hr as [p [w1 [Hr [Ht [_ [_ [_ Hres]]]]]]].
  rewrite Hr. intro H; inversion H; subst.
  exists url. split; [exact Ht|]. apply (Hres r eq_refl).
Qed.

Lemma whileNotDone_rejected (script : list (Reply Operation)) :
  forall operation e unread evs,
    whileNotDone script operation = (Rejected e, unread, evs) ->
    exists reason, e = RemoteFailure reason.
Proof.
  induction script as [|r rest IH]; intros operation e unread evs;
    cbn [whileNotDone]; destruct (is_done operation); try discriminate.
  destruct r as [next|reason].
  - destruct (whileNotDone rest next) as [[p' unread'] evs'] eqn:E.
    intro H; inversion H; subst. eapply IH; eassumption.
  - intro H; inversion H; subst. eauto.
Qed.

Lemma cycle_rejected (payload : Payload) (w w1 : World) (e : Exn) :
  (operation <- generateVideos payload ;; pollUntilDone operation) w
  = (Rejected e, w1) ->
  exists reason, e = RemoteFailure reason.
Proof.
  unfold bind, generateVideos. cbn [emit submits].
  destruct (submits w) as [|[op|reason] rest]; try discriminate.
  - cbn [settle]. unfold pollUntilDone.
    destruct (whileNotDone _ op) as [[p unread] evs] eqn:E.
    intro H; inversion H; subst. eapply whileNotDone_rejected; eassumption.
  - cbn [settle]. intro H; inversion H; subst. eauto.
Qed.

Lemma performGeneration_not_ChainBroken (params : GenerateVideoParams)
    (overridePrompt : option string) (overrideVideoInput : option Video)
    (w : World) :
  fst (performGeneration params overridePrompt overrideVideoInput w)
  <> Rejected ChainBroken.
Proof.
  destruct (buildPayload_returns params overridePrompt overrideVideoInput)
    as [[_ [_ [_ Hb]]]|[payload Hb]].
  - unfold performGeneration. rewrite Hb. cbn. discriminate.
  - rewrite (performGeneration_cycle params overridePrompt overrideVideoInput
               payload w Hb).
    destruct ((operation <- generateVideos payload ;; pollUntilDone operation) w)
      as [[op|e|] w1] eqn:Hc.
    + apply retrieve_not_ChainBroken.
    + destruct (cycle_rejected payload w w1 e Hc) as [reason ->]. discriminate.
    + discriminate.
Qed.

(** A fulfilled [performGeneration] has built its payload, submitted it
    once, polled, and fetched once. *)
Lemma performGeneration_fulfilled (params : GenerateVideoParams)
    (overridePrompt : option string) (overrideVideoInput : option Video)
    (w w' : World) (r : GenerationResult) :
  performGeneration params overridePrompt overrideVideoInput w
  = (Fulfilled r, w') ->
  exists payload,
    buildPayload params overridePrompt overrideVideoInput = Return payload
    /\ submitted (trace w') = (submitted (trace w) ++ [payload])%list
    /\ length (fetched (trace w')) = length (fetched (trace w)) + 1.
Proof.
  destruct (buildPayload_returns params overridePrompt overrideVideoInput)
    as [[_ [_ [_ Hb]]]|[payload Hb]].
  - unfold performGeneration. rewrite Hb. cbn. discriminate.
  - rewrite (performGeneration_cycle params overridePrompt overrideVideoInput
               payload w Hb).
    destruct ((operation <- generateVideos payload ;; pollUntilDone operation) w)
      as [[op|e|] w1] eqn:Hc; try discriminate.
    intro Hr. exists payload. split; [exact Hb|].
    destruct (cycle_trace payload w w1 _ Hc) as [[ops Ht1] _].
    destruct (retrieve_fulfilled op w1 w' r Hr) as [url [Ht2 _]].
    destruct (rounds_no_submit_no_fetch ops) as [Hs [Hf _]].
    rewrite Ht2, Ht1.
    change (EvSubmit payload :: rounds ops)
      with ([EvSubmit payload] ++ rounds ops)%list.
    rewrite !submitted_app, !fetched_app, Hs, Hf. cbn.
    rewrite !app_nil_r, length_app. split; reflexivity.
Qed.

Lemma storyStep_fulfilled (params : GenerateVideoParams) (i : nat)
    (p : string) (cur : option GenerationResult) (w w1 : World)
    (r : GenerationResult) :
  storyStep params i p cur w = (Fulfilled r, w1) ->
  exists payload,
    step_submission params i p cur = Return payload
    /\ submitted (trace w1) = (submitted (trace w) ++ [payload])%list
    /\ length (fetched (trace w1)) = length (fetched (trace w)) + 1.
Proof.
  unfold storyStep, step_submission.
  destruct (Nat.eqb i 0).
  - apply performGeneration_fulfilled.
  - destruct cur as [prev|]; [apply performGeneration_fulfilled|discriminate].
Qed.

Lemma storyStep_not_ChainBroken (params : GenerateVideoParams) (i : nat)
    (p : string) (cur : option GenerationResult) (w : World) :
  i = 0 \/ cur <> None ->
  fst (storyStep params i p cur w) <> Rejected ChainBroken.
Proof.
  intro H. unfold storyStep. destruct (Nat.eqb i 0) eqn:E.
  - apply performGeneration_not_ChainBroken.
  - destruct cur as [prev|]; [apply performGeneration_not_ChainBroken|].
    destruct H as [->|H]; [discriminate|congruence].
Qed.

Lemma storyLoop_not_ChainBroken (params : GenerateVideoParams)
    (prompts : list string) :
  forall (i : nat) (cur : option GenerationResult) (w : World),
    i = 0 \/ cur <> None ->
    fst (storyLoop params i prompts cur w) <> Rejected ChainBroken.
Proof.
  induction prompts as [|p ps IH]; intros i cur w H; [discriminate|].
  cbn [storyLoop]. unfold bind at 1.
  pose proof (storyStep_not_ChainBroken params i p cur w H) as Hs.
  destruct (storyStep params i p cur w) as [[r|e|] w1].
  - apply IH. right. discriminate.
  - cbn in *. intro Hc. apply Hs. inversion Hc. reflexivity.
  - discriminate.
Qed.

(** The calls of a run of fulfilled steps: one submission and one fetch
    for each prompt, the submission of each step built from its prompt and
    from the result that the step before it yielded. *)
Lemma StorySteps_calls (params : GenerateVideoParams) (i : nat)
    (cur : option GenerationResult) (prompts : list string) (w w' : World)
    (rs : list GenerationResult) :
  StorySteps params i cur prompts w rs w' ->
  exists payloads,
    length payloads = length prompts
    /\ submitted (trace w') = (submitted (trace w) ++ payloads)%list
    /\ length (fetched (trace w'))
       = length (fetched (trace w)) + length prompts
    /\ forall k p payload,
        nth_error prompts k = Some p ->
        nth_error payloads k = Some payload ->
        step_submission params (i + k) p
          (match k with 0 => cur | S j => nth_error rs j end)
        = Return payload.
Proof.
  induction 1 as [i cur w|i cur p ps w w1 w2 r rs Hstep Hsteps IH].
  - exists []. cbn. rewrite app_nil_r, Nat.add_0_r.
    repeat split. intros [|k] q payload Hq; discriminate.
  - destruct (storyStep_fulfilled params i p cur w w1 r Hstep)
      as [payload [Hsub [Hs Hf]]].
    destruct IH as [payloads [Hlen [Hs' [Hf' Hnth]]]].
    exists (payload :: payloads). cbn [length]. split; [congruence|].
    split; [rewrite Hs', Hs, <- app_assoc; reflexivity|].
    split; [rewrite Hf', Hf; lia|].
    intros [|k] q pl Hq Hpl.
    + cbn in Hq, Hpl. inversion Hq; inversion Hpl; subst.
      rewrite Nat.add_0_r. exact Hsub.
    + cbn [nth_error] in Hq, Hpl.
      pose proof (Hnth k q pl Hq Hpl) as Hk.
      replace (i + S k) with (S i + k) by lia.
      destruct k; exact Hk.
Qed.

(** ** A run on accepting jobs *)

Lemma story_calls_cons (payload : Payload) (payloads : list Payload)
    (j : Job) (jobs : list Job) :
  story_calls (payload :: payloads) (j :: jobs)
  = (job_calls payload j ++ story_calls payloads jobs)%list.
Proof. reflexivity. Qed.

Lemma job_calls_kinds (payload : Payload) (j : Job) :
  submitted (job_calls payload j) = [payload]
  /\ polled (job_calls payload j) = job_started j :: job_running j
  /\ fetched (job_calls payload j) = [job_url j ++ "&key=" ++ API_KEY].
Proof.
  unfold job_calls.
  change (EvSubmit payload :: rounds (job_started j :: job_running j)
            ++ [EvFetch (job_url j ++ "&key=" ++ API_KEY)])%list
    with ([EvSubmit payload] ++ rounds (job_started j :: job_running j)
            ++ [EvFetch (job_url j ++ "&key=" ++ API_KEY)])%list.
  rewrite !submitted_app, !polled_app, !fetched_app.
  destruct (rounds_no_submit_no_fetch (job_started j :: job_running j))
    as [-> [-> ->]].
  cbn. rewrite app_nil_r. auto.
Qed.

Lemma story_calls_kinds (payloads : list Payload) :
  forall jobs : list Job,
    length payloads = length jobs ->
    submitted (story_calls payloads jobs) = payloads
    /\ polled (story_calls payloads jobs)
       = flat_map (fun j => job_started j :: job_running j) jobs
    /\ fetched (story_calls payloads jobs)
       = map (fun j => job_url j ++ "&key=" ++ API_KEY) jobs.
Proof.
  induction payloads as [|payload payloads IH]; intros [|j jobs] Hlen;
    try discriminate; [cbn; auto|].
  rewrite story_calls_cons, submitted_app, polled_app, fetched_app.
  destruct (job_calls_kinds payload j) as [-> [-> ->]].
  destruct (IH jobs ltac:(cbn in Hlen; lia)) as [-> [-> ->]].
  cbn [flat_map map]. auto.
Qed.

(** One cycle on an accepting job: the result and the world it leaves. *)
Lemma performGeneration_accepts (params : GenerateVideoParams)
    (overridePrompt : option string) (overrideVideoInput : option Video)
    (payload : Payload) (j : Job) (w : World)
    (ss ps : list (Reply Operation)) (fs : list (Reply FetchResponse)) :
  buildPayload params overridePrompt overrideVideoInput = Return payload ->
  accepting j ->
  submits w = Resolve (job_started j) :: ss ->
  polls w = (map Resolve (job_running j ++ [job_final j]) ++ ps)%list ->
  fetches w = Resolve (job_fetched j) :: fs ->
  performGeneration params overridePrompt overrideVideoInput w
  = (Fulfilled {| objectUrl := "blob:" ++ string_of_nat (objectUrls w);
                  blob := job_bytes j;
                  uri := job_url j;
                  video := job_video j |},
     {| submits := ss; polls := ps; fetches := fs;
        trace := (trace w ++ job_calls payload j)%list;
        objectUrls := S (objectUrls w) |}).
Proof.
  intros Hb [Hstarted [Hrunning [Hfinal [Hvid [Hok Hbody]]]]] Hs Hp Hf.
  destruct Hvid as [resp [others [u [Hresp [Hvideos [Hu [Hne Hdec]]]]]]].
  apply is_done_false in Hstarted. apply not_done_all in Hrunning.
  apply is_done_true in Hfinal.
  rewrite (performGeneration_cycle params overridePrompt overrideVideoInput
             payload w Hb).
  unfold bind at 1. unfold generateVideos. cbn [emit submits]. rewrite Hs.
  cbn [settle]. unfold pollUntilDone. cbn [set_submits emit polls].
  rewrite Hp.
  rewrite (whileNotDone_running (job_running j) (job_started j) (job_final j)
             ps Hstarted Hrunning Hfinal).
  assert (Hwu : video_with_uri {| gv_video := Some (job_video j) |}
                = Some (job_video j, u))
    by (apply video_with_uri_some; auto).
  unfold retrieve. rewrite Hresp, Hvideos, Hwu.
  unfold bind, decode. rewrite Hdec. unfold ret at 1. unfold fetch.
  cbn [emit set_polls set_submits fetches]. rewrite Hf. cbn [settle].
  rewrite Hok. cbn [negb]. unfold blob_of. rewrite Hbody. cbn [settle].
  unfold createObjectURL, ret, set_fetches, set_polls, set_submits, emit,
    job_calls.
  cbn [submits polls fetches trace objectUrls].
  rewrite <- !app_assoc. reflexivity.
Qed.

(** One step of the loop on an accepting job. *)
Lemma storyStep_accepts (params : GenerateVideoParams) (i : nat) (p : string)
    (cur : option GenerationResult) (j : Job) (w : World)
    (ss ps : list (Reply Operation)) (fs : list (Reply FetchResponse)) :
  i = 0 \/ cur <> None ->
  accepting j ->
  submits w = Resolve (job_started j) :: ss ->
  polls w = (map Resolve (job_running j ++ [job_final j]) ++ ps)%list ->
  fetches w = Resolve (job_fetched j) :: fs ->
  exists payload,
    step_submission params i p cur = Return payload
    /\ storyStep params i p cur w
       = (Fulfilled {| objectUrl := "blob:" ++ string_of_nat (objectUrls w);
                       blob := job_bytes j;
                       uri := job_url j;
                       video := job_video j |},
          {| submits := ss; polls := ps; fetches := fs;
             trace := (trace w ++ job_calls payload j)%list;
             objectUrls := S (objectUrls w) |}).
Proof.
  intros Hcur Hacc Hs Hp Hf. unfold step_submission, storyStep.
  destruct (Nat.eqb i 0) eqn:Hi.
  - destruct (buildPayload_returns (first_step_params params p) None None)
      as [[Hm _]|[payload Hb]]; [discriminate|].
    exists payload. split; [exact Hb|].
    apply performGeneration_accepts; assumption.
  - destruct cur as [previous|].
    + destruct (buildPayload_override_video params (Some p) (video previous))
        as [payload [Hb _]].
      exists payload. split; [exact Hb|].
      apply performGeneration_accepts; assumption.
    + destruct Hcur as [->|Hcur]; [discriminate|congruence].
Qed.

(** The loop on accepting jobs, one for each prompt: every step is
    fulfilled, with the calls of its job, and the replies of the jobs are
    all consumed. *)
Lemma storyLoop_accepts (params : GenerateVideoParams) (prompts : list string) :
  forall (jobs : list Job) (i : nat) (cur : option GenerationResult)
         (w : World) (ss ps : list (Reply Operation))
         (fs : list (Reply FetchResponse)),
    length jobs = length prompts ->
    Forall accepting jobs ->
    i = 0 \/ cur <> None ->
    submits w = (map (fun j => Resolve (job_started j)) jobs ++ ss)%list ->
    polls w
    = (flat_map (fun j => map Resolve (job_running j ++ [job_final j])) jobs
         ++ ps)%list ->
    fetches w = (map (fun j => Resolve (job_fetched j)) jobs ++ fs)%list ->
    exists rs w' payloads,
      StorySteps params i cur prompts w rs w'
      /\ length payloads = length prompts
      /\ trace w' = (trace w ++ story_calls payloads jobs)%list
      /\ map video rs = map job_video jobs
      /\ map uri rs = map job_url jobs
      /\ map blob rs = map job_bytes jobs
      /\ submits w' = ss /\ polls w' = ps /\ fetches w' = fs.
Proof.
  induction prompts as [|p prompts IH];
    intros [|j jobs] i cur w ss ps fs Hlen Hacc Hcur Hs Hp Hf;
    try discriminate.
  - exists [], w, []. cbn in *. rewrite app_nil_r.
    repeat match goal with |- _ /\ _ => split end; auto. constructor.
  - inversion Hacc as [|? ? Hj Hjobs]; subst.
    cbn [map flat_map List.app] in Hs, Hp, Hf.
    rewrite <- app_assoc in Hp.
    destruct (storyStep_accepts params i p cur j w _ _ _ Hcur Hj Hs Hp Hf)
      as [payload [_ Hstep]].
    assert (Hlen' : length jobs = length prompts) by (cbn in Hlen; lia).
    match type of Hstep with
    | _ = (Fulfilled ?r, ?next) =>
        set (result := r) in *; set (w1 := next) in *
    end.
    assert (Hnext : S i = 0 \/ Some result <> None) by (right; discriminate).
    destruct (IH jobs (S i) (Some result) w1 ss ps fs Hlen' Hjobs Hnext
                (eq_refl : submits w1 = _) (eq_refl : polls w1 = _)
                (eq_refl : fetches w1 = _))
      as [rs [w' [payloads [Hsteps [Hpl [Ht [Hv [Hu [Hbl [Hs' [Hp' Hf']]]]]]]]]]].
    exists (result :: rs), w', (payload :: payloads).
    split; [eapply steps_next; [exact Hstep|exact Hsteps]|].
    split; [cbn; congruence|].
    split; [rewrite Ht, story_calls_cons; unfold w1; cbn [trace];
            rewrite <- app_assoc; reflexivity|].
    cbn [map]. rewrite Hv, Hu, Hbl. auto 10.
Qed.

(** ** The claims on [generateVideo] *)

(** C1.  For a story request with [n] prompts, [generateVideo] is
    fulfilled exactly when the [n] steps, run in prompt order, are all
    fulfilled, and it returns the result of the last step only.  Such a run
    makes exactly [n] submissions and [n] fetches; the first submission is
    built from the first prompt without a prior video, and the submission
    of each later step is built from its prompt and carries, as its
    prior-video field, the [video] of the result of the step before it.
    And the run takes place: when the remote service and the fetches answer
    with [n] accepting jobs, one for each prompt, [generateVideo] is
    fulfilled, after [n] cycles made one after the other in prompt order,
    each of one submission, one poll for each operation of its job that is
    not done, and one fetch of its job's location; the result of each step
    holds the video, the location and the bytes of its job, the submission
    of each later step carries the video of the job before it, and the
    replies of the jobs are consumed, no more. *)
Theorem C1_story_sequence_chains_its_steps :
  forall (params : GenerateVideoParams) (prompts : list string) (w : World),
    mode params = STORY_MODE ->
    storyPrompts params = Some prompts ->
    prompts <> [] ->
    (forall r w',
        generateVideo params w = (Fulfilled r, w')
        <-> exists rs, StorySteps params 0 None prompts w rs w'
                       /\ last (map Some rs) None = Some r)
    /\ (forall rs w',
           StorySteps params 0 None prompts w rs w' ->
           length rs = length prompts
           /\ exists payloads,
               length payloads = length prompts
               /\ submitted (trace w') = (submitted (trace w) ++ payloads)%list
               /\ length (fetched (trace w'))
                  = length (fetched (trace w)) + length prompts
               /\ (forall p payload,
                      nth_error prompts 0 = Some p ->
                      nth_error payloads 0 = Some payload ->
                      buildPayload (first_step_params params p) None None
                      = Return payload)
               /\ (forall k p payload,
                      nth_error prompts (S k) = Some p ->
                      nth_error payloads (S k) = Some payload ->
                      exists previous,
                        nth_error rs k = Some previous
                        /\ buildPayload params (Some p) (Some (video previous))
                           = Return payload
                        /\ payload_video payload = Some (video previous)))
    /\ (forall (jobs : list Job) (more_submits more_polls : list (Reply Operation))
               (more_fetches : list (Reply FetchResponse)),
           length jobs = length prompts ->
           Forall accepting jobs ->
           submits w
           = (map (fun j => Resolve (job_started j)) jobs ++ more_submits)%list ->
           polls w
           = (flat_map (fun j => map Resolve (job_running j ++ [job_final j]))
                jobs ++ more_polls)%list ->
           fetches w
           = (map (fun j => Resolve (job_fetched j)) jobs ++ more_fetches)%list ->
           exists r w' rs payloads,
             generateVideo params w = (Fulfilled r, w')
             /\ StorySteps params 0 None prompts w rs w'
             /\ last (map Some rs) None = Some r
             /\ map video rs = map job_video jobs
             /\ map uri rs = map job_url jobs
             /\ map blob rs = map job_bytes jobs
             /\ length payloads = length prompts
             /\ trace w' = (trace w ++ story_calls payloads jobs)%list
             /\ submitted (trace w') = (submitted (trace w) ++ payloads)%list
             /\ polled (trace w')
                = (polled (trace w)
                     ++ flat_map (fun j => job_started j :: job_running j) jobs)%list
             /\ fetched (trace w')
                = (fetched (trace w)
                     ++ map (fun j => (job_url j ++ "&key=" ++ API_KEY)%string)
                          jobs)%list
             /\ (forall p payload,
                    nth_error prompts 0 = Some p ->
                    nth_error payloads 0 = Some payload ->
                    buildPayload (first_step_params params p) None None
                    = Return payload
                    /\ payload_video payload = None)
             /\ (forall k p payload before,
                    nth_error prompts (S k) = Some p ->
                    nth_error payloads (S k) = Some payload ->
                    nth_error jobs k = Some before ->
                    buildPayload params (Some p) (Some (job_video before))
                    = Return payload
                    /\ payload_video payload = Some (job_video before))
             /\ submits w' = more_submits
             /\ polls w' = more_polls
             /\ fetches w' = more_fetches).
Proof.
  intros params prompts w Hmode Hprompts Hne.
  destruct prompts as [|first others]; [congruence|]. clear Hne.
  split; [|split].
  - intros r w'. unfold generateVideo. rewrite Hmode, Hprompts.
    unfold bind at 1. split.
    + destruct (storyLoop params 0 (first :: others) None w)
        as [[res|e|] w1] eqn:Hloop; try discriminate.
      apply storyLoop_fulfilled in Hloop. destruct Hloop as [rs [Hs ->]].
      destruct (current_after None rs) as [r'|] eqn:Hcur; [|discriminate].
      intro H; inversion H; subst. exists rs. split; [exact Hs|].
      rewrite <- current_after_last. exact Hcur.
    + intros [rs [Hs Hlast]].
      assert (Hloop : storyLoop params 0 (first :: others) None w
                      = (Fulfilled (current_after None rs), w'))
        by (apply storyLoop_fulfilled; eauto).
      rewrite Hloop, current_after_last, Hlast. reflexivity.
  - intros rs w' Hs.
    pose proof (StorySteps_length params 0 None _ w w' rs Hs) as Hlen.
    split; [exact Hlen|].
    destruct (StorySteps_calls params 0 None _ w w' rs Hs)
      as [payloads [Hpl [Hsub [Hfet Hnth]]]].
    exists payloads. repeat (split; [assumption|]). split.
    + intros p payload Hp Hpay. exact (Hnth 0 p payload Hp Hpay).
    + intros k p payload Hp Hpay.
      pose proof (Hnth (S k) p payload Hp Hpay) as Hk.
      cbn [Nat.add] in Hk. unfold step_submission in Hk. cbn [Nat.eqb] in Hk.
      destruct (nth_error rs k) as [previous|]; [|discriminate].
      exists previous. split; [reflexivity|]. split; [exact Hk|].
      destruct (buildPayload_override_video params (Some p) (video previous))
        as [pl [Hb [Hv _]]].
      rewrite Hb in Hk. inversion Hk; subst. exact Hv.
  - intros jobs more_submits more_polls more_fetches Hlen Hacc Hs Hp Hf.
    destruct (storyLoop_accepts params (first :: others) jobs 0 None w
                more_submits more_polls more_fetches Hlen Hacc
                (or_introl eq_refl) Hs Hp Hf)
      as [rs [w' [payloads [Hsteps [Hpl [Ht [Hv [Hu [Hbl [Hs' [Hp' Hf']]]]]]]]]]].
    pose proof (StorySteps_length params 0 None _ w w' rs Hsteps) as Hrs.
    assert (Hne : rs <> []) by (destruct rs; discriminate).
    destruct (current_after_some None rs Hne) as [r Hcur].
    assert (Hlast : last (map Some rs) None = Some r)
      by (rewrite <- current_after_last; exact Hcur).
    destruct (story_calls_kinds payloads jobs ltac:(congruence))
      as [Hsub [Hpol Hfet]].
    assert (Hsubmitted : submitted (trace w')
                         = (submitted (trace w) ++ payloads)%list)
      by (rewrite Ht, submitted_app, Hsub; reflexivity).
    exists r, w', rs, payloads.
    split.
    { unfold generateVideo. rewrite Hmode, Hprompts. unfold bind at 1.
      assert (Hloop : storyLoop params 0 (first :: others) None w
                      = (Fulfilled (current_after None rs), w'))
        by (apply storyLoop_fulfilled; eauto).
      rewrite Hloop, Hcur. reflexivity. }
    split; [exact Hsteps|]. split; [exact Hlast|].
    split; [exact Hv|]. split; [exact Hu|]. split; [exact Hbl|].
    split; [exact Hpl|]. split; [exact Ht|]. split; [exact Hsubmitted|].
    split; [rewrite Ht, polled_app, Hpol; reflexivity|].
    split; [rewrite Ht, fetched_app, Hfet; reflexivity|].
    destruct (StorySteps_calls params 0 None _ w w' rs Hsteps)
      as [payloads' [_ [Hsub' [_ Hnth]]]].
    assert (payloads' = payloads)
      by (rewrite Hsubmitted in Hsub'; apply app_inv_head in Hsub';
          congruence).
    subst payloads'.
    split; [|split; [|auto]].
    + intros p payload Hp0 Hpay.
      pose proof (Hnth 0 p payload Hp0 Hpay) as Hk.
      unfold step_submission in Hk. cbn [Nat.add Nat.eqb] in Hk.
      split; [exact Hk|].
      revert Hk. unfold buildPayload, isExtensionOperation.
      cbn [mode first_step_params mode_eqb orb is_some].
      destruct (andb _ _); intro Hk; inversion Hk; reflexivity.
    + intros k p payload before Hpk Hpay Hjob.
      pose proof (Hnth (S k) p payload Hpk Hpay) as Hk.
      cbn [Nat.add] in Hk. unfold step_submission in Hk. cbn [Nat.eqb] in Hk.
      assert (Hprev : nth_error (map video rs) k = Some (job_video before))
        by (rewrite Hv; apply map_nth_error; exact Hjob).
      rewrite nth_error_map in Hprev.
      destruct (nth_error rs k) as [previous|]; [|discriminate].
      cbn in Hprev. injection Hprev as Hprev. rewrite Hprev in Hk.
      split; [exact Hk|].
      destruct (buildPayload_override_video params (Some p) (job_video before))
        as [pl [Hb [Hvid _]]].
      rewrite Hb in Hk. inversion Hk; subst. exact Hvid.
Qed.

(** C9.  [generateVideo] never fails with the error of the guard of line
    199.  When a step after the first begins, that is, when the steps
    before it are all fulfilled, [currentResult] holds the result of the
    step just before, and the step is the extension of that result's
    video; and a step that fails, or that never settles, ends the whole
    call the same way, in the world where it stopped, so that no later step
    is attempted. *)
Theorem C9_chain_guard_is_unreachable :
  forall (params : GenerateVideoParams) (w : World),
    fst (generateVideo params w) <> Rejected ChainBroken
    /\ (forall prompts before p after rs w1,
           mode params = STORY_MODE ->
           storyPrompts params = Some prompts ->
           prompts = (before ++ p :: after)%list ->
           StorySteps params 0 None before w rs w1 ->
           (before <> [] ->
            exists previous,
              last (map Some rs) None = Some previous
              /\ current_after None rs = Some previous
              /\ storyStep params (length before) p (current_after None rs) w1
                 = performGeneration params (Some p) (Some (video previous)) w1)
           /\ (forall e w2,
                  storyStep params (length before) p (current_after None rs) w1
                  = (Rejected e, w2) ->
                  generateVideo params w = (Rejected e, w2))
           /\ (forall w2,
                  storyStep params (length before) p (current_after None rs) w1
                  = (PendingForever, w2) ->
                  generateVideo params w = (PendingForever, w2))).
Proof.
  intros params w. split.
  - unfold generateVideo.
    destruct (mode params); try apply performGeneration_not_ChainBroken.
    destruct (storyPrompts params) as [[|first others]|];
      try apply performGeneration_not_ChainBroken.
    unfold bind at 1.
    pose proof (storyLoop_not_ChainBroken params (first :: others) 0 None w
                  (or_introl eq_refl)) as Hl.
    destruct (storyLoop params 0 (first :: others) None w) as [[[r|]|e|] w1];
      cbn in *; try discriminate.
    intro Hc. apply Hl. inversion Hc. reflexivity.
  - intros prompts before p after rs w1 Hmode Hprompts -> Hsteps.
    split; [|split].
    + intro Hne.
      pose proof (StorySteps_length params 0 None before w w1 rs Hsteps) as Hlen.
      assert (Hrs : rs <> [])
        by (destruct rs; [destruct before; [congruence|discriminate]|discriminate]).
      destruct (current_after_some None rs Hrs) as [previous Hcur].
      exists previous. rewrite <- current_after_last.
      split; [exact Hcur|]. split; [exact Hcur|].
      rewrite Hcur. unfold storyStep.
      destruct before; [congruence|reflexivity].
    + intros e w2 Hstep. unfold generateVideo.
      rewrite Hmode, Hprompts.
      assert (Hloop : storyLoop params 0 (before ++ p :: after) None w
                      = (Rejected e, w2)).
      { rewrite (storyLoop_after_steps params 0 None before w w1 rs
                   (p :: after) Hsteps).
        cbn [Nat.add storyLoop]. unfold bind at 1.
        rewrite Hstep. reflexivity. }
      destruct (before ++ p :: after)%list as [|first others] eqn:Happ;
        [destruct before; discriminate|].
      unfold bind at 1. rewrite Hloop. reflexivity.
    + intros w2 Hstep. unfold generateVideo.
      rewrite Hmode, Hprompts.
      assert (Hloop : storyLoop params 0 (before ++ p :: after) None w
                      = (PendingForever, w2)).
      { rewrite (storyLoop_after_steps params 0 None before w w1 rs
                   (p :: after) Hsteps).
        cbn [Nat.add storyLoop]. unfold bind at 1.
        rewrite Hstep. reflexivity. }
      destruct (before ++ p :: after)%list as [|first others] eqn:Happ;
        [destruct before; discriminate|].
      unfold bind at 1. rewrite Hloop. reflexivity.
Qed.

(** * More on the payload *)

(** The images and the tags of the list of lines 99-119. *)
Lemma referenceImagesPayload_shape (params : GenerateVideoParams) :
  map image (referenceImagesPayload params)
  = map image_of (references_of params ++ style_of params)%list
  /\ map referenceType (referenceImagesPayload params)
     = (repeat ASSET (length (references_of params))
          ++ repeat STYLE (length (style_of params)))%list.
Proof.
  unfold referenceImagesPayload, references_of, style_of.
  rewrite !map_app.
  assert (Hrefs : forall imgs : list ImageFile,
             map image (map (fun img => {| image := image_of img;
                                           referenceType := ASSET |}) imgs)
             = map image_of imgs
             /\ map referenceType
                  (map (fun img => {| image := image_of img;
                                      referenceType := ASSET |}) imgs)
                = repeat ASSET (length imgs)).
  { induction imgs as [|img rest [IH1 IH2]]; cbn; [auto|].
    rewrite IH1, IH2. auto. }
  destruct (referenceImages params) as [imgs|];
    destruct (styleImage params) as [st|]; cbn [map length repeat];
    try destruct (Hrefs imgs) as [-> ->]; rewrite ?map_app; cbn; auto.
Qed.

(** X1.  With a prior video, the build succeeds in every mode, also in
    [EXTEND_VIDEO] without [inputVideoObject], and the mode's own inputs are
    left out: the submission carries the prior video, no first or last
    frame, no reference images and no aspect ratio; its prompt is the base
    prompt, without reference labels. *)
Theorem X1_prior_video_takes_precedence :
  forall (params : GenerateVideoParams) (overridePrompt : option string)
         (v : Video),
    exists payload,
      buildPayload params overridePrompt (Some v) = Return payload
      /\ payload_video payload = Some v
      /\ payload_image payload = None
      /\ lastFrame (payload_config payload) = None
      /\ config_referenceImages (payload_config payload) = None
      /\ config_aspectRatio (payload_config payload) = None
      /\ payload_prompt payload
         = prompt_field (basePrompt params overridePrompt)
      /\ payload_model payload = model params
      /\ config_resolution (payload_config payload) = resolution params
      /\ numberOfVideos (payload_config payload) = 1.
Proof.
  intros params overridePrompt v.
  destruct (buildPayload_override_video params overridePrompt v)
    as [payload [Hb [Hv [Hi [Ha [Hl Hr]]]]]].
  exists payload. repeat (split; [assumption|]).
  split.
  - rewrite (buildPayload_prompt _ _ _ _ Hb).
    rewrite basePrompt_extension; [reflexivity|].
    unfold isExtensionOperation. cbn. apply orb_true_r.
  - unfold buildPayload in Hb. inversion Hb. cbn. auto.
Qed.

(** X2.  In [REFERENCES_TO_VIDEO], and in [STORY_MODE] with reference
    images, a build without prior video lists the reference images in input
    order, each tagged [ASSET], followed by the style image, tagged [STYLE],
    when there is one, each as its encoded bytes and the MIME type of its
    file; the field is left out when there is nothing to list.  No frame and
    no video is set. *)
Theorem X2_reference_images_then_style :
  forall (params : GenerateVideoParams) (overridePrompt : option string),
    mode params = REFERENCES_TO_VIDEO
    \/ (mode params = STORY_MODE /\ references_of params <> []) ->
    exists payload,
      buildPayload params overridePrompt None = Return payload
      /\ payload_image payload = None
      /\ payload_video payload = None
      /\ lastFrame (payload_config payload) = None
      /\ match config_referenceImages (payload_config payload) with
         | None => references_of params = [] /\ styleImage params = None
         | Some l =>
             l <> []
             /\ map image l
                = map (fun img => {| imageBytes := base64 img;
                                     mimeType := file_type (file img) |})
                      (references_of params ++ style_of params)%list
             /\ map referenceType l
                = (repeat ASSET (length (references_of params))
                     ++ repeat STYLE (length (style_of params)))%list
         end.
Proof.
  intros params overridePrompt Hmode.
  assert (Hb : buildPayload params overridePrompt None
               = Return
                   {| payload_model := model params;
                      payload_config :=
                        {| numberOfVideos := 1;
                           config_resolution := resolution params;
                           config_aspectRatio := Some (aspectRatio params);
                           lastFrame := None;
                           config_referenceImages :=
                             if Nat.ltb 0 (length (referenceImagesPayload params))
                             then Some (referenceImagesPayload params)
                             else None |};
                      payload_prompt :=
                        if truthy (activePrompt params overridePrompt None)
                        then Some (activePrompt params overridePrompt None)
                        else None;
                      payload_image := None;
                      payload_video := None |}).
  { destruct Hmode as [Hm|[Hm Hrefs]].
    - unfold buildPayload, isExtensionOperation. rewrite Hm. reflexivity.
    - unfold buildPayload, isExtensionOperation. rewrite Hm.
      rewrite references_of_length.
      destruct (references_of params); [congruence|reflexivity]. }
  eexists. split; [exact Hb|]. cbn.
  repeat (split; [reflexivity|]).
  destruct (referenceImagesPayload_shape params) as [Himg Hty].
  destruct (referenceImagesPayload params) as [|r l] eqn:Hl; cbn.
  - symmetry in Himg. apply map_eq_nil in Himg.
    apply app_eq_nil in Himg. destruct Himg as [H1 H2]. split; [exact H1|].
    unfold style_of in H2. destruct (styleImage params); [discriminate|reflexivity].
  - split; [discriminate|]. split; assumption.
Qed.

(** X3.  In [EXTEND_VIDEO] with [inputVideoObject] and no prior video, the
    submission carries that video and no aspect ratio, frame or reference
    image; its prompt is the base prompt, without reference labels, and is
    left out when empty. *)
Theorem X3_extend_submits_input_video :
  forall (params : GenerateVideoParams) (overridePrompt : option string)
         (v : Video),
    mode params = EXTEND_VIDEO ->
    inputVideoObject params = Some v ->
    exists payload,
      buildPayload params overridePrompt None = Return payload
      /\ payload_video payload = Some v
      /\ config_aspectRatio (payload_config payload) = None
      /\ payload_image payload = None
      /\ lastFrame (payload_config payload) = None
      /\ config_referenceImages (payload_config payload) = None
      /\ payload_prompt payload
         = prompt_field (basePrompt params overridePrompt).
Proof.
  intros params overridePrompt v Hmode Hin.
  assert (Hext : isExtensionOperation params None = true)
    by (unfold isExtensionOperation; rewrite Hmode; reflexivity).
  assert (Hb : exists payload,
             buildPayload params overridePrompt None = Return payload
             /\ payload_video payload = Some v
             /\ config_aspectRatio (payload_config payload) = None
             /\ payload_image payload = None
             /\ lastFrame (payload_config payload) = None
             /\ config_referenceImages (payload_config payload) = None).
  { unfold buildPayload, isExtensionOperation. rewrite Hmode, Hin.
    eexists. split; [reflexivity|]. cbn. auto. }
  destruct Hb as [payload [Hb Hrest]].
  exists payload. split; [exact Hb|].
  repeat (split; [apply Hrest|]).
  rewrite (buildPayload_prompt _ _ _ _ Hb).
  rewrite (basePrompt_extension _ _ _ Hext). reflexivity.
Qed.


(** * More on one cycle *)

(** Replies that are all not done leave the loop polling for one more. *)
Lemma whileNotDone_all_running (running : list Operation) :
  forall operation : Operation,
    is_done operation = false ->
    Forall (fun o => is_done o = false) running ->
    whileNotDone (map Resolve running) operation
    = (PendingForever, [], rounds (operation :: running)).
Proof.
  induction running as [|next more IH]; intros operation Hop Hrun.
  - cbn [map whileNotDone]. rewrite Hop. reflexivity.
  - inversion Hrun as [|? ? Hnext Hmore]; subst.
    cbn [map whileNotDone]. rewrite Hop.
    rewrite (IH next Hnext Hmore). reflexivity.
Qed.

(** A rejected poll ends the loop. *)
Lemma whileNotDone_rejecting (running : list Operation) :
  forall (operation : Operation) (reason : string)
         (later : list (Reply Operation)),
    is_done operation = false ->
    Forall (fun o => is_done o = false) running ->
    whileNotDone (map Resolve running ++ Reject reason :: later) operation
    = (Rejected (RemoteFailure reason), later, rounds (operation :: running)).
Proof.
  induction running as [|next more IH]; intros operation reason later Hop Hrun.
  - cbn [map List.app whileNotDone]. rewrite Hop. reflexivity.
  - inversion Hrun as [|? ? Hnext Hmore]; subst.
    cbn [map List.app whileNotDone]. rewrite Hop.
    rewrite (IH next reason later Hnext Hmore). reflexivity.
Qed.

Lemma polled_submit_rounds (payload : Payload) (ops : list Operation)
    (tr : list Event) :
  polled (tr ++ EvSubmit payload :: rounds ops) = (polled tr ++ ops)%list
  /\ fetched (tr ++ EvSubmit payload :: rounds ops) = fetched tr
  /\ submitted (tr ++ EvSubmit payload :: rounds ops)
     = (submitted tr ++ [payload])%list.
Proof.
  destruct (rounds_no_submit_no_fetch ops) as [Hs [Hf Hp]].
  change (EvSubmit payload :: rounds ops)
    with ([EvSubmit payload] ++ rounds ops)%list.
  rewrite !polled_app, !fetched_app, !submitted_app, Hs, Hf, Hp. cbn.
  rewrite !app_nil_r. auto.
Qed.

(** What a loop that ends has read: the replies up to the first that is
    done, which it ends with; it has polled for every operation before. *)
Lemma last_cons_default {A : Type} (l : list A) :
  forall a d : A, last (a :: l) d = last l a.
Proof.
  induction l as [|b l IH]; intros a d; [reflexivity|].
  change (last (a :: b :: l) d) with (last (b :: l) d).
  rewrite (IH b d), (IH b a). reflexivity.
Qed.

Lemma whileNotDone_fulfilled_inv (script : list (Reply Operation)) :
  forall (operation final : Operation) (unread : list (Reply Operation))
         (evs : list Event),
    whileNotDone script operation = (Fulfilled final, unread, evs) ->
    exists replies,
      script = (map Resolve replies ++ unread)%list
      /\ final = last replies operation
      /\ evs = rounds (removelast (operation :: replies))
      /\ Forall (fun o => done o <> Some true)
                (removelast (operation :: replies))
      /\ done final = Some true.
Proof.
  induction script as [|r rest IH]; intros operation final unread evs;
    cbn [whileNotDone]; destruct (is_done operation) eqn:Hd;
    try discriminate.
  - intro H; inversion H; subst. exists []. cbn.
    apply is_done_true in Hd. auto.
  - intro H; inversion H; subst. exists []. cbn.
    apply is_done_true in Hd. auto.
  - destruct r as [next|reason]; [|discriminate].
    destruct (whileNotDone rest next) as [[p unread'] evs'] eqn:E.
    intro H; inversion H; subst.
    destruct (IH next final unread evs' E)
      as [replies [-> [-> [-> [Hrun Hfin]]]]].
    exists (next :: replies).
    split; [reflexivity|].
    split; [symmetry; apply last_cons_default|].
    change (removelast (operation :: next :: replies))
      with (operation :: removelast (next :: replies)).
    split; [reflexivity|]. split; [|exact Hfin].
    constructor; [apply is_done_false, Hd|exact Hrun].
Qed.

(** What a cycle that ends has read and done. *)
Lemma cycle_fulfilled_inv (payload : Payload) (w w1 : World)
    (final : Operation) :
  (operation <- generateVideos payload ;; pollUntilDone operation) w
  = (Fulfilled final, w1) ->
  exists started replies,
    submits w = Resolve started :: submits w1
    /\ polls w = (map Resolve replies ++ polls w1)%list
    /\ fetches w1 = fetches w
    /\ final = last replies started
    /\ Forall (fun o => done o <> Some true)
              (removelast (started :: replies))
    /\ done final = Some true
    /\ trace w1
       = (trace w ++ EvSubmit payload
            :: rounds (removelast (started :: replies)))%list.
Proof.
  unfold bind, generateVideos. cbn [emit submits].
  destruct (submits w) as [|[started|reason] rest]; try discriminate.
  cbn [settle]. unfold pollUntilDone. cbn [set_submits emit polls].
  destruct (whileNotDone (polls w) started) as [[p unread] evs] eqn:E.
  intro H; inversion H; subst.
  destruct (whileNotDone_fulfilled_inv _ _ _ _ _ E)
    as [replies [Hp [Hl [Hevs [Hrun Hfin]]]]].
  exists started, replies.
  cbn [set_polls set_submits emit submits polls fetches trace].
  split; [reflexivity|]. split; [exact Hp|]. split; [reflexivity|].
  split; [exact Hl|]. split; [exact Hrun|]. split; [exact Hfin|].
  rewrite Hevs, <- app_assoc. reflexivity.
Qed.

(** What a fulfilled [retrieve] has read and done. *)
Lemma retrieve_fulfilled_inv (operation : Operation) (w w' : World)
    (r : GenerationResult) :
  retrieve operation w = (Fulfilled r, w') ->
  exists resp first others u res rest,
    response operation = Some resp
    /\ generatedVideos resp = Some (first :: others)
    /\ gv_video first = Some (video r)
    /\ video_uri (video r) = Some u /\ u <> ""
    /\ decodeURIComponent u = Some (uri r)
    /\ fetches w = Resolve res :: rest
    /\ ok res = true
    /\ body res = Resolve (blob r)
    /\ objectUrl r = "blob:" ++ string_of_nat (objectUrls w)
    /\ w' = {| submits := submits w; polls := polls w; fetches := rest;
               trace := (trace w ++ [EvFetch (uri r ++ "&key=" ++ API_KEY)])%list;
               objectUrls := S (objectUrls w) |}.
Proof.
  unfold retrieve.
  destruct (response operation) as [resp|] eqn:Hresp; [|discriminate].
  destruct (generatedVideos resp) as [[|first others]|] eqn:Hvideos;
    try discriminate.
  destruct (video_with_uri first) as [[v u]|] eqn:Hu; [|discriminate].
  apply video_with_uri_some in Hu. destruct Hu as [Hv [Hu Hne]].
  unfold bind, decode.
  destruct (decodeURIComponent u) as [url|] eqn:Hdec; [|discriminate].
  unfold ret at 1. unfold fetch. cbn [emit fetches].
  destruct (fetches w) as [|[res|reason] rest]; try discriminate.
  cbn [settle]. destruct (ok res) eqn:Hok; cbn [negb]; [|discriminate].
  unfold blob_of. destruct (body res) as [b|reason] eqn:Hbody;
    cbn [settle]; [|discriminate].
  unfold createObjectURL, ret.
  intro H; inversion H; subst; clear H. cbn [video uri blob objectUrl].
  exists resp, first, others, u, res, rest.
  repeat match goal with |- _ /\ _ => split end; auto.
Qed.

(** X4.  The loop has no way out but a reply: when the submitted operation
    and every reply to the polls are not done (their [done] field is not
    [true], for instance [false]), the call has polled once more
    than it got replies, each time after ten seconds, and is still waiting;
    nothing has been fetched. *)
Theorem X4_polling_goes_on_while_not_done :
  forall (params : GenerateVideoParams) (overridePrompt : option string)
         (overrideVideoInput : option Video) (payload : Payload) (w : World)
         (started : Operation) (running : list Operation)
         (others : list (Reply Operation)),
    buildPayload params overridePrompt overrideVideoInput = Return payload ->
    submits w = Resolve started :: others ->
    done started <> Some true ->
    polls w = map Resolve running ->
    Forall (fun o => done o <> Some true) running ->
    exists w',
      performGeneration params overridePrompt overrideVideoInput w
      = (PendingForever, w')
      /\ trace w'
         = (trace w ++ EvSubmit payload :: rounds (started :: running))%list
      /\ length (polled (trace w'))
         = length (polled (trace w)) + S (length running)
      /\ fetched (trace w') = fetched (trace w)
      /\ fetches w' = fetches w.
Proof.
  intros params overridePrompt overrideVideoInput payload w started running
         others Hb Hsub Hstarted Hpolls Hrunning.
  apply is_done_false in Hstarted. apply not_done_all in Hrunning.
  rewrite (performGeneration_cycle params overridePrompt overrideVideoInput
             payload w Hb).
  unfold bind, generateVideos. cbn [emit submits]. rewrite Hsub.
  cbn [settle]. unfold pollUntilDone. cbn [set_submits emit polls].
  rewrite Hpolls, (whileNotDone_all_running running started Hstarted Hrunning).
  eexists. split; [reflexivity|].
  cbn [set_polls emit set_submits trace fetches].
  rewrite <- app_assoc. cbn [List.app].
  destruct (polled_submit_rounds payload (started :: running) (trace w))
    as [Hp [Hf _]].
  split; [reflexivity|]. rewrite Hp, Hf, length_app. auto.
Qed.

(** X5.  A rejected submission ends the call with the remote failure: the
    job is neither polled nor fetched, and no poll or fetch reply is
    consumed. *)
Theorem X5_rejected_submission_propagates :
  forall (params : GenerateVideoParams) (overridePrompt : option string)
         (overrideVideoInput : option Video) (payload : Payload) (w : World)
         (reason : string) (others : list (Reply Operation)),
    buildPayload params overridePrompt overrideVideoInput = Return payload ->
    submits w = Reject reason :: others ->
    exists w',
      performGeneration params overridePrompt overrideVideoInput w
      = (Rejected (RemoteFailure reason), w')
      /\ trace w' = (trace w ++ [EvSubmit payload])%list
      /\ polls w' = polls w /\ fetches w' = fetches w
      /\ submits w' = others.
Proof.
  intros params overridePrompt overrideVideoInput payload w reason others
         Hb Hsub.
  rewrite (performGeneration_cycle params overridePrompt overrideVideoInput
             payload w Hb).
  unfold bind, generateVideos. cbn [emit submits]. rewrite Hsub.
  cbn [settle]. eexists. split; [reflexivity|]. cbn. auto.
Qed.

(** X6.  A poll that is rejected after replies that are not done (their
    [done] field is not [true], for instance [false]) ends the call with the
    remote failure, after the polls made so far; nothing is fetched. *)
Theorem X6_rejected_poll_propagates :
  forall (params : GenerateVideoParams) (overridePrompt : option string)
         (overrideVideoInput : option Video) (payload : Payload) (w : World)
         (started : Operation) (running : list Operation) (reason : string)
         (others later : list (Reply Operation)),
    buildPayload params overridePrompt overrideVideoInput = Return payload ->
    submits w = Resolve started :: others ->
    done started <> Some true ->
    polls w = (map Resolve running ++ Reject reason :: later)%list ->
    Forall (fun o => done o <> Some true) running ->
    exists w',
      performGeneration params overridePrompt overrideVideoInput w
      = (Rejected (RemoteFailure reason), w')
      /\ trace w'
         = (trace w ++ EvSubmit payload :: rounds (started :: running))%list
      /\ polled (trace w') = (polled (trace w) ++ started :: running)%list
      /\ fetched (trace w') = fetched (trace w)
      /\ polls w' = later /\ fetches w' = fetches w.
Proof.
  intros params overridePrompt overrideVideoInput payload w started running
         reason others later Hb Hsub Hstarted Hpolls Hrunning.
  apply is_done_false in Hstarted. apply not_done_all in Hrunning.
  rewrite (performGeneration_cycle params overridePrompt overrideVideoInput
             payload w Hb).
  unfold bind, generateVideos. cbn [emit submits]. rewrite Hsub.
  cbn [settle]. unfold pollUntilDone. cbn [set_submits emit polls].
  rewrite Hpolls,
    (whileNotDone_rejecting running started reason later Hstarted Hrunning).
  eexists. split; [reflexivity|].
  cbn [set_polls emit set_submits trace fetches polls].
  rewrite <- app_assoc. cbn [List.app].
  destruct (polled_submit_rounds payload (started :: running) (trace w))
    as [Hp [Hf _]].
  split; [reflexivity|]. rewrite Hp, Hf. auto.
Qed.

(** X7.  When the fetch answers with a response that is not [ok], the call
    fails with "Failed to fetch video: <status> <statusText>"; the one fetch
    has been made, at the decoded location followed by "&key=" and the key,
    and no object URL has been created. *)
Theorem X7_fetch_not_ok_reports_status :
  forall (operation : Operation) (resp : GenerateVideosResponse)
         (first : GeneratedVideo) (others : list GeneratedVideo) (v : Video)
         (u url : string) (w : World) (res : FetchResponse)
         (rest : list (Reply FetchResponse)),
    response operation = Some resp ->
    generatedVideos resp = Some (first :: others) ->
    gv_video first = Some v -> video_uri v = Some u -> u <> "" ->
    decodeURIComponent u = Some url ->
    fetches w = Resolve res :: rest ->
    ok res = false ->
    exists w',
      retrieve operation w
      = (Rejected (Error ("Failed to fetch video: "
                          ++ string_of_nat (status res) ++ " "
                          ++ statusText res)), w')
      /\ trace w' = (trace w ++ [EvFetch (url ++ "&key=" ++ API_KEY)])%list
      /\ fetches w' = rest
      /\ objectUrls w' = objectUrls w.
Proof.
  intros operation resp first others v u url w res rest
         Hresp Hvideos Hv Hu Hne Hdec Hfetch Hok.
  assert (Hwu : video_with_uri first = Some (v, u))
    by (apply video_with_uri_some; auto).
  unfold retrieve. rewrite Hresp, Hvideos, Hwu.
  unfold bind, decode. rewrite Hdec. unfold ret at 1.
  unfold fetch. cbn [emit fetches]. rewrite Hfetch. cbn [settle].
  rewrite Hok. cbn [negb]. eexists. split; [reflexivity|]. cbn. auto.
Qed.

(** X8.  A result, when [performGeneration] yields one, is made of the
    replies that the call consumed: the operation returned by the
    submission, the replies to the polls, all read from the head of their
    scripts, and the response of one fetch.  The operation the loop ended
    with is the last of these replies (the submitted one when no poll was
    made); its [done] is [true], while every operation before it was not
    done and was polled for after ten seconds.  The result's [video] is the
    first generated video of the response of that operation; its [uri] is
    not empty and decodes to the result's [uri]; the asset was fetched last,
    at that [uri] followed by "&key=" and the key; the response was [ok] and
    its body is the result's [blob].  Exactly one payload was submitted. *)
Theorem X8_result_is_the_first_video_fetched :
  forall (params : GenerateVideoParams) (overridePrompt : option string)
         (overrideVideoInput : option Video) (w w' : World)
         (r : GenerationResult),
    performGeneration params overridePrompt overrideVideoInput w
    = (Fulfilled r, w') ->
    exists payload started replies operation resp first others u res,
      buildPayload params overridePrompt overrideVideoInput = Return payload
      /\ submits w = Resolve started :: submits w'
      /\ polls w = (map Resolve replies ++ polls w')%list
      /\ fetches w = Resolve res :: fetches w'
      /\ operation = last replies started
      /\ Forall (fun o => done o <> Some true)
                (removelast (started :: replies))
      /\ done operation = Some true
      /\ response operation = Some resp
      /\ generatedVideos resp = Some (first :: others)
      /\ gv_video first = Some (video r)
      /\ video_uri (video r) = Some u /\ u <> ""
      /\ decodeURIComponent u = Some (uri r)
      /\ trace w'
         = (trace w ++ EvSubmit payload
              :: rounds (removelast (started :: replies))
              ++ [EvFetch (uri r ++ "&key=" ++ API_KEY)])%list
      /\ ok res = true /\ body res = Resolve (blob r).
Proof.
  intros params overridePrompt overrideVideoInput w w' r.
  destruct (buildPayload_returns params overridePrompt overrideVideoInput)
    as [[_ [_ [_ Hb]]]|[payload Hb]].
  - unfold performGeneration. rewrite Hb. cbn. discriminate.
  - rewrite (performGeneration_cycle params overridePrompt overrideVideoInput
               payload w Hb).
    destruct ((operation <- generateVideos payload ;; pollUntilDone operation) w)
      as [[op|e|] w1] eqn:Hc; try discriminate.
    intro Hr.
    destruct (cycle_fulfilled_inv payload w w1 op Hc)
      as [started [replies [Hs [Hp [Hf [Hl [Hrun [Hfin Ht1]]]]]]]].
    destruct (retrieve_fulfilled_inv op w1 w' r Hr)
      as [resp [first [others [u [res [rest
            [H1 [H2 [H3 [H4 [H5 [H6 [H7 [H8 [H9 [_ Hw']]]]]]]]]]]]]]]].
    exists payload, started, replies, op, resp, first, others, u, res.
    split; [exact Hb|].
    split; [subst w'; exact Hs|].
    split; [subst w'; exact Hp|].
    split; [subst w'; cbn [fetches]; congruence|].
    split; [exact Hl|]. split; [exact Hrun|]. split; [exact Hfin|].
    split; [exact H1|]. split; [exact H2|]. split; [exact H3|].
    split; [exact H4|]. split; [exact H5|]. split; [exact H6|].
    split; [|split; [exact H8|exact H9]].
    subst w'. cbn [trace]. rewrite Ht1, <- app_assoc. reflexivity.
Qed.

(** X9.  When the cycle ends on an operation that is done but has no
    response, the call fails with "No videos generated." and nothing is
    fetched. *)
Theorem X9_done_without_response_fails :
  forall (params : GenerateVideoParams) (overridePrompt : option string)
         (overrideVideoInput : option Video) (payload : Payload)
         (w w1 : World) (operation : Operation),
    buildPayload params overridePrompt overrideVideoInput = Return payload ->
    (started <- generateVideos payload ;; pollUntilDone started) w
    = (Fulfilled operation, w1) ->
    response operation = None ->
    performGeneration params overridePrompt overrideVideoInput w
    = (Rejected GenerationFailed, w1)
    /\ fetched (trace w1) = fetched (trace w)
    /\ fetches w1 = fetches w.
Proof.
  intros params overridePrompt overrideVideoInput payload w w1 operation
         Hb Hcycle Hresp.
  rewrite (performGeneration_cycle params overridePrompt overrideVideoInput
             payload w Hb), Hcycle.
  destruct (cycle_trace payload w w1 _ Hcycle) as [[ops Ht] [Hf _]].
  split; [apply retrieve_no_response, Hresp|].
  split; [|exact Hf].
  rewrite Ht. apply (polled_submit_rounds payload ops (trace w)).
Qed.

(** X10.  When [decodeURIComponent] throws on the location of the first
    video, the call fails with its [URIError] and nothing is fetched. *)
Theorem X10_malformed_location_is_not_fetched :
  forall (params : GenerateVideoParams) (overridePrompt : option string)
         (overrideVideoInput : option Video) (payload : Payload)
         (w w1 : World) (operation : Operation) (resp : GenerateVideosResponse)
         (first : GeneratedVideo) (others : list GeneratedVideo) (v : Video)
         (u : string),
    buildPayload params overridePrompt overrideVideoInput = Return payload ->
    (started <- generateVideos payload ;; pollUntilDone started) w
    = (Fulfilled operation, w1) ->
    response operation = Some resp ->
    generatedVideos resp = Some (first :: others) ->
    gv_video first = Some v -> video_uri v = Some u -> u <> "" ->
    decodeURIComponent u = None ->
    performGeneration params overridePrompt overrideVideoInput w
    = (Rejected URIError, w1)
    /\ fetched (trace w1) = fetched (trace w)
    /\ fetches w1 = fetches w.
Proof.
  intros params overridePrompt overrideVideoInput payload w w1 operation resp
         first others v u Hb Hcycle Hresp Hvideos Hv Hu Hne Hdec.
  rewrite (performGeneration_cycle params overridePrompt overrideVideoInput
             payload w Hb), Hcycle.
  destruct (cycle_trace payload w w1 _ Hcycle) as [[ops Ht] [Hf _]].
  assert (Hwu : video_with_uri first = Some (v, u))
    by (apply video_with_uri_some; auto).
  pose proof (retrieve_with_uri operation resp first others v u w1
                Hresp Hvideos Hwu) as Hr.
  rewrite Hdec in Hr. split; [exact Hr|]. split; [|exact Hf].
  rewrite Ht. apply (polled_submit_rounds payload ops (trace w)).
Qed.


(** * More on [generateVideo] *)

Lemma retrieve_tail (operation : Operation) (w : World) :
  exists tail,
    trace (snd (retrieve operation w)) = (trace w ++ tail)%list
    /\ submitted tail = [] /\ length (fetched tail) <= 1.
Proof.
  destruct (response operation) as [resp|] eqn:Hresp;
    [|rewrite (retrieve_no_response operation w Hresp);
      exists []; cbn; rewrite app_nil_r; auto].
  destruct (generatedVideos resp) as [[|first others]|] eqn:Hv;
    try (rewrite (retrieve_no_videos operation resp w Hresp);
         [exists []; cbn; rewrite app_nil_r; auto|solve [auto]]).
  destruct (video_with_uri first) as [[v u]|] eqn:Hu;
    [|rewrite (retrieve_no_uri operation resp first others w Hresp Hv Hu);
      exists []; cbn; rewrite app_nil_r; auto].
  pose proof (retrieve_with_uri operation resp first others v u w Hresp Hv Hu) as Hr.
  destruct (decodeURIComponent u) as [url|].
  - destruct Hr as [p [w1 [Hr [Ht _]]]]. rewrite Hr. cbn [snd].
    exists [EvFetch (url ++ "&key=" ++ API_KEY)]. cbn. auto.
  - rewrite Hr. exists []. cbn. rewrite app_nil_r. auto.
Qed.

(** The calls of one [performGeneration], however it ends: none when the
    build throws; else the submission first, then polls, then at most one
    fetch. *)
Lemma performGeneration_calls (params : GenerateVideoParams)
    (overridePrompt : option string) (overrideVideoInput : option Video)
    (w : World) :
  (buildPayload params overridePrompt overrideVideoInput
   = Throw MissingExtensionSource
   /\ performGeneration params overridePrompt overrideVideoInput w
      = (Rejected MissingExtensionSource, w))
  \/ exists payload tail,
      buildPayload params overridePrompt overrideVideoInput = Return payload
      /\ trace (snd (performGeneration params overridePrompt
                       overrideVideoInput w))
         = (trace w ++ EvSubmit payload :: tail)%list
      /\ submitted tail = [] /\ length (fetched tail) <= 1.
Proof.
  destruct (buildPayload_returns params overridePrompt overrideVideoInput)
    as [[_ [_ [_ Hb]]]|[payload Hb]].
  - left. split; [exact Hb|]. unfold performGeneration. rewrite Hb. reflexivity.
  - right. exists payload.
    rewrite (performGeneration_cycle params overridePrompt overrideVideoInput
               payload w Hb).
    destruct ((operation <- generateVideos payload ;; pollUntilDone operation) w)
      as [p w1] eqn:Hc.
    destruct (cycle_trace payload w w1 p Hc) as [[ops Ht] _].
    destruct (rounds_no_submit_no_fetch ops) as [Hs [Hf _]].
    destruct p as [op|e|].
    + destruct (retrieve_tail op w1) as [tail [Htail [Hts Htf]]].
      exists (rounds ops ++ tail)%list. split; [exact Hb|].
      rewrite Htail, Ht, <- app_assoc. split; [reflexivity|].
      rewrite submitted_app, fetched_app, Hs, Hf, Hts. cbn. auto.
    + exists (rounds ops). cbn [snd]. rewrite Hs, Hf. cbn. auto.
    + exists (rounds ops). cbn [snd]. rewrite Hs, Hf. cbn. auto.
Qed.

(** A step of the story loop that can read its predecessor builds without
    throwing, and so submits exactly once, however it ends. *)
Lemma storyStep_calls (params : GenerateVideoParams) (i : nat) (p : string)
    (cur : option GenerationResult) (w : World) :
  i = 0 \/ cur <> None ->
  exists payload tail,
    step_submission params i p cur = Return payload
    /\ trace (snd (storyStep params i p cur w))
       = (trace w ++ EvSubmit payload :: tail)%list
    /\ submitted tail = [] /\ length (fetched tail) <= 1.
Proof.
  intro Hi. unfold storyStep, step_submission.
  destruct (Nat.eqb i 0) eqn:E.
  - destruct (performGeneration_calls (first_step_params params p) None None w)
      as [[Hb _]|H]; [|exact H].
    exfalso. revert Hb. unfold buildPayload. cbn.
    destruct (Nat.eqb (referenceImages_length (first_step_params params p)) 0);
      cbn; discriminate.
  - destruct cur as [prev|].
    + destruct (performGeneration_calls params (Some p) (Some (video prev)) w)
        as [[Hb _]|H]; [|exact H].
      destruct (buildPayload_override_video params (Some p) (video prev))
        as [pl [Hpl _]]. congruence.
    + destruct Hi as [->|Hc]; [discriminate|congruence].
Qed.

Lemma storyLoop_calls (params : GenerateVideoParams) (prompts : list string) :
  forall (i : nat) (cur : option GenerationResult) (w : World),
    i = 0 \/ cur <> None ->
    exists evs,
      trace (snd (storyLoop params i prompts cur w)) = (trace w ++ evs)%list
      /\ length (submitted evs) <= length prompts
      /\ length (fetched evs) <= length (submitted evs)
      /\ (submitted evs = [] -> evs = []).
Proof.
  induction prompts as [|p ps IH]; intros i cur w Hi.
  - exists []. cbn. rewrite app_nil_r. auto.
  - cbn [storyLoop]. unfold bind at 1.
    destruct (storyStep_calls params i p cur w Hi)
      as [payload [tail [_ [Ht [Hs Hf]]]]].
    destruct (storyStep params i p cur w) as [[r|e|] w1] eqn:Hstep;
      cbn [snd] in Ht.
    + destruct (IH (S i) (Some r) w1 ltac:(right; discriminate))
        as [evs [Hevs [Hn [Hfe _]]]].
      exists ((EvSubmit payload :: tail) ++ evs)%list.
      rewrite Hevs, Ht, <- app_assoc. split; [reflexivity|].
      rewrite submitted_app, fetched_app, !length_app.
      change (EvSubmit payload :: tail) with ([EvSubmit payload] ++ tail)%list.
      rewrite submitted_app, fetched_app, Hs. cbn [submitted fetched flat_map
        List.app length]. cbn in Hf |- *.
      repeat split; try lia. discriminate.
    + exists (EvSubmit payload :: tail). cbn [snd]. split; [exact Ht|].
      change (EvSubmit payload :: tail) with ([EvSubmit payload] ++ tail)%list.
      rewrite submitted_app, fetched_app, Hs. cbn in Hf |- *.
      repeat split; try lia. discriminate.
    + exists (EvSubmit payload :: tail). cbn [snd]. split; [exact Ht|].
      change (EvSubmit payload :: tail) with ([EvSubmit payload] ++ tail)%list.
      rewrite submitted_app, fetched_app, Hs. cbn in Hf |- *.
      repeat split; try lia. discriminate.
Qed.

(** The payload of the branch of lines 95-123. *)
Lemma buildPayload_references (params : GenerateVideoParams)
    (overridePrompt : option string) :
  mode params = REFERENCES_TO_VIDEO
  \/ (mode params = STORY_MODE /\ references_of params <> []) ->
  buildPayload params overridePrompt None
  = Return
      {| payload_model := model params;
         payload_config :=
           {| numberOfVideos := 1;
              config_resolution := resolution params;
              config_aspectRatio := Some (aspectRatio params);
              lastFrame := None;
              config_referenceImages :=
                if Nat.ltb 0 (length (referenceImagesPayload params))
                then Some (referenceImagesPayload params)
                else None |};
         payload_prompt :=
           if truthy (activePrompt params overridePrompt None)
           then Some (activePrompt params overridePrompt None)
           else None;
         payload_image := None;
         payload_video := None |}
  /\ length (referenceImagesPayload params)
     = length (references_of params ++ style_of params)%list.
Proof.
  intro Hmode. split.
  - destruct Hmode as [Hm|[Hm Hrefs]].
    + unfold buildPayload, isExtensionOperation. rewrite Hm. reflexivity.
    + unfold buildPayload, isExtensionOperation. rewrite Hm.
      rewrite references_of_length.
      destruct (references_of params); [congruence|reflexivity].
  - destruct (referenceImagesPayload_shape params) as [Himg _].
    apply (f_equal (@length Image)) in Himg.
    rewrite !length_map in Himg. exact Himg.
Qed.

(** X11.  However a call of [generateVideo] ends, it only adds calls to the
    trace; it has submitted at most one job for each story prompt (one job on
    the single-step path), it has fetched at most once for each job
    submitted, and it has polled or fetched nothing when it has submitted
    nothing. *)
Theorem X11_calls_are_bounded_by_the_steps :
  forall (params : GenerateVideoParams) (w : World),
    exists evs,
      trace (snd (generateVideo params w)) = (trace w ++ evs)%list
      /\ length (submitted evs) <= steps_of params
      /\ length (fetched evs) <= length (submitted evs)
      /\ (submitted evs = [] -> evs = []).
Proof.
  intros params w.
  assert (Hsingle :
            exists evs,
              trace (snd (performGeneration params None None w))
              = (trace w ++ evs)%list
              /\ length (submitted evs) <= 1
              /\ length (fetched evs) <= length (submitted evs)
              /\ (submitted evs = [] -> evs = [])).
  { destruct (performGeneration_calls params None None w)
      as [[_ Hp]|[payload [tail [_ [Ht [Hs Hf]]]]]].
    - rewrite Hp. exists []. cbn. rewrite app_nil_r. auto.
    - exists (EvSubmit payload :: tail). split; [exact Ht|].
      change (EvSubmit payload :: tail) with ([EvSubmit payload] ++ tail)%list.
      rewrite submitted_app, fetched_app, Hs. cbn in Hf |- *.
      repeat split; try lia. discriminate. }
  unfold generateVideo, steps_of.
  destruct (mode params); try exact Hsingle.
  destruct (storyPrompts params) as [[|first others]|]; try exact Hsingle.
  unfold bind at 1.
  destruct (storyLoop_calls params (first :: others) 0 None w
              (or_introl eq_refl)) as [evs Hevs].
  exists evs.
  destruct (storyLoop params 0 (first :: others) None w) as [[[r|]|e|] w1];
    exact Hevs.
Qed.

(** X12.  Outside [STORY_MODE], and in [STORY_MODE] when [storyPrompts] is
    absent or empty, [generateVideo] is one [performGeneration] on the
    request as it is, without overrides: the prompt submitted is the
    request's own, followed by the reference labels when the mode is not
    [EXTEND_VIDEO]. *)
Theorem X12_single_step_without_story_prompts :
  forall (params : GenerateVideoParams) (w : World),
    mode params <> STORY_MODE
    \/ storyPrompts params = None \/ storyPrompts params = Some [] ->
    generateVideo params w = performGeneration params None None w
    /\ (forall payload,
           buildPayload params None None = Return payload ->
           payload_prompt payload
           = prompt_field
               (if mode_eqb (mode params) EXTEND_VIDEO then prompt params
                else spec_effective_prompt (prompt params)
                                           (references_of params))).
Proof.
  intros params w H. split.
  - unfold generateVideo.
    destruct (mode params) eqn:Hm; try reflexivity.
    destruct H as [H|[H|H]]; [congruence| |]; rewrite H; reflexivity.
  - intros payload Hb. rewrite (buildPayload_prompt _ _ _ _ Hb).
    destruct (mode_eqb (mode params) EXTEND_VIDEO) eqn:Hm.
    + rewrite basePrompt_extension; [reflexivity|].
      unfold isExtensionOperation. rewrite Hm. reflexivity.
    + apply mode_eqb_neq in Hm. rewrite (activePrompt_spec params None Hm).
      reflexivity.
Qed.

(** X13.  On the story path, the first thing [generateVideo] does, however
    the call ends, is to submit the job of the first step.  Its prompt is the
    first story prompt followed by the reference labels: the request's own
    [prompt] is not used.  It carries the aspect ratio and no video or frame;
    it lists reference images exactly when the request has some, so that a
    style image alone is not sent. *)
Theorem X13_first_story_step_submission :
  forall (params : GenerateVideoParams) (first : string)
         (others : list string) (w : World),
    mode params = STORY_MODE ->
    storyPrompts params = Some (first :: others) ->
    exists payload tail,
      buildPayload (first_step_params params first) None None = Return payload
      /\ trace (snd (generateVideo params w))
         = (trace w ++ EvSubmit payload :: tail)%list
      /\ payload_prompt payload
         = prompt_field (spec_effective_prompt first (references_of params))
      /\ config_aspectRatio (payload_config payload)
         = Some (aspectRatio params)
      /\ payload_video payload = None
      /\ payload_image payload = None
      /\ lastFrame (payload_config payload) = None
      /\ (config_referenceImages (payload_config payload) = None
          <-> references_of params = []).
Proof.
  intros params first others w Hmode Hprompts.
  destruct (storyStep_calls params 0 first None w (or_introl eq_refl))
    as [payload [tail [Hb [Ht _]]]].
  unfold step_submission in Hb. cbn [Nat.eqb] in Hb.
  assert (Htrace : exists tail',
             trace (snd (generateVideo params w))
             = (trace w ++ EvSubmit payload :: tail')%list).
  { unfold generateVideo. rewrite Hmode, Hprompts.
    unfold bind at 1. cbn [storyLoop]. unfold bind at 1.
    destruct (storyStep params 0 first None w) as [[r|e|] w1] eqn:Hstep;
      cbn [snd] in Ht; try (exists tail; exact Ht).
    destruct (storyLoop_calls params others 1 (Some r) w1
                ltac:(right; discriminate)) as [evs [Hevs _]].
    exists (tail ++ evs)%list.
    destruct (storyLoop params 1 others (Some r) w1) as [[[r'|]|e|] w2];
      unfold ret, throw; cbn [snd] in *;
      rewrite Hevs, Ht, <- app_assoc; reflexivity. }
  destruct Htrace as [tail' Htrace].
  exists payload, tail'. split; [exact Hb|]. split; [exact Htrace|].
  split.
  { rewrite (buildPayload_prompt _ _ _ _ Hb).
    rewrite activePrompt_spec by (cbn; discriminate). reflexivity. }
  assert (Hrefs : references_of (first_step_params params first)
                  = references_of params) by reflexivity.
  destruct (references_of params) as [|img rest] eqn:Himgs.
  - assert (Hform : buildPayload (first_step_params params first) None None
                    = Return
                        {| payload_model := model params;
                           payload_config :=
                             {| numberOfVideos := 1;
                                config_resolution := resolution params;
                                config_aspectRatio := Some (aspectRatio params);
                                lastFrame := None;
                                config_referenceImages := None |};
                           payload_prompt :=
                             if truthy (activePrompt
                                          (first_step_params params first)
                                          None None)
                             then Some (activePrompt
                                          (first_step_params params first)
                                          None None)
                             else None;
                           payload_image := None;
                           payload_video := None |}).
    { unfold buildPayload, isExtensionOperation.
      rewrite references_of_length, Hrefs. reflexivity. }
    rewrite Hform in Hb. injection Hb as <-.
    cbn [payload_config payload_video payload_image config_aspectRatio
         lastFrame config_referenceImages].
    repeat (split; [reflexivity|]). split; auto.
  - destruct (buildPayload_references (first_step_params params first) None)
      as [Hform Hlen].
    { right. split; [reflexivity|]. rewrite Hrefs. discriminate. }
    rewrite Hform in Hb. injection Hb as <-.
    cbn [payload_config payload_video payload_image config_aspectRatio
         lastFrame config_referenceImages].
    repeat (split; [reflexivity|]).
    rewrite Hrefs in Hlen. cbn [List.app length] in Hlen.
    destruct (Nat.ltb 0 (length (referenceImagesPayload
                                   (first_step_params params first)))) eqn:E.
    + split; discriminate.
    + apply Nat.ltb_ge in E. lia.
Qed.

(** X14.  In a story run whose steps are fulfilled, every submission after
    the first is an extension: it carries the video of the result before it
    and no aspect ratio, frame or reference image, and its prompt is its
    story prompt, without reference labels; when that story prompt is empty
    the request's own [prompt] is sent in its place. *)
Theorem X14_later_story_steps_are_extensions :
  forall (params : GenerateVideoParams) (prompts : list string)
         (w w' : World) (rs : list GenerationResult),
    StorySteps params 0 None prompts w rs w' ->
    exists payloads,
      submitted (trace w') = (submitted (trace w) ++ payloads)%list
      /\ length payloads = length prompts
      /\ forall k p payload,
          nth_error prompts (S k) = Some p ->
          nth_error payloads (S k) = Some payload ->
          (exists previous,
              nth_error rs k = Some previous
              /\ payload_video payload = Some (video previous))
          /\ config_aspectRatio (payload_config payload) = None
          /\ payload_image payload = None
          /\ lastFrame (payload_config payload) = None
          /\ config_referenceImages (payload_config payload) = None
          /\ payload_prompt payload
             = prompt_field (if p =? "" then prompt params else p).
Proof.
  intros params prompts w w' rs Hs.
  destruct (StorySteps_calls params 0 None prompts w w' rs Hs)
    as [payloads [Hlen [Hsub [_ Hnth]]]].
  exists payloads. split; [exact Hsub|]. split; [exact Hlen|].
  intros k p payload Hp Hpay.
  pose proof (Hnth (S k) p payload Hp Hpay) as Hk.
  cbn [Nat.add] in Hk. unfold step_submission in Hk. cbn [Nat.eqb] in Hk.
  destruct (nth_error rs k) as [previous|]; [|discriminate].
  destruct (buildPayload_override_video params (Some p) (video previous))
    as [pl [Hb [Hv [Hi [Ha [Hl Hr]]]]]].
  rewrite Hb in Hk. inversion Hk; subst pl.
  split; [exists previous; auto|].
  repeat (split; [assumption|]).
  rewrite (buildPayload_prompt _ _ _ _ Hb).
  rewrite basePrompt_extension
    by (unfold isExtensionOperation; cbn; apply orb_true_r).
  unfold basePrompt, or_else, truthy. destruct (p =? ""); reflexivity.
Qed.

(** X15.  Every step of the story loop that begins submits exactly one job,
    however it ends.  So when the steps before step [k] are fulfilled and
    step [k] is rejected or never settles, [generateVideo] has made exactly
    [k] submissions, and [k - 1] or [k] fetches. *)
Theorem X15_a_stopped_story_has_submitted_once_per_step :
  forall (params : GenerateVideoParams) (prompts before after : list string)
         (p : string) (w w1 w2 : World) (rs : list GenerationResult)
         (outcome : Promise GenerationResult),
    mode params = STORY_MODE ->
    storyPrompts params = Some prompts ->
    prompts = (before ++ p :: after)%list ->
    StorySteps params 0 None before w rs w1 ->
    storyStep params (length before) p (current_after None rs) w1
    = (outcome, w2) ->
    (forall r, outcome <> Fulfilled r) ->
    snd (generateVideo params w) = w2
    /\ length (submitted (trace w2))
       = length (submitted (trace w)) + length before + 1
    /\ length (fetched (trace w)) + length before
       <= length (fetched (trace w2))
       <= length (fetched (trace w)) + length before + 1.
Proof.
  intros params prompts before after p w w1 w2 rs outcome
         Hmode Hprompts -> Hsteps Hstep Hout.
  assert (Hcur : length before = 0 \/ current_after None rs <> None).
  { destruct before as [|b bs]; [left; reflexivity|right].
    pose proof (StorySteps_length params 0 None _ w w1 rs Hsteps) as Hlen.
    destruct rs as [|r rs']; [discriminate|].
    destruct (current_after_some None (r :: rs') ltac:(discriminate))
      as [r' ->]. discriminate. }
  destruct (storyStep_calls params (length before) p (current_after None rs)
              w1 Hcur) as [payload [tail [_ [Ht [Hts Htf]]]]].
  rewrite Hstep in Ht. cbn [snd] in Ht.
  destruct (StorySteps_calls params 0 None before w w1 rs Hsteps)
    as [payloads [Hlen [Hsub [Hfet _]]]].
  split.
  - unfold generateVideo. rewrite Hmode, Hprompts.
    assert (Hloop : snd (storyLoop params 0 (before ++ p :: after) None w) = w2
                    /\ forall res, fst (storyLoop params 0
                                          (before ++ p :: after) None w)
                                   <> Fulfilled res).
    { rewrite (storyLoop_after_steps params 0 None before w w1 rs
                 (p :: after) Hsteps).
      cbn [Nat.add storyLoop]. unfold bind. rewrite Hstep.
      destruct outcome as [r|e|]; [exfalso; apply (Hout r); reflexivity| |];
        cbn; split; auto; discriminate. }
    destruct Hloop as [Hw Hnf].
    destruct (before ++ p :: after)%list as [|first others] eqn:Happ;
      [destruct before; discriminate|].
    unfold bind at 1.
    destruct (storyLoop params 0 (first :: others) None w) as [[res|e|] w3];
      cbn [snd fst] in *; [exfalso; apply (Hnf res); reflexivity|auto|auto].
  - rewrite Ht.
    change (EvSubmit payload :: tail) with ([EvSubmit payload] ++ tail)%list.
    rewrite !submitted_app, !fetched_app, !length_app, Hts, Hsub, Hfet,
      length_app, Hlen.
    cbn in Htf |- *. lia.
Qed.


(** * The errors of [generateVideo] *)

Lemma retrieve_rejections (operation : Operation) (w : World) (e : Exn) :
  fst (retrieve operation w) = Rejected e -> cycle_error e.
Proof.
  unfold cycle_error.
  destruct (response operation) as [resp|] eqn:Hresp;
    [|rewrite (retrieve_no_response operation w Hresp); cbn;
      intro H; injection H as <-; auto 10].
  destruct (generatedVideos resp) as [[|first others]|] eqn:Hv;
    try (rewrite (retrieve_no_videos operation resp w Hresp);
         [cbn; intro H; injection H as <-; auto 10|solve [auto]]).
  destruct (video_with_uri first) as [[v u]|] eqn:Hu;
    [|rewrite (retrieve_no_uri operation resp first others w Hresp Hv Hu);
      cbn; intro H; injection H as <-; auto 10].
  unfold retrieve. rewrite Hresp, Hv, Hu.
  unfold bind, decode.
  destruct (decodeURIComponent u) as [url|];
    [|cbn; intro H; injection H as <-; auto 10].
  unfold ret at 1. unfold fetch. cbn [emit fetches].
  destruct (fetches w) as [|[res|reason] rest]; cbn [settle fst];
    try discriminate.
  - destruct (ok res); cbn [negb].
    + unfold blob_of. destruct (body res) as [b|reason]; cbn [settle].
      * cbn. discriminate.
      * cbn [fst]. intro H; injection H as <-. do 4 right. left. eauto.
    + cbn [throw fst]. intro H; injection H as <-. do 5 right.
      exists (status res), (statusText res). reflexivity.
  - intro H; injection H as <-. do 4 right. left. eauto.
Qed.

(** A rejection of [performGeneration] is the missing extension source,
    thrown by the build, or a failure of the cycle. *)
Lemma performGeneration_rejections (params : GenerateVideoParams)
    (overridePrompt : option string) (overrideVideoInput : option Video)
    (w : World) (e : Exn) :
  fst (performGeneration params overridePrompt overrideVideoInput w)
  = Rejected e ->
  (e = MissingExtensionSource
   /\ buildPayload params overridePrompt overrideVideoInput
      = Throw MissingExtensionSource)
  \/ ((exists payload,
          buildPayload params overridePrompt overrideVideoInput
          = Return payload)
      /\ cycle_error e).
Proof.
  destruct (buildPayload_returns params overridePrompt overrideVideoInput)
    as [[_ [_ [_ Hb]]]|[payload Hb]].
  - unfold performGeneration. rewrite Hb. cbn.
    intro H; inversion H. left. auto.
  - rewrite (performGeneration_cycle params overridePrompt overrideVideoInput
               payload w Hb).
    intro H. right. split; [eauto|].
    destruct ((operation <- generateVideos payload ;; pollUntilDone operation) w)
      as [[op|e'|] w1] eqn:Hc.
    + apply (retrieve_rejections op w1 e H).
    + cbn in H. inversion H; subst.
      destruct (cycle_rejected payload w w1 e Hc) as [reason ->].
      unfold cycle_error. do 4 right. left. eauto.
    + discriminate.
Qed.

Lemma cycle_error_distinct (e : Exn) :
  cycle_error e ->
  e <> MissingExtensionSource /\ e <> ChainBroken /\ e <> StoryModeFailed.
Proof.
  unfold cycle_error.
  intros [->|[->|[->|[->|[[reason ->]|[st [tx ->]]]]]]];
    repeat split; discriminate.
Qed.

Lemma storyStep_rejections (params : GenerateVideoParams) (i : nat)
    (p : string) (cur : option GenerationResult) (w : World) (e : Exn) :
  i = 0 \/ cur <> None ->
  fst (storyStep params i p cur w) = Rejected e -> cycle_error e.
Proof.
  intros Hi H.
  destruct (storyStep_calls params i p cur w Hi) as [payload [_ [Hb _]]].
  revert H Hb. unfold storyStep, step_submission.
  destruct (Nat.eqb i 0).
  - intros H Hb.
    destruct (performGeneration_rejections _ _ _ _ _ H) as [[_ Ht]|[_ Hc]];
      [congruence|exact Hc].
  - destruct cur as [prev|]; [|discriminate].
    intros H Hb.
    destruct (performGeneration_rejections _ _ _ _ _ H) as [[_ Ht]|[_ Hc]];
      [congruence|exact Hc].
Qed.

Lemma storyLoop_rejections (params : GenerateVideoParams)
    (prompts : list string) :
  forall (i : nat) (cur : option GenerationResult) (w : World) (e : Exn),
    i = 0 \/ cur <> None ->
    fst (storyLoop params i prompts cur w) = Rejected e -> cycle_error e.
Proof.
  induction prompts as [|p ps IH]; intros i cur w e Hi; [discriminate|].
  cbn [storyLoop]. unfold bind at 1.
  pose proof (storyStep_rejections params i p cur w) as Hs.
  destruct (storyStep params i p cur w) as [[r|e'|] w1].
  - apply IH. right. discriminate.
  - cbn [fst]. intro H; inversion H; subst. apply (Hs e Hi eq_refl).
  - discriminate.
Qed.

(** The loop yields a result when it is fulfilled on at least one prompt. *)
Lemma storyLoop_yields_result (params : GenerateVideoParams)
    (prompts : list string) :
  forall (i : nat) (cur : option GenerationResult) (w : World),
    (prompts <> [] \/ cur <> None) ->
    fst (storyLoop params i prompts cur w) <> Fulfilled None.
Proof.
  induction prompts as [|p ps IH]; intros i cur w H.
  - cbn. destruct H as [H|H]; [congruence|]. intro Hc. inversion Hc. congruence.
  - cbn [storyLoop]. unfold bind at 1.
    destruct (storyStep params i p cur w) as [[r|e'|] w1]; try discriminate.
    apply IH. right. discriminate.
Qed.

Lemma generateVideo_rejections (params : GenerateVideoParams) (w : World)
    (e : Exn) :
  fst (generateVideo params w) = Rejected e ->
  (e = MissingExtensionSource
   /\ mode params = EXTEND_VIDEO /\ inputVideoObject params = None)
  \/ cycle_error e.
Proof.
  assert (Hsingle : fst (performGeneration params None None w) = Rejected e ->
                    (e = MissingExtensionSource
                     /\ mode params = EXTEND_VIDEO
                     /\ inputVideoObject params = None)
                    \/ cycle_error e).
  { intro H.
    destruct (performGeneration_rejections _ _ _ _ _ H) as [[-> Ht]|[_ Hc]];
      [left|right; exact Hc].
    destruct (buildPayload_returns params None None)
      as [[Hm [_ [Hi _]]]|[payload Hb]]; [auto|congruence]. }
  unfold generateVideo.
  destruct (mode params) eqn:Hm; try exact Hsingle.
  destruct (storyPrompts params) as [[|first others]|]; try exact Hsingle.
  unfold bind at 1.
  pose proof (storyLoop_rejections params (first :: others) 0 None w)
    as Hl.
  pose proof (storyLoop_yields_result params (first :: others) 0 None w
                ltac:(left; discriminate)) as Hy.
  destruct (storyLoop params 0 (first :: others) None w) as [[[r|]|e'|] w1];
    cbn [fst] in *.
  - discriminate.
  - congruence.
  - intro H; inversion H; subst. right. apply (Hl e (or_introl eq_refl) eq_refl).
  - discriminate.
Qed.

(** X16.  The errors of [generateVideo] are those of a cycle (no response,
    no videos, no locator, a malformed location, a failed fetch, a failure of
    the remote service), and the missing extension source, which arises
    exactly on an [EXTEND_VIDEO] request without [inputVideoObject].  The
    error of line 214, "Story Mode failed to generate any video.", never
    arises. *)
Theorem X16_errors_of_generateVideo :
  forall (params : GenerateVideoParams) (w : World),
    (forall e,
        fst (generateVideo params w) = Rejected e ->
        e = MissingExtensionSource \/ cycle_error e)
    /\ (fst (generateVideo params w) = Rejected MissingExtensionSource
        <-> mode params = EXTEND_VIDEO /\ inputVideoObject params = None)
    /\ fst (generateVideo params w) <> Rejected StoryModeFailed.
Proof.
  intros params w. split; [|split].
  - intros e H.
    destruct (generateVideo_rejections params w e H) as [[-> _]|Hc]; auto.
  - split.
    + intro H.
      destruct (generateVideo_rejections params w _ H) as [[_ Hm]|Hc];
        [exact Hm|].
      apply cycle_error_distinct in Hc. destruct Hc as [Hc _]. congruence.
    + intros [Hm Hi]. unfold generateVideo. rewrite Hm.
      unfold performGeneration, buildPayload. rewrite Hm, Hi. reflexivity.
  - intro H.
    destruct (generateVideo_rejections params w _ H) as [[Hc _]|Hc];
      [discriminate|].
    apply cycle_error_distinct in Hc. destruct Hc as [_ [_ Hc]]. congruence.
Qed.


(** * The form *)

Lemma split_pieces_no_sep (sep : ascii) (s : string) :
  has_char sep s = false -> split_pieces sep s = (s, []).
Proof.
  induction s as [|c rest IH]; [reflexivity|].
  cbn [has_char split_pieces]. intro H.
  apply orb_false_iff in H. destruct H as [Hc Hrest].
  rewrite (IH Hrest), Hc. reflexivity.
Qed.

Lemma split_pieces_sep (sep : ascii) (pre rest : string) :
  has_char sep pre = false ->
  split_pieces sep (pre ++ String sep rest)
  = (pre, fst (split_pieces sep rest) :: snd (split_pieces sep rest)).
Proof.
  induction pre as [|c pre' IH]; cbn [has_char append split_pieces].
  - intros _. rewrite Ascii.eqb_refl.
    destruct (split_pieces sep rest); reflexivity.
  - intro H. apply orb_false_iff in H. destruct H as [Hc Hpre].
    rewrite (IH Hpre), Hc. reflexivity.
Qed.

Lemma split_pieces_inv (sep : ascii) (s : string) :
  (has_char sep s = false /\ split_pieces sep s = (s, []))
  \/ exists pre rest,
      s = pre ++ String sep rest
      /\ has_char sep pre = false
      /\ split_pieces sep s
         = (pre, fst (split_pieces sep rest) :: snd (split_pieces sep rest)).
Proof.
  induction s as [|c s' IH].
  - left. split; reflexivity.
  - destruct (Ascii.eqb c sep) eqn:Hc.
    + right. apply Ascii.eqb_eq in Hc. subst c.
      exists EmptyString, s'. split; [reflexivity|]. split; [reflexivity|].
      apply (split_pieces_sep sep EmptyString s'). reflexivity.
    + destruct IH as [[Hno Hs]|[pre [rest [Hs [Hpre Hsp]]]]].
      * left. cbn [has_char split_pieces]. rewrite Hc, Hno, Hs. auto.
      * right. exists (String c pre), rest. subst s'.
        cbn [append has_char]. rewrite Hc, Hpre.
        split; [reflexivity|]. split; [reflexivity|].
        apply (split_pieces_sep sep (String c pre) rest).
        cbn [has_char]. rewrite Hc, Hpre. reflexivity.
Qed.

Lemma split_pieces_first (sep : ascii) (s : string) :
  has_char sep (fst (split_pieces sep s)) = false.
Proof.
  destruct (split_pieces_inv sep s) as [[Hno ->]|[pre [rest [_ [Hpre ->]]]]];
    assumption.
Qed.

(** X17.  [fileToBase64] resolves with the text between the first comma of
    the reader's result and the next comma or the end, when that text is not
    empty; a result without comma, or with nothing after the first comma,
    is rejected with "Failed to read file as base64.".  So the [base64] of
    an encoded file is never empty and holds no comma, and the file is the
    one that was read. *)
Theorem X17_fileToBase64_takes_the_text_after_the_comma :
  forall (f : File) (result : string),
    (forall pre b more,
        result = pre ++ "," ++ b ++ more ->
        has_char comma pre = false -> has_char comma b = false ->
        more = "" \/ (exists m, more = String comma m) ->
        fileToBase64 f (Resolve result)
        = (if b =? "" then Rejected (Error "Failed to read file as base64.")
           else Fulfilled (f, b)))
    /\ (has_char comma result = false ->
        fileToBase64 f (Resolve result)
        = Rejected (Error "Failed to read file as base64."))
    /\ (forall f' b,
           fileToBase64 f (Resolve result) = Fulfilled (f', b) ->
           f' = f /\ b <> "" /\ has_char comma b = false
           /\ exists pre more,
               result = pre ++ "," ++ b ++ more
               /\ has_char comma pre = false
               /\ (more = "" \/ exists m, more = String comma m)).
Proof.
  intros f result. split; [|split].
  - intros pre b more -> Hpre Hb Hmore.
    unfold fileToBase64, split.
    change (pre ++ "," ++ b ++ more) with (pre ++ String comma (b ++ more)).
    rewrite (split_pieces_sep comma pre (b ++ more) Hpre). cbn [nth_error].
    assert (Hfst : fst (split_pieces comma (b ++ more)) = b).
    { destruct Hmore as [->|[m ->]].
      - assert (Hbe : b ++ "" = b)
          by (clear; induction b as [|c b IH]; cbn; congruence).
        rewrite Hbe, (split_pieces_no_sep comma b Hb). reflexivity.
      - rewrite (split_pieces_sep comma b m Hb). reflexivity. }
    rewrite Hfst. unfold truthy. destruct (b =? ""); reflexivity.
  - intro Hno. unfold fileToBase64, split.
    rewrite (split_pieces_no_sep comma result Hno). reflexivity.
  - intros f' b. unfold fileToBase64, split.
    destruct (split_pieces_inv comma result)
      as [[Hno ->]|[pre [rest [Hres [Hpre ->]]]]]; [discriminate|].
    cbn [nth_error].
    pose proof (split_pieces_first comma rest) as Hclean.
    destruct (truthy (fst (split_pieces comma rest))) eqn:Ht; [|discriminate].
    intro H; inversion H; subst f' b. split; [reflexivity|].
    split.
    { unfold truthy in Ht. intro He. rewrite He in Ht. discriminate. }
    split; [exact Hclean|].
    destruct (split_pieces_inv comma rest)
      as [[Hno Hs]|[b' [m [Hrest [Hb' Hs]]]]]; rewrite Hs; cbn [fst].
    + exists pre, "". split; [|auto].
      assert (Hbe : rest ++ "" = rest)
        by (clear; induction rest as [|c r IH]; cbn; congruence).
      rewrite Hbe. exact Hres.
    + exists pre, (String comma m). split; [|eauto].
      rewrite Hres, Hrest. reflexivity.
Qed.

(** X18.  The submit button is disabled exactly when there is a tooltip to
    explain why: [tooltipText] is not empty if and only if
    [isSubmitDisabled]. *)
Theorem X18_disabled_iff_tooltip :
  forall s : FormState,
    isSubmitDisabled s = true <-> tooltipText s <> "".
Proof.
  intro s. unfold isSubmitDisabled, tooltipText.
  destruct (generationMode s).
  - destruct (blank (form_prompt s)); split; congruence.
  - destruct (negb (is_some (form_startFrame s))); split; congruence.
  - destruct (blank (form_prompt s));
      destruct (Nat.eqb (length (form_referenceImages s)) 0); cbn;
      split; congruence.
  - destruct (negb (is_some (form_inputVideoObject s))); split; congruence.
  - destruct (existsb blank (form_storyPrompts s)); split; congruence.
Qed.

(** X19.  A request submitted while the button is enabled never fails on
    the missing extension source: its payload builds under every override,
    and no call of [generateVideo] on it is rejected with that error. *)
Theorem X19_enabled_form_has_its_extension_source :
  forall s : FormState,
    isSubmitDisabled s = false ->
    (forall overridePrompt overrideVideoInput,
        exists payload,
          buildPayload (handleSubmit s) overridePrompt overrideVideoInput
          = Return payload)
    /\ (forall w,
           fst (generateVideo (handleSubmit s) w)
           <> Rejected MissingExtensionSource).
Proof.
  intros s Hen.
  assert (Hsrc : ~ (mode (handleSubmit s) = EXTEND_VIDEO
                    /\ inputVideoObject (handleSubmit s) = None)).
  { intros [Hm Hi]. cbn in Hm, Hi. unfold isSubmitDisabled in Hen.
    rewrite Hm, Hi in Hen. discriminate. }
  split.
  - intros overridePrompt overrideVideoInput.
    destruct (buildPayload_returns (handleSubmit s) overridePrompt
                overrideVideoInput) as [[Hm [_ [Hi _]]]|H]; [|exact H].
    exfalso. apply Hsrc. auto.
  - intros w H.
    destruct (generateVideo_rejections (handleSubmit s) w _ H)
      as [[_ Hc]|Hc]; [exact (Hsrc Hc)|].
    apply cycle_error_distinct in Hc. destruct Hc as [Hc _]. congruence.
Qed.

(** X20.  A frames request submitted while the button is enabled has a
    start frame, which is sent as the first frame, as its encoded bytes and
    the MIME type of its file; the last frame sent is that same frame when
    looping, and the end frame, if any, otherwise. *)
Theorem X20_enabled_frames_form_sends_its_start_frame :
  forall (s : FormState) (overridePrompt : option string),
    generationMode s = FRAMES_TO_VIDEO ->
    isSubmitDisabled s = false ->
    exists f payload,
      form_startFrame s = Some f
      /\ buildPayload (handleSubmit s) overridePrompt None = Return payload
      /\ payload_image payload
         = Some {| imageBytes := base64 f; mimeType := file_type (file f) |}
      /\ lastFrame (payload_config payload)
         = (if form_isLooping s
            then Some {| imageBytes := base64 f;
                         mimeType := file_type (file f) |}
            else match form_endFrame s with
                 | Some e => Some {| imageBytes := base64 e;
                                     mimeType := file_type (file e) |}
                 | None => None
                 end)
      /\ config_aspectRatio (payload_config payload)
         = Some (form_aspectRatio s).
Proof.
  intros s overridePrompt Hmode Hen.
  unfold isSubmitDisabled in Hen. rewrite Hmode in Hen.
  destruct (form_startFrame s) as [f|] eqn:Hf; [|discriminate].
  exists f. unfold buildPayload, isExtensionOperation.
  cbn [mode handleSubmit]. rewrite Hmode. cbn [mode_eqb orb is_some].
  eexists. split; [reflexivity|]. split; [reflexivity|].
  cbn [payload_image payload_config lastFrame config_aspectRatio
       startFrame endFrame isLooping handleSubmit truthy_flag aspectRatio].
  rewrite Hf. split; [reflexivity|].
  destruct (form_isLooping s); split; reflexivity.
Qed.

(** X21.  A references request submitted while the button is enabled has
    at least one reference image; its submission lists as many images as the
    form counts ([totalReferences]: the reference images and the style
    image), and carries a prompt. *)
Theorem X21_enabled_references_form_sends_its_images :
  forall (s : FormState),
    trim "" = "" ->
    generationMode s = REFERENCES_TO_VIDEO ->
    isSubmitDisabled s = false ->
    exists payload l text,
      buildPayload (handleSubmit s) None None = Return payload
      /\ config_referenceImages (payload_config payload) = Some l
      /\ length l = totalReferences s
      /\ 1 <= length (form_referenceImages s)
      /\ payload_prompt payload = Some text.
Proof.
  intros s Htrim Hmode Hen.
  unfold isSubmitDisabled in Hen. rewrite Hmode in Hen.
  apply orb_false_iff in Hen. destruct Hen as [Hprompt Hrefs].
  assert (Hp : form_prompt s <> "").
  { intro He. unfold blank, truthy in Hprompt. rewrite He, Htrim in Hprompt.
    discriminate. }
  apply Nat.eqb_neq in Hrefs.
  destruct (buildPayload_references (handleSubmit s) None
              (or_introl Hmode)) as [Hb Hlen].
  assert (Htot : length (referenceImagesPayload (handleSubmit s))
                 = totalReferences s).
  { rewrite Hlen, length_app. unfold totalReferences, style_of.
    cbn [references_of referenceImages styleImage handleSubmit].
    destruct (form_styleImage s); reflexivity. }
  assert (Hact : truthy (activePrompt (handleSubmit s) None None) = true).
  { rewrite activePrompt_spec by (cbn; rewrite Hmode; discriminate).
    unfold spec_effective_prompt, basePrompt. cbn [or_else prompt handleSubmit].
    destruct (form_prompt s =? "") eqn:E;
      [apply string_eqb_empty in E; contradiction|].
    unfold truthy.
    destruct (String.concat " " (form_prompt s
                :: spec_label_texts (references_of (handleSubmit s))) =? "")
      eqn:E2; [|reflexivity].
    apply string_eqb_empty in E2. exfalso. revert E2.
    apply concat_nonempty; [|discriminate].
    constructor; [exact Hp|apply spec_label_texts_nonempty]. }
  eexists _, (referenceImagesPayload (handleSubmit s)), _.
  split; [exact Hb|].
  cbn [payload_config config_referenceImages payload_prompt].
  rewrite Hact, Htot.
  assert (Hpos : Nat.ltb 0 (totalReferences s) = true).
  { apply Nat.ltb_lt. unfold totalReferences. lia. }
  rewrite Hpos. repeat split; try reflexivity. lia.
Qed.


Lemma filter_not_index_past {A : Type} (index : nat) (arr : list A) :
  forall i, index < i -> filter_not_index index i arr = arr.
Proof.
  induction arr as [|x rest IH]; intros i Hi; [reflexivity|].
  cbn [filter_not_index].
  assert (Hn : Nat.eqb i index = false) by (apply Nat.eqb_neq; lia).
  rewrite Hn, (IH (S i)) by lia. reflexivity.
Qed.

Lemma filter_not_index_spec {A : Type} (arr : list A) :
  forall i index,
    i <= index ->
    filter_not_index index i arr
    = (firstn (index - i) arr ++ skipn (S (index - i)) arr)%list.
Proof.
  induction arr as [|x rest IH]; intros i index Hle.
  - cbn. rewrite firstn_nil. reflexivity.
  - cbn [filter_not_index]. destruct (Nat.eqb i index) eqn:E.
    + apply Nat.eqb_eq in E. subst i. rewrite Nat.sub_diag. cbn.
      apply filter_not_index_past. lia.
    + apply Nat.eqb_neq in E.
      rewrite (IH (S i) index) by lia.
      replace (index - i) with (S (index - S i)) by lia.
      reflexivity.
Qed.

(** X22.  Adding and removing story segments keeps between two and twenty
    prompts.  Adding appends one empty prompt, unless there are twenty;
    removing at an index deletes that prompt alone, unless only two are left
    (or fewer), and deletes nothing when the index is out of range. *)
Theorem X22_story_segments_stay_between_two_and_twenty :
  forall (s : FormState) (index : nat),
    let old := form_storyPrompts s in
    (2 <= length old <= 20 ->
     2 <= length (form_storyPrompts (addStorySegment s)) <= 20
     /\ 2 <= length (form_storyPrompts (removeStorySegment index s)) <= 20)
    /\ (length old < 20 ->
        form_storyPrompts (addStorySegment s) = (old ++ [""])%list)
    /\ (20 <= length old -> addStorySegment s = s)
    /\ (2 < length old ->
        form_storyPrompts (removeStorySegment index s)
        = (firstn index old ++ skipn (S index) old)%list)
    /\ (2 < length old -> length old <= index ->
        form_storyPrompts (removeStorySegment index s) = old)
    /\ (length old <= 2 -> removeStorySegment index s = s).
Proof.
  intros s index old.
  assert (Hadd1 : length old < 20 ->
                  form_storyPrompts (addStorySegment s) = (old ++ [""])%list).
  { intro H. unfold addStorySegment. fold old.
    apply Nat.ltb_lt in H. rewrite H. reflexivity. }
  assert (Hadd2 : 20 <= length old -> addStorySegment s = s).
  { intro H. unfold addStorySegment. fold old.
    apply Nat.ltb_ge in H. rewrite H. reflexivity. }
  assert (Hrem1 : 2 < length old ->
                  form_storyPrompts (removeStorySegment index s)
                  = (firstn index old ++ skipn (S index) old)%list).
  { intro H. unfold removeStorySegment. fold old.
    apply Nat.ltb_lt in H. rewrite H. cbn [form_storyPrompts set_storyPrompts].
    rewrite (filter_not_index_spec old 0 index) by lia.
    rewrite Nat.sub_0_r. reflexivity. }
  assert (Hrem2 : length old <= 2 -> removeStorySegment index s = s).
  { intro H. unfold removeStorySegment. fold old.
    apply Nat.ltb_ge in H. rewrite H. reflexivity. }
  split; [|split; [exact Hadd1|split; [exact Hadd2|split;
    [exact Hrem1|split; [|exact Hrem2]]]]].
  - intros [Hlo Hhi]. split.
    + destruct (Nat.lt_ge_cases (length old) 20) as [Hlt|Hge].
      * rewrite (Hadd1 Hlt), length_app. cbn. lia.
      * rewrite (Hadd2 Hge). fold old. lia.
    + destruct (Nat.lt_ge_cases 2 (length old)) as [Hlt|Hge].
      * rewrite (Hrem1 Hlt), length_app, length_firstn, length_skipn. lia.
      * rewrite (Hrem2 Hge). fold old. lia.
  - intros Hlt Hout. rewrite (Hrem1 Hlt).
    rewrite firstn_all2 by lia. rewrite skipn_all2 by lia.
    apply app_nil_r.
Qed.

Lemma update_description_nth (d : string) (prev : list ImageFile) :
  forall index j,
    nth_error (update_description index d prev) j
    = if Nat.eqb j index
      then option_map (fun img => with_description img d) (nth_error prev j)
      else nth_error prev j.
Proof.
  induction prev as [|img rest IH]; intros index j.
  - destruct index; destruct j; cbn; try reflexivity.
    destruct (Nat.eqb j index); reflexivity.
  - destruct index as [|index']; destruct j as [|j']; cbn; try reflexivity.
    apply IH.
Qed.

Lemma spec_label_texts_in (imgs : list ImageFile) (index : nat)
    (img : ImageFile) (d : string) :
  nth_error imgs index = Some img ->
  description img = Some d -> d <> "" ->
  In ("(Reference " ++ string_of_nat (index + 1) ++ ": " ++ d ++ ")")
     (spec_label_texts imgs).
Proof.
  intros Hnth Hd Hne. unfold spec_label_texts.
  apply in_map_iff. exists (index + 1, d). split; [reflexivity|].
  apply filter_In. split.
  - assert (Hlt : index < length imgs)
      by (apply nth_error_Some; congruence).
    assert (Hl : label_of img = d) by (unfold label_of; rewrite Hd; reflexivity).
    assert (Hc : nth index (combine (seq 1 (length imgs)) (map label_of imgs))
                     (0, "")
                 = (index + 1, d)).
    { rewrite combine_nth by (rewrite length_seq, length_map; reflexivity).
      rewrite seq_nth by exact Hlt.
      rewrite (nth_indep _ "" (label_of img))
        by (rewrite length_map; exact Hlt).
      rewrite map_nth. rewrite (nth_error_nth imgs index img Hnth).
      rewrite Hl. f_equal. lia. }
    rewrite <- Hc. apply nth_In.
    rewrite length_combine, length_seq, length_map. lia.
  - cbn [snd]. destruct (d =? "") eqn:E; [|reflexivity].
    apply string_eqb_empty in E. contradiction.
Qed.

(** X23.  [updateReferenceDescription] sets the label of the reference at
    the index and touches nothing else: the array keeps its length, its
    files and its encoded images, and every other reference; an index out of
    range changes nothing.  The new label, when not empty, is among the
    texts that the service appends to the prompt, under the number of its
    reference. *)
Theorem X23_updateReferenceDescription_sets_one_label :
  forall (s : FormState) (index : nat) (d : string),
    let old := form_referenceImages s in
    let new := form_referenceImages (updateReferenceDescription index d s) in
    length new = length old
    /\ map file new = map file old
    /\ map base64 new = map base64 old
    /\ (forall j, j <> index -> nth_error new j = nth_error old j)
    /\ (forall img, nth_error old index = Some img ->
                    nth_error new index = Some (with_description img d))
    /\ (length old <= index -> new = old)
    /\ (index < length old -> d <> "" ->
        In ("(Reference " ++ string_of_nat (index + 1) ++ ": " ++ d ++ ")")
           (spec_label_texts new)).
Proof.
  intros s index d old new.
  assert (Hnew : new = update_description index d old) by reflexivity.
  assert (Hshape : forall (l : list ImageFile) i,
             length (update_description i d l) = length l
             /\ map file (update_description i d l) = map file l
             /\ map base64 (update_description i d l) = map base64 l
             /\ (length l <= i -> update_description i d l = l)).
  { induction l as [|img rest IH]; intro i; [destruct i; cbn; auto|].
    destruct i as [|i']; cbn.
    - repeat split; try reflexivity. lia.
    - destruct (IH i') as [H1 [H2 [H3 H4]]].
      rewrite H1, H2, H3. repeat split; try reflexivity.
      intro Hle. rewrite H4 by lia. reflexivity. }
  destruct (Hshape old index) as [H1 [H2 [H3 H4]]].
  rewrite Hnew.
  split; [exact H1|]. split; [exact H2|]. split; [exact H3|].
  split; [|split; [|split; [exact H4|]]].
  - intros j Hj. rewrite update_description_nth.
    apply Nat.eqb_neq in Hj. rewrite Hj. reflexivity.
  - intros img Himg. rewrite update_description_nth, Nat.eqb_refl, Himg.
    reflexivity.
  - intros Hlt Hd.
    destruct (nth_error old index) as [img|] eqn:Himg;
      [|apply nth_error_None in Himg; lia].
    apply (spec_label_texts_in (update_description index d old) index
             (with_description img d) d); [|reflexivity|exact Hd].
    rewrite update_description_nth, Nat.eqb_refl, Himg. reflexivity.
Qed.

(** X24.  Selecting a mode clears every media input of the form (the
    frames, the reference images, the style image, the input video file and
    the input video object, the looping flag), closes the mode selector and
    keeps the prompt.  After it, the button is disabled in the modes that need
    media ([FRAMES_TO_VIDEO], [REFERENCES_TO_VIDEO], [EXTEND_VIDEO]), and
    [STORY_MODE] has at least two story prompts: two empty ones when there
    were fewer than two, the former ones otherwise. *)
Theorem X24_selecting_a_mode_clears_the_media :
  forall (m : GenerationMode) (s : FormState),
    let s' := handleSelectMode m s in
    generationMode s' = m
    /\ form_prompt s' = form_prompt s
    /\ startFrame (handleSubmit s') = None
    /\ endFrame (handleSubmit s') = None
    /\ referenceImages (handleSubmit s') = Some []
    /\ styleImage (handleSubmit s') = None
    /\ inputVideoObject (handleSubmit s') = None
    /\ inputVideo s' = None
    /\ isModeSelectorOpen s' = false
    /\ isLooping (handleSubmit s') = Some false
    /\ totalReferences s' = 0
    /\ (m = FRAMES_TO_VIDEO \/ m = REFERENCES_TO_VIDEO \/ m = EXTEND_VIDEO ->
        isSubmitDisabled s' = true)
    /\ (m = STORY_MODE ->
        2 <= length (form_storyPrompts s')
        /\ (length (form_storyPrompts s) < 2 ->
            form_storyPrompts s' = [""; ""])
        /\ (2 <= length (form_storyPrompts s) ->
            form_storyPrompts s' = form_storyPrompts s))
    /\ (m <> STORY_MODE -> form_storyPrompts s' = form_storyPrompts s).
Proof.
  intros m s s'. subst s'. unfold handleSelectMode.
  cbn [generationMode form_prompt handleSubmit startFrame endFrame
       referenceImages styleImage inputVideoObject isLooping inputVideo
       isModeSelectorOpen form_startFrame form_endFrame form_referenceImages form_styleImage
       form_inputVideoObject form_isLooping form_storyPrompts].
  repeat (split; [reflexivity|]).
  split; [|split].
  - intros [-> | [-> | ->]]; unfold isSubmitDisabled; cbn;
      rewrite ?orb_true_r; reflexivity.
  - intros ->. cbn [mode_eqb andb].
    destruct (Nat.ltb (length (form_storyPrompts s)) 2) eqn:E.
    + apply Nat.ltb_lt in E. split; [cbn; lia|].
      split; [reflexivity|]. intro H. lia.
    + apply Nat.ltb_ge in E. split; [exact E|].
      split; [intro H; lia|reflexivity].
  - intro Hm. apply mode_eqb_neq in Hm. rewrite Hm. reflexivity.
Qed.

(** The prompts that a run of fulfilled steps has sent, when no story
    prompt is empty: the first step sends its prompt followed by the
    reference labels, without prior video; each later step sends its own
    prompt, with a prior video. *)
Lemma spec_effective_prompt_nonempty (base : string) (imgs : list ImageFile) :
  base <> "" -> spec_effective_prompt base imgs <> "".
Proof.
  intro Hne. unfold spec_effective_prompt.
  destruct (base =? "") eqn:E; [apply string_eqb_empty in E; contradiction|].
  apply concat_nonempty; [|discriminate].
  constructor; [exact Hne|apply spec_label_texts_nonempty].
Qed.

Lemma prompt_field_some (t : string) : t <> "" -> prompt_field t = Some t.
Proof.
  intro Hne. unfold prompt_field.
  destruct (t =? "") eqn:E; [apply string_eqb_empty in E; contradiction|].
  reflexivity.
Qed.

Lemma StorySteps_prompts (params : GenerateVideoParams)
    (prompts : list string) (w w' : World) (rs : list GenerationResult) :
  StorySteps params 0 None prompts w rs w' ->
  (forall p, In p prompts -> p <> "") ->
  exists payloads,
    submitted (trace w') = (submitted (trace w) ++ payloads)%list
    /\ length payloads = length prompts
    /\ (forall p payload,
           nth_error prompts 0 = Some p ->
           nth_error payloads 0 = Some payload ->
           payload_prompt payload
           = Some (spec_effective_prompt p (references_of params))
           /\ payload_video payload = None)
    /\ (forall k p payload,
           nth_error prompts (S k) = Some p ->
           nth_error payloads (S k) = Some payload ->
           payload_prompt payload = Some p
           /\ exists previous,
               nth_error rs k = Some previous
               /\ payload_video payload = Some (video previous)).
Proof.
  intros Hsteps Hall.
  destruct (StorySteps_calls params 0 None prompts w w' rs Hsteps)
    as [payloads [Hlen [Hsub [_ Hnth]]]].
  exists payloads. split; [exact Hsub|]. split; [exact Hlen|]. split.
  - intros p payload Hp Hpay.
    pose proof (Hnth 0 p payload Hp Hpay) as Hk.
    unfold step_submission in Hk. cbn [Nat.add Nat.eqb] in Hk.
    assert (Hne : p <> "") by (apply Hall; eapply nth_error_In; exact Hp).
    split.
    + rewrite (buildPayload_prompt _ _ _ _ Hk).
      rewrite (activePrompt_spec (first_step_params params p) None)
        by (cbn; discriminate).
      change (basePrompt (first_step_params params p) None) with p.
      change (references_of (first_step_params params p))
        with (references_of params).
      apply prompt_field_some, spec_effective_prompt_nonempty, Hne.
    + revert Hk. unfold buildPayload, isExtensionOperation.
      cbn [mode first_step_params mode_eqb orb is_some].
      destruct (andb _ _); intro Hk; inversion Hk; reflexivity.
  - intros k p payload Hp Hpay.
    pose proof (Hnth (S k) p payload Hp Hpay) as Hk.
    cbn [Nat.add] in Hk. unfold step_submission in Hk. cbn [Nat.eqb] in Hk.
    assert (Hne : p <> "") by (apply Hall; eapply nth_error_In; exact Hp).
    destruct (nth_error rs k) as [previous|]; [|discriminate].
    split.
    + rewrite (buildPayload_prompt _ _ _ _ Hk).
      rewrite basePrompt_extension
        by (unfold isExtensionOperation; cbn [is_some]; apply orb_true_r).
      unfold basePrompt, or_else, truthy.
      destruct (p =? "") eqn:E; [apply string_eqb_empty in E; contradiction|].
      cbn [negb]. apply prompt_field_some, Hne.
    + exists previous. split; [reflexivity|].
      destruct (buildPayload_override_video params (Some p) (video previous))
        as [pl [Hb [Hv _]]].
      rewrite Hb in Hk. inversion Hk; subst. exact Hv.
Qed.

(** X25.  A story submitted while the button is enabled has no empty story
    prompt, so every step sends its own story prompt: the fallback to the
    request's [prompt] for an empty override is not taken.  With at least
    one story prompt, a call of [generateVideo] on the submitted request
    that yields a result has made exactly one submission for each story
    prompt, in order: the first carries the first prompt followed by the
    reference labels and no prior video, each later one carries its own
    prompt and the video of the result before it.  And on accepting jobs,
    one for each story prompt, the call does yield a result, after exactly
    these submissions. *)
Theorem X25_enabled_story_form_sends_every_story_prompt :
  forall (s : FormState),
    trim "" = "" ->
    generationMode s = STORY_MODE ->
    isSubmitDisabled s = false ->
    (forall p, In p (form_storyPrompts s) ->
               p <> ""
               /\ basePrompt (handleSubmit s) (Some p) = p
               /\ basePrompt (first_step_params (handleSubmit s) p) None = p)
    /\ (forall (w w' : World) (r : GenerationResult),
           form_storyPrompts s <> [] ->
           generateVideo (handleSubmit s) w = (Fulfilled r, w') ->
           exists payloads,
             submitted (trace w') = (submitted (trace w) ++ payloads)%list
             /\ length payloads = length (form_storyPrompts s)
             /\ (forall p payload,
                    nth_error (form_storyPrompts s) 0 = Some p ->
                    nth_error payloads 0 = Some payload ->
                    payload_prompt payload
                    = Some (spec_effective_prompt p (form_referenceImages s))
                    /\ payload_video payload = None)
             /\ (forall k p payload,
                    nth_error (form_storyPrompts s) (S k) = Some p ->
                    nth_error payloads (S k) = Some payload ->
                    payload_prompt payload = Some p
                    /\ payload_video payload <> None))
    /\ (forall (w : World) (jobs : list Job)
               (more_submits more_polls : list (Reply Operation))
               (more_fetches : list (Reply FetchResponse)),
           form_storyPrompts s <> [] ->
           length jobs = length (form_storyPrompts s) ->
           Forall accepting jobs ->
           submits w
           = (map (fun j => Resolve (job_started j)) jobs ++ more_submits)%list ->
           polls w
           = (flat_map (fun j => map Resolve (job_running j ++ [job_final j]))
                jobs ++ more_polls)%list ->
           fetches w
           = (map (fun j => Resolve (job_fetched j)) jobs ++ more_fetches)%list ->
           exists r w' payloads,
             generateVideo (handleSubmit s) w = (Fulfilled r, w')
             /\ submitted (trace w') = (submitted (trace w) ++ payloads)%list
             /\ length payloads = length (form_storyPrompts s)
             /\ (forall k p payload before,
                    nth_error (form_storyPrompts s) (S k) = Some p ->
                    nth_error payloads (S k) = Some payload ->
                    nth_error jobs k = Some before ->
                    payload_prompt payload = Some p
                    /\ payload_video payload = Some (job_video before))).
Proof.
  intros s Htrim Hmode Hen.
  unfold isSubmitDisabled in Hen. rewrite Hmode in Hen.
  assert (Hall : forall p, In p (form_storyPrompts s) -> p <> "").
  { intros p Hin He. subst p.
    assert (Hex : existsb blank (form_storyPrompts s) = true).
    { apply existsb_exists. exists "". split; [exact Hin|].
      unfold blank, truthy. rewrite Htrim. reflexivity. }
    congruence. }
  split; [|split].
  - intros p Hin. pose proof (Hall p Hin) as Hp.
    split; [exact Hp|].
    unfold basePrompt, or_else, truthy. cbn [prompt first_step_params].
    destruct (p =? "") eqn:E; [apply string_eqb_empty in E; contradiction|].
    split; reflexivity.
  - intros w w' r Hne. unfold generateVideo.
    cbn [mode storyPrompts handleSubmit]. rewrite Hmode.
    destruct (form_storyPrompts s) as [|first others] eqn:Hprompts;
      [congruence|].
    unfold bind at 1.
    destruct (storyLoop _ 0 (first :: others) None w)
      as [[res|e|] w1] eqn:Hloop; try discriminate.
    apply storyLoop_fulfilled in Hloop. destruct Hloop as [rs [Hsteps ->]].
    destruct (current_after None rs) as [r'|]; [|discriminate].
    intro H; inversion H; subst.
    destruct (StorySteps_prompts _ _ _ _ _ Hsteps Hall)
      as [payloads [Hsub [Hlen [Hfirst Hlater]]]].
    exists payloads. split; [exact Hsub|]. split; [exact Hlen|].
    split; [exact Hfirst|].
    intros k p payload Hp Hpay.
    destruct (Hlater k p payload Hp Hpay) as [Hpr [previous [_ Hv]]].
    split; [exact Hpr|]. rewrite Hv. discriminate.
  - intros w jobs more_submits more_polls more_fetches Hne Hlen Hacc Hs Hp Hf.
    destruct (storyLoop_accepts (handleSubmit s) (form_storyPrompts s) jobs
                0 None w more_submits more_polls more_fetches Hlen Hacc
                (or_introl eq_refl) Hs Hp Hf)
      as [rs [w' [payloads0 [Hsteps [_ [_ [Hv _]]]]]]].
    pose proof (StorySteps_length _ _ _ _ _ _ _ Hsteps) as Hrs.
    assert (Hrsne : rs <> [])
      by (destruct rs; [destruct (form_storyPrompts s);
                          [congruence|discriminate]|discriminate]).
    destruct (current_after_some None rs Hrsne) as [r Hcur].
    destruct (StorySteps_prompts _ _ _ _ _ Hsteps Hall)
      as [payloads [Hsub [Hpl [_ Hlater]]]].
    exists r, w', payloads. split.
    { unfold generateVideo. cbn [mode storyPrompts handleSubmit].
      rewrite Hmode.
      destruct (form_storyPrompts s) as [|first others] eqn:Hprompts;
        [congruence|].
      unfold bind at 1.
      assert (Hloop : storyLoop (handleSubmit s) 0 (first :: others) None w
                      = (Fulfilled (current_after None rs), w'))
        by (apply storyLoop_fulfilled; eauto).
      rewrite Hloop, Hcur. reflexivity. }
    split; [exact Hsub|]. split; [exact Hpl|].
    intros k p payload before Hpk Hpay Hjob.
    destruct (Hlater k p payload Hpk Hpay) as [Hpr [previous [Hprev Hvid]]].
    split; [exact Hpr|]. rewrite Hvid. f_equal.
    assert (Hm : nth_error (map video rs) k = Some (job_video before))
      by (rewrite Hv; apply map_nth_error; exact Hjob).
    rewrite nth_error_map, Hprev in Hm. cbn in Hm. congruence.
Qed.


End Host.

(** * The claims at sample inputs *)

Lemma C4_extend_without_source_witness :
  performGeneration sample_decode sample_key
    (sample_params EXTEND_VIDEO) None None world_two_jobs
  = (Rejected MissingExtensionSource, world_two_jobs)
  /\ generateVideo sample_decode sample_key
       (sample_params EXTEND_VIDEO) world_two_jobs
     = (Rejected MissingExtensionSource, world_two_jobs).
Proof.
  apply (C4_extend_without_source_fails_before_any_call
           sample_decode sample_key (sample_params EXTEND_VIDEO) None
           world_two_jobs); reflexivity.
Defined.

Lemma C5_no_assets_witness :
  fst (performGeneration sample_decode sample_key
         (sample_params TEXT_TO_VIDEO) None None world_no_assets)
  = Rejected NoAssetsProduced
  /\ fetched (trace (snd (performGeneration sample_decode sample_key
                            (sample_params TEXT_TO_VIDEO) None None
                            world_no_assets)))
     = [].
Proof.
  destruct (C5_no_assets_and_missing_locator
              sample_decode sample_key (sample_params TEXT_TO_VIDEO) None None
              _ world_no_assets _ (op_done []) _
              eq_refl eq_refl eq_refl) as [Hnone _].
  destruct (Hnone (or_intror eq_refl)) as [Hperf [Hfetched _]].
  rewrite Hperf. split; [reflexivity|exact Hfetched].
Defined.

Lemma C6_four_polls_witness :
  exists p w',
    performGeneration sample_decode sample_key
      (sample_params TEXT_TO_VIDEO) None None world_four_polls = (p, w')
    /\ polled (trace w') = [op_running; op_not_done; op_not_done; op_not_done]
    /\ length (polled (trace w')) = 4
    /\ trace w'
       = [EvSubmit {| payload_model := "veo-3.1-fast-generate-preview";
                      payload_config :=
                        {| numberOfVideos := 1;
                           config_resolution := "720p";
                           config_aspectRatio := Some "16:9";
                           lastFrame := None;
                           config_referenceImages := None |};
                      payload_prompt := Some "A chase (Reference 1: Hero)";
                      payload_image := None;
                      payload_video := None |};
          EvSleep 10000%N; EvPoll op_running;
          EvSleep 10000%N; EvPoll op_not_done;
          EvSleep 10000%N; EvPoll op_not_done;
          EvSleep 10000%N; EvPoll op_not_done;
          EvFetch "https://v/1?alt=media&key=KEY"]
    /\ length (fetched (trace w')) = 1.
Proof.
  destruct (C6_polls_every_ten_seconds_until_done
              sample_decode sample_key (sample_params TEXT_TO_VIDEO) None None
              _ world_four_polls op_running
              (op_done [generated "https://v/1?alt=media"])
              [op_not_done; op_not_done; op_not_done] [] []
              eq_refl eq_refl ltac:(discriminate) eq_refl
              ltac:(repeat constructor; discriminate) eq_refl)
    as [p [w' [Hperf [Hpolled [Hcount [_ [_ Hfetch]]]]]]].
  destruct (Hfetch {| generatedVideos := Some [generated "https://v/1?alt=media"] |}
                   (generated "https://v/1?alt=media")
                   (sample_video "https://v/1?alt=media")
                   "https://v/1?alt=media" "https://v/1?alt=media"
                   eq_refl eq_refl eq_refl eq_refl ltac:(discriminate) eq_refl)
    as [Htrace Hfetched].
  exists p, w'. split; [exact Hperf|]. split; [exact Hpolled|].
  split; [exact Hcount|]. split; [exact Htrace|exact Hfetched].
Defined.

Lemma C1_story_sequence_witness :
  exists r w',
    generateVideo sample_decode sample_key saga_params world_three_jobs
    = (Fulfilled r, w')
    /\ video r = sample_video "https://v/3?alt=media"
    /\ uri r = "https://v/3?alt=media"
    /\ blob r = "bytes-3"
    /\ map payload_prompt (submitted (trace w'))
       = [Some "open"; Some "continue"; Some "close"]
    /\ map payload_video (submitted (trace w'))
       = [None; Some (sample_video "https://v/1?alt=media");
          Some (sample_video "https://v/2?alt=media")]
    /\ polled (trace w')
       = [op_running; op_not_done; op_running;
          op_running; op_not_done; op_not_done]
    /\ fetched (trace w')
       = ["https://v/1?alt=media&key=KEY"; "https://v/2?alt=media&key=KEY";
          "https://v/3?alt=media&key=KEY"]
    /\ submits w' = [] /\ polls w' = [] /\ fetches w' = [].
Proof.
  assert (Hacc : Forall (accepting sample_decode) sample_jobs).
  { repeat apply Forall_cons; try apply Forall_nil;
      (split; [discriminate|];
       split; [repeat constructor; discriminate|];
       split; [reflexivity|];
       split; [eexists _, _, _;
               split; [reflexivity|]; split; [reflexivity|];
               split; [reflexivity|]; split; [discriminate|reflexivity]|];
       split; reflexivity). }
  destruct (C1_story_sequence_chains_its_steps
              sample_decode sample_key saga_params
              ["open"; "continue"; "close"] world_three_jobs
              eq_refl eq_refl ltac:(discriminate))
    as [_ [_ Hrun]].
  destruct (Hrun sample_jobs [] [] [] eq_refl Hacc eq_refl eq_refl eq_refl)
    as [r [w' [rs [payloads [Hgen _]]]]].
  exists r, w'. split; [exact Hgen|].
  vm_compute in Hgen. injection Hgen as <- <-.
  repeat split.
Defined.

Lemma C9_chain_guard_witness :
  fst (generateVideo sample_decode sample_key story_params world_two_jobs)
  <> Rejected ChainBroken
  /\ exists rs w1 previous,
      StorySteps sample_decode sample_key story_params 0 None ["open"]
                 world_two_jobs rs w1
      /\ last (map Some rs) None = Some previous
      /\ storyStep sample_decode sample_key story_params 1 "continue"
           (Some previous) w1
         = performGeneration sample_decode sample_key story_params
             (Some "continue") (Some (video previous)) w1.
Proof.
  destruct (C9_chain_guard_is_unreachable
              sample_decode sample_key story_params world_two_jobs)
    as [Hnever Hsteps].
  split; [exact Hnever|].
  eassert (Hrun : StorySteps sample_decode sample_key story_params 0 None
                    ["open"] world_two_jobs _ _).
  { eapply steps_next; [vm_compute; reflexivity|]. apply steps_none. }
  match type of Hrun with
  | StorySteps _ _ _ _ _ _ _ ?rs ?w1 =>
      destruct (Hsteps ["open"; "continue"] ["open"] "continue" [] rs w1
                  eq_refl eq_refl eq_refl Hrun) as [Hguard _]
  end.
  destruct (Hguard ltac:(discriminate)) as [previous [Hlast [Hcur Hstep]]].
  do 2 eexists. exists previous. split; [exact Hrun|]. split; [exact Hlast|].
  rewrite Hcur in Hstep. exact Hstep.
Defined.

(** * The further properties at sample inputs *)

Lemma X1_prior_video_witness :
  exists payload,
    buildPayload (sample_params EXTEND_VIDEO) None
                 (Some (sample_video "https://v/1?alt=media"))
    = Return payload
    /\ payload_video payload = Some (sample_video "https://v/1?alt=media")
    /\ payload_prompt payload = Some "A chase".
Proof.
  destruct (X1_prior_video_takes_precedence
              (sample_params EXTEND_VIDEO) None
              (sample_video "https://v/1?alt=media"))
    as [payload [Hb [Hv [_ [_ [_ [_ [Hp _]]]]]]]].
  exists payload. split; [exact Hb|]. split; [exact Hv|exact Hp].
Defined.

Lemma X2_reference_images_witness :
  exists payload l,
    buildPayload (sample_params REFERENCES_TO_VIDEO) None None = Return payload
    /\ config_referenceImages (payload_config payload) = Some l
    /\ map image l
       = [{| imageBytes := "aGVybw=="; mimeType := "image/png" |};
          {| imageBytes := "Y2l0eQ=="; mimeType := "image/png" |};
          {| imageBytes := "c3R5bGU="; mimeType := "image/png" |}]
    /\ map referenceType l = [ASSET; ASSET; STYLE].
Proof.
  destruct (X2_reference_images_then_style
              (sample_params REFERENCES_TO_VIDEO) None (or_introl eq_refl))
    as [payload [Hb [_ [_ [_ Hl]]]]].
  exists payload.
  destruct (config_referenceImages (payload_config payload)) as [l|].
  - exists l. split; [exact Hb|]. split; [reflexivity|].
    split; apply Hl.
  - destruct Hl as [Hl _]. discriminate Hl.
Defined.

Lemma X3_extend_witness :
  exists payload,
    buildPayload (handleSubmit (sample_form EXTEND_VIDEO)) None None
    = Return payload
    /\ payload_video payload = Some (sample_video "https://v/0?alt=media")
    /\ config_aspectRatio (payload_config payload) = None
    /\ payload_prompt payload = Some "A chase".
Proof.
  destruct (X3_extend_submits_input_video
              (handleSubmit (sample_form EXTEND_VIDEO)) None
              (sample_video "https://v/0?alt=media") eq_refl eq_refl)
    as [payload [Hb [Hv [Ha [_ [_ [_ Hp]]]]]]].
  exists payload. split; [exact Hb|]. split; [exact Hv|].
  split; [exact Ha|exact Hp].
Defined.

Lemma X4_polling_witness :
  exists w',
    performGeneration sample_decode sample_key
      (sample_params TEXT_TO_VIDEO) None None world_never_done
    = (PendingForever, w')
    /\ length (polled (trace w')) = 3
    /\ fetched (trace w') = [].
Proof.
  destruct (X4_polling_goes_on_while_not_done
              sample_decode sample_key (sample_params TEXT_TO_VIDEO) None None
              _ world_never_done op_running [op_not_done; op_not_done] []
              eq_refl eq_refl ltac:(discriminate) eq_refl
              ltac:(repeat constructor; discriminate))
    as [w' [Hp [_ [Hn [Hf _]]]]].
  exists w'. split; [exact Hp|]. split; [exact Hn|exact Hf].
Defined.

Lemma X5_rejected_submission_witness :
  exists w',
    performGeneration sample_decode sample_key
      (sample_params TEXT_TO_VIDEO) None None world_rejected_submit
    = (Rejected (RemoteFailure "quota exceeded"), w')
    /\ polls w' = polls world_rejected_submit
    /\ fetches w' = fetches world_rejected_submit.
Proof.
  destruct (X5_rejected_submission_propagates
              sample_decode sample_key (sample_params TEXT_TO_VIDEO) None None
              _ world_rejected_submit "quota exceeded" [] eq_refl eq_refl)
    as [w' [Hp [_ [Hpl [Hf _]]]]].
  exists w'. split; [exact Hp|]. split; [exact Hpl|exact Hf].
Defined.

Lemma X6_rejected_poll_witness :
  exists w',
    performGeneration sample_decode sample_key
      (sample_params TEXT_TO_VIDEO) None None world_rejected_poll
    = (Rejected (RemoteFailure "unavailable"), w')
    /\ polled (trace w') = [op_running; op_not_done]
    /\ fetched (trace w') = [].
Proof.
  destruct (X6_rejected_poll_propagates
              sample_decode sample_key (sample_params TEXT_TO_VIDEO) None None
              _ world_rejected_poll op_running [op_not_done] "unavailable"
              [] [] eq_refl eq_refl ltac:(discriminate) eq_refl
              ltac:(repeat constructor; discriminate))
    as [w' [Hp [_ [Hpl [Hf _]]]]].
  exists w'. split; [exact Hp|]. split; [exact Hpl|exact Hf].
Defined.

Lemma X7_fetch_not_ok_witness :
  exists w',
    retrieve sample_decode sample_key
      (op_done [generated "https://v/1?alt=media"]) world_not_found
    = (Rejected (Error "Failed to fetch video: 404 Not Found"), w')
    /\ trace w' = [EvFetch "https://v/1?alt=media&key=KEY"]
    /\ objectUrls w' = 0.
Proof.
  destruct (X7_fetch_not_ok_reports_status
              sample_decode sample_key
              (op_done [generated "https://v/1?alt=media"])
              {| generatedVideos := Some [generated "https://v/1?alt=media"] |}
              (generated "https://v/1?alt=media") []
              (sample_video "https://v/1?alt=media")
              "https://v/1?alt=media" "https://v/1?alt=media"
              world_not_found not_found_response []
              eq_refl eq_refl eq_refl eq_refl ltac:(discriminate)
              eq_refl eq_refl eq_refl)
    as [w' [Hr [Ht [_ Ho]]]].
  exists w'. split; [exact Hr|]. split; [exact Ht|exact Ho].
Defined.

Lemma X8_result_witness :
  exists r w' u,
    performGeneration sample_decode sample_key
      (sample_params TEXT_TO_VIDEO) None None world_four_polls
    = (Fulfilled r, w')
    /\ video_uri (video r) = Some u
    /\ sample_decode u = Some (uri r)
    /\ video r = sample_video "https://v/1?alt=media"
    /\ uri r = "https://v/1?alt=media"
    /\ blob r = "bytes-1"
    /\ polled (trace w') = [op_running; op_not_done; op_not_done; op_not_done]
    /\ fetched (trace w') = ["https://v/1?alt=media&key=KEY"].
Proof.
  destruct (performGeneration sample_decode sample_key
              (sample_params TEXT_TO_VIDEO) None None world_four_polls)
    as [[r|e|] w'] eqn:E.
  - destruct (X8_result_is_the_first_video_fetched
                sample_decode sample_key (sample_params TEXT_TO_VIDEO)
                None None world_four_polls w' r E)
      as [payload [started [replies [op [resp [first [others [u [res
            [_ [_ [_ [_ [_ [_ [_ [_ [_ [_ [Hu [_ [Hd _]]]]]]]]]]]]]]]]]]]]]].
    exists r, w', u. split; [reflexivity|].
    split; [exact Hu|]. split; [exact Hd|].
    vm_compute in E. injection E as <- <-. repeat split.
  - exfalso. vm_compute in E. discriminate E.
  - exfalso. vm_compute in E. discriminate E.
Defined.

Lemma X9_no_response_witness :
  fst (performGeneration sample_decode sample_key
         (sample_params TEXT_TO_VIDEO) None None world_no_response)
  = Rejected GenerationFailed.
Proof.
  destruct (X9_done_without_response_fails
              sample_decode sample_key (sample_params TEXT_TO_VIDEO) None None
              _ world_no_response _ op_done_without_response
              eq_refl eq_refl eq_refl) as [Hperf _].
  rewrite Hperf. reflexivity.
Defined.

Lemma X10_malformed_location_witness :
  fst (performGeneration strict_decode sample_key
         (sample_params TEXT_TO_VIDEO) None None world_malformed)
  = Rejected URIError.
Proof.
  destruct (X10_malformed_location_is_not_fetched
              strict_decode sample_key (sample_params TEXT_TO_VIDEO) None None
              _ world_malformed _ (op_done [generated "https://v/%zz"])
              {| generatedVideos := Some [generated "https://v/%zz"] |}
              (generated "https://v/%zz") []
              (sample_video "https://v/%zz") "https://v/%zz"
              eq_refl eq_refl eq_refl eq_refl eq_refl eq_refl
              ltac:(discriminate) eq_refl) as [Hperf _].
  rewrite Hperf. reflexivity.
Defined.

Lemma X11_calls_witness :
  exists evs,
    trace (snd (generateVideo sample_decode sample_key story_params
                  world_second_rejected)) = evs
    /\ length (submitted evs) <= 2
    /\ length (fetched evs) <= length (submitted evs).
Proof.
  destruct (X11_calls_are_bounded_by_the_steps
              sample_decode sample_key story_params world_second_rejected)
    as [evs [Ht [Hs [Hf _]]]].
  exists evs. split; [exact Ht|]. split; [exact Hs|exact Hf].
Defined.

Lemma X12_single_step_witness :
  generateVideo sample_decode sample_key (sample_params STORY_MODE)
    world_two_jobs
  = performGeneration sample_decode sample_key (sample_params STORY_MODE)
      None None world_two_jobs.
Proof.
  apply (X12_single_step_without_story_prompts
           sample_decode sample_key (sample_params STORY_MODE) world_two_jobs).
  right. left. reflexivity.
Defined.

Lemma X13_first_story_step_witness :
  exists payload tail,
    trace (snd (generateVideo sample_decode sample_key story_params
                  world_rejected_submit))
    = EvSubmit payload :: tail
    /\ payload_prompt payload = Some "open"
    /\ config_aspectRatio (payload_config payload) = Some "16:9".
Proof.
  destruct (X13_first_story_step_submission
              sample_decode sample_key story_params "open" ["continue"]
              world_rejected_submit eq_refl eq_refl)
    as [payload [tail [_ [Ht [Hp [Ha _]]]]]].
  exists payload, tail. split; [exact Ht|]. split; [exact Hp|exact Ha].
Defined.

Lemma X14_later_story_steps_witness :
  exists payloads second,
    nth_error payloads 1 = Some second
    /\ payload_video second = Some (sample_video "https://v/1?alt=media")
    /\ config_aspectRatio (payload_config second) = None
    /\ payload_prompt second = Some "continue".
Proof.
  eassert (Hsteps : StorySteps sample_decode sample_key story_params 0 None
                      ["open"; "continue"] world_two_jobs _ _).
  { eapply steps_next; [vm_compute; reflexivity|].
    eapply steps_next; [vm_compute; reflexivity|].
    apply steps_none. }
  destruct (X14_later_story_steps_are_extensions
              sample_decode sample_key story_params _ _ _ _ Hsteps)
    as [payloads [_ [Hlen Hlater]]].
  destruct payloads as [|first [|second rest]]; try discriminate Hlen.
  exists (first :: second :: rest), second. split; [reflexivity|].
  destruct (Hlater 0 "continue" second eq_refl eq_refl)
    as [[previous [Hprev Hv]] [Ha [_ [_ [_ Hp]]]]].
  cbn in Hprev. injection Hprev as <-.
  split; [exact Hv|]. split; [exact Ha|exact Hp].
Defined.

Lemma X15_stopped_story_witness :
  length (submitted (trace (snd (generateVideo sample_decode sample_key
                                   story_params world_second_rejected))))
  = 2.
Proof.
  eassert (Hsteps : StorySteps sample_decode sample_key story_params 0 None
                      ["open"] world_second_rejected _ _).
  { eapply steps_next; [vm_compute; reflexivity|]. apply steps_none. }
  match type of Hsteps with
  | StorySteps _ _ _ _ _ _ _ ?rs ?w1 =>
      eassert (Hstep : storyStep sample_decode sample_key story_params 1
                         "continue" (current_after None rs) w1
                       = (Rejected (RemoteFailure "quota exceeded"), _))
        by (vm_compute; reflexivity);
      destruct (X15_a_stopped_story_has_submitted_once_per_step
                  sample_decode sample_key story_params
                  ["open"; "continue"] ["open"] [] "continue"
                  world_second_rejected w1 _ rs _
                  eq_refl eq_refl eq_refl Hsteps Hstep
                  ltac:(intros r; discriminate))
        as [Hw [Hs _]]
  end.
  rewrite Hw. exact Hs.
Defined.

Lemma X16_errors_witness :
  fst (generateVideo sample_decode sample_key (sample_params EXTEND_VIDEO)
         world_two_jobs)
  = Rejected MissingExtensionSource.
Proof.
  apply (X16_errors_of_generateVideo
           sample_decode sample_key (sample_params EXTEND_VIDEO)
           world_two_jobs).
  split; reflexivity.
Defined.

Lemma X17_fileToBase64_witness :
  fileToBase64 (png "hero.png") (Resolve "data:image/png;base64,aGVybw==")
  = Fulfilled (png "hero.png", "aGVybw==").
Proof.
  destruct (X17_fileToBase64_takes_the_text_after_the_comma
              (png "hero.png") "data:image/png;base64,aGVybw==")
    as [Hres _].
  apply (Hres "data:image/png;base64" "aGVybw==" EmptyString).
  - reflexivity.
  - reflexivity.
  - reflexivity.
  - left. reflexivity.
Defined.

Lemma X18_disabled_witness :
  isSubmitDisabled sample_trim (handleSelectMode FRAMES_TO_VIDEO
                                  (sample_form TEXT_TO_VIDEO)) = true
  /\ tooltipText sample_trim (handleSelectMode FRAMES_TO_VIDEO
                                (sample_form TEXT_TO_VIDEO))
     = "A start frame is required.".
Proof.
  assert (Ht : tooltipText sample_trim
                 (handleSelectMode FRAMES_TO_VIDEO (sample_form TEXT_TO_VIDEO))
               = "A start frame is required.") by reflexivity.
  split; [|exact Ht].
  apply (X18_disabled_iff_tooltip sample_trim).
  rewrite Ht. discriminate.
Defined.

Lemma X19_enabled_form_witness :
  fst (generateVideo sample_decode sample_key
         (handleSubmit (sample_form EXTEND_VIDEO)) world_two_jobs)
  <> Rejected MissingExtensionSource.
Proof.
  apply (X19_enabled_form_has_its_extension_source
           sample_decode sample_key sample_trim (sample_form EXTEND_VIDEO)).
  reflexivity.
Defined.

Lemma X20_frames_form_witness :
  exists payload,
    buildPayload (handleSubmit (sample_form FRAMES_TO_VIDEO)) None None
    = Return payload
    /\ payload_image payload
       = Some {| imageBytes := "aGVybw=="; mimeType := "image/png" |}
    /\ lastFrame (payload_config payload)
       = Some {| imageBytes := "Y2l0eQ=="; mimeType := "image/png" |}.
Proof.
  destruct (X20_enabled_frames_form_sends_its_start_frame
              sample_trim (sample_form FRAMES_TO_VIDEO) None
              eq_refl eq_refl)
    as [f [payload [Hf [Hb [Hi [Hl _]]]]]].
  cbn in Hf. injection Hf as <-.
  exists payload. split; [exact Hb|]. split; [exact Hi|exact Hl].
Defined.

Lemma X21_references_form_witness :
  exists payload l,
    buildPayload (handleSubmit (sample_form REFERENCES_TO_VIDEO)) None None
    = Return payload
    /\ config_referenceImages (payload_config payload) = Some l
    /\ length l = 3.
Proof.
  destruct (X21_enabled_references_form_sends_its_images
              sample_trim (sample_form REFERENCES_TO_VIDEO)
              eq_refl eq_refl eq_refl)
    as [payload [l [text [Hb [Hr [Hl _]]]]]].
  exists payload, l. split; [exact Hb|]. split; [exact Hr|exact Hl].
Defined.

Lemma X22_story_segments_witness :
  form_storyPrompts (addStorySegment (sample_form STORY_MODE))
  = ["open"; "continue"; ""]
  /\ removeStorySegment 1 (sample_form STORY_MODE) = sample_form STORY_MODE
  /\ form_storyPrompts
       (removeStorySegment 1 (addStorySegment (sample_form STORY_MODE)))
     = ["open"; ""].
Proof.
  destruct (X22_story_segments_stay_between_two_and_twenty
              (sample_form STORY_MODE) 1) as [_ [Hadd [_ [_ [_ Hkeep]]]]].
  destruct (X22_story_segments_stay_between_two_and_twenty
              (addStorySegment (sample_form STORY_MODE)) 1)
    as [_ [_ [_ [Hrem _]]]].
  split; [apply Hadd; cbn; lia|].
  split; [apply Hkeep; cbn; lia|].
  apply Hrem. cbn. lia.
Defined.

Lemma X23_updateReferenceDescription_witness :
  In "(Reference 2: Villain)"
     (spec_label_texts
        (form_referenceImages
           (updateReferenceDescription 1 "Villain"
              (sample_form REFERENCES_TO_VIDEO)))).
Proof.
  destruct (X23_updateReferenceDescription_sets_one_label
              (sample_form REFERENCES_TO_VIDEO) 1 "Villain")
    as [_ [_ [_ [_ [_ [_ Hin]]]]]].
  apply Hin; [cbn; lia|discriminate].
Defined.

Lemma X24_selecting_a_mode_witness :
  let s' := handleSelectMode REFERENCES_TO_VIDEO
              (form_with_video FRAMES_TO_VIDEO) in
  isSubmitDisabled sample_trim s' = true
  /\ inputVideo s' = None
  /\ inputVideoObject (handleSubmit s') = None
  /\ startFrame (handleSubmit s') = None
  /\ referenceImages (handleSubmit s') = Some []
  /\ isLooping (handleSubmit s') = Some false
  /\ form_prompt s' = "A chase".
Proof.
  destruct (X24_selecting_a_mode_clears_the_media
              sample_trim REFERENCES_TO_VIDEO (form_with_video FRAMES_TO_VIDEO))
    as [_ [Hprompt [Hstart [_ [Hrefs [_ [Hobj [Hvid [_ [Hloop
          [_ [Hdis _]]]]]]]]]]]].
  split; [apply Hdis; right; left; reflexivity|].
  split; [exact Hvid|]. split; [exact Hobj|]. split; [exact Hstart|].
  split; [exact Hrefs|]. split; [exact Hloop|exact Hprompt].
Defined.

Lemma X25_story_form_witness :
  basePrompt (handleSubmit (sample_form STORY_MODE)) (Some "continue")
  = "continue"
  /\ exists r w',
      generateVideo sample_decode sample_key
        (handleSubmit (sample_form STORY_MODE)) world_two_jobs
      = (Fulfilled r, w')
      /\ map payload_prompt (submitted (trace w'))
         = [Some "open (Reference 1: Hero)"; Some "continue"]
      /\ map payload_video (submitted (trace w'))
         = [None; Some (sample_video "https://v/1?alt=media")].
Proof.
  destruct (X25_enabled_story_form_sends_every_story_prompt
              sample_decode sample_key sample_trim (sample_form STORY_MODE)
              eq_refl eq_refl eq_refl)
    as [Hall [_ Hrun]].
  split.
  - apply (Hall "continue"). right. left. reflexivity.
  - assert (Hacc : Forall (accepting sample_decode)
                     [sample_job [] "1"; sample_job [] "2"]).
    { repeat apply Forall_cons; try apply Forall_nil;
        (split; [discriminate|];
         split; [repeat constructor; discriminate|];
         split; [reflexivity|];
         split; [eexists _, _, _;
                 split; [reflexivity|]; split; [reflexivity|];
                 split; [reflexivity|]; split; [discriminate|reflexivity]|];
         split; reflexivity). }
    destruct (Hrun world_two_jobs [sample_job [] "1"; sample_job [] "2"]
                [] [] [] ltac:(discriminate) eq_refl Hacc
                eq_refl eq_refl eq_refl)
      as [r [w' [payloads [Hgen _]]]].
    exists r, w'. split; [exact Hgen|].
    vm_compute in Hgen. injection Hgen as <- <-. split; reflexivity.
Defined.
